(** * EnergyCounter: the energy-accounting engine, embedded and verified

    A shallow embedding of the accounting logic of EnergyCounter
    (cpu.c, dram.c, amd_gpu.c, intel_gpu.c, nvidia_gpu.c, mock.c and the
    overhead estimator of ecounter.c).

    - [uint32_t] and [uint64_t] values are integers of [Z] with the
      wrap-around of C's unsigned arithmetic written out ([u32], [u64]).
    - [double] values are IEEE 754 binary64 numbers: [spec_float] with the
      operations of the standard library's [SpecFloat] at precision 53 and
      [emax = 1024], rounding to nearest even as C does by default.
    - A function that can leave through [exit(EXIT_FAILURE)], through a
      failed [assert], or through an undefined conversion returns an
      [outcome]. *)

From Stdlib Require Import ZArith Lia List Bool Reals Lra.
From Stdlib Require Import Floats.SpecFloat.
From Stdlib Require Ascii String.
Import ListNotations.
Import Ascii.AsciiSyntax String.StringSyntax.
Local Open Scope Z_scope.
Delimit Scope string_scope with string.
Delimit Scope char_scope with char.

(** ** Machine integers *)

Definition u32 (z : Z) : Z := z mod 2 ^ 32.
Definition u64 (z : Z) : Z := z mod 2 ^ 64.

(** common.h / ecounter.c: [MIN] and [MAX]. *)
Definition MIN (a b : Z) : Z := if a <? b then a else b.
Definition MAX (a b : Z) : Z := if a >? b then a else b.

(** ** binary64 arithmetic *)

Definition double := spec_float.

(** Powers of two, as real numbers. *)
Definition bpow (e : Z) : R := powerRZ 2 e.

Module B64.

Definition mul : double -> double -> double := SFmul 53 1024.
Definition add : double -> double -> double := SFadd 53 1024.
Definition sub : double -> double -> double := SFsub 53 1024.
Definition div : double -> double -> double := SFdiv 53 1024.

(** [x > y] on doubles (false as soon as one side is a NaN). *)
Definition gt (x y : double) : bool := SFltb y x.

(** Conversion of an unsigned integer to [double]: the nearest double,
    ties to even. *)
Definition of_uint (n : Z) : double := binary_normalize 53 1024 n 0 false.

(** Conversion of a [double] to [uint64_t]: the fractional part is
    discarded; the behaviour is undefined ([None]) when the truncated value
    is not a [uint64_t]. *)
Definition to_u64 (x : double) : option Z :=
  match x with
  | S754_zero _ => Some 0
  | S754_finite false m e =>
      let v := Z.shiftl (Zpos m) e in
      if v <? 2 ^ 64 then Some v else None
  | S754_finite true m e =>
      if Z.shiftl (Zpos m) e =? 0 then Some 0 else None
  | _ => None
  end.

(** The literals of the sources. [1E3], [1E6], [1E9], [0.5] and [1.0] are
    binary64 numbers; [0.005] is not, and the compiler takes the nearest
    double, which is also the correctly rounded quotient 5/1000. *)
Definition zero : double := S754_zero false.
Definition one : double := of_uint 1.
Definition half : double := div (of_uint 1) (of_uint 2).
Definition c_1E3 : double := of_uint 1000.
Definition c_1E6 : double := of_uint 1000000.
Definition c_1E9 : double := of_uint 1000000000.
Definition c_0_005 : double := div (of_uint 5) (of_uint 1000).

(** [pow(0.5, k)] of libm for an integer 0 <= k: the power 2^-k, a binary64
    number, which [pow] returns exactly. *)
Definition pow_half (k : Z) : double := binary_normalize 53 1024 1 (- k) false.

(** The real number a double stands for (0 for infinities and NaN). *)
Definition B2R (x : double) : R :=
  match x with
  | S754_finite s m e => IZR (cond_Zopp s (Zpos m)) * bpow e
  | _ => 0%R
  end.

End B64.

(** The constants, evaluated. *)
Example c_0_005_bits : B64.c_0_005 = S754_finite false 5764607523034235 (-60).
Proof. vm_compute. reflexivity. Qed.

Example half_bits : B64.half = S754_finite false 4503599627370496 (-53).
Proof. vm_compute. reflexivity. Qed.

Example pow_half_10 : B64.pow_half 10 = S754_finite false 4503599627370496 (-62).
Proof. vm_compute. reflexivity. Qed.

(** ** Rounding: what [binary_round_aux] returns

    The results below describe the finite, normal results of the
    correctly rounded operations of [SpecFloat]: the mantissa that is
    kept is the exact one shifted right, or its successor. *)

Lemma digits2_pos_bounds (p : positive) :
  2 ^ (Zpos (digits2_pos p) - 1) <= Zpos p < 2 ^ Zpos (digits2_pos p).
Proof.
  induction p as [p IH | p IH |]; simpl digits2_pos.
  - rewrite Pos2Z.inj_succ. change (Z.pos p~1) with (2 * Z.pos p + 1).
    replace (Z.succ (Zpos (digits2_pos p)) - 1)
      with (Z.succ (Zpos (digits2_pos p) - 1)) by lia.
    rewrite !Z.pow_succ_r by lia. lia.
  - rewrite Pos2Z.inj_succ. change (Z.pos p~0) with (2 * Z.pos p).
    replace (Z.succ (Zpos (digits2_pos p)) - 1)
      with (Z.succ (Zpos (digits2_pos p) - 1)) by lia.
    rewrite !Z.pow_succ_r by lia. lia.
  - simpl. lia.
Qed.

Lemma Zdigits2_bounds (m : Z) :
  0 < m -> 2 ^ (Zdigits2 m - 1) <= m < 2 ^ Zdigits2 m.
Proof.
  destruct m as [| p | p]; try lia. intros _. apply digits2_pos_bounds.
Qed.

Lemma Zdigits2_pos (m : Z) : 0 < m -> 0 < Zdigits2 m.
Proof. destruct m; simpl; lia. Qed.

Lemma Zdigits2_unique (m d : Z) :
  0 < d -> 2 ^ (d - 1) <= m < 2 ^ d -> Zdigits2 m = d.
Proof.
  intros Hd [Hlo Hhi].
  assert (Hm : 0 < m) by (pose proof (Z.pow_pos_nonneg 2 (d - 1)); lia).
  pose proof (Zdigits2_bounds m Hm) as [Hlo' Hhi'].
  pose proof (Zdigits2_pos m Hm) as Hp.
  destruct (Z.lt_trichotomy (Zdigits2 m) d) as [Hlt | [Heq | Hgt]]; trivial.
  - assert (2 ^ Zdigits2 m <= 2 ^ (d - 1)) by (apply Z.pow_le_mono_r; lia). lia.
  - assert (2 ^ d <= 2 ^ (Zdigits2 m - 1)) by (apply Z.pow_le_mono_r; lia). lia.
Qed.

Lemma iter_pos_nat {A : Type} (f : A -> A) (p : positive) (x : A) :
  iter_pos f p x = Nat.iter (Pos.to_nat p) f x.
Proof.
  revert x. induction p as [p IH | p IH |]; intros x; simpl iter_pos.
  - rewrite !IH, Pos2Nat.inj_xI.
    replace (S (2 * Pos.to_nat p))%nat
      with (Pos.to_nat p + (Pos.to_nat p + 1))%nat by lia.
    rewrite !Nat.iter_add. reflexivity.
  - rewrite !IH, Pos2Nat.inj_xO.
    replace (2 * Pos.to_nat p)%nat with (Pos.to_nat p + Pos.to_nat p)%nat by lia.
    rewrite Nat.iter_add. reflexivity.
  - reflexivity.
Qed.

(** The sticky information of a shift record. *)
Definition inexact (mrs : shr_record) : bool := shr_r mrs || shr_s mrs.

Lemma shr_1_spec (mrs : shr_record) :
  0 <= shr_m mrs ->
  shr_m (shr_1 mrs) = shr_m mrs / 2 /\
  inexact (shr_1 mrs) = Z.odd (shr_m mrs) || inexact mrs.
Proof.
  destruct mrs as [m r s]. unfold inexact. simpl shr_m.
  intros Hm. destruct m as [| [p | p |] | p]; try lia; cbn -[Z.div];
    (split; [| reflexivity]).
  - reflexivity.
  - change (Z.pos p~1) with (2 * Z.pos p + 1).
    apply Z.div_unique with 1; lia.
  - change (Z.pos p~0) with (2 * Z.pos p).
    apply Z.div_unique with 0; lia.
  - reflexivity.
Qed.

Lemma mod_pow2_succ (m i : Z) :
  0 <= i ->
  (m mod 2 ^ (i + 1) = 0 <-> m mod 2 ^ i = 0 /\ Z.odd (m / 2 ^ i) = false).
Proof.
  intros Hi.
  assert (Hp : 0 < 2 ^ i) by (apply Z.pow_pos_nonneg; lia).
  rewrite Z.pow_add_r, Z.pow_1_r by lia.
  rewrite Z.rem_mul_r by lia.
  pose proof (Z.mod_pos_bound m (2 ^ i) Hp) as Hb.
  rewrite Zmod_odd.
  destruct (Z.odd (m / 2 ^ i)); split; intros H; nia.
Qed.

Lemma iter_shr_1_spec (n : nat) (mrs : shr_record) :
  0 <= shr_m mrs ->
  shr_m (Nat.iter n shr_1 mrs) = shr_m mrs / 2 ^ Z.of_nat n /\
  (inexact (Nat.iter n shr_1 mrs) = false <->
   inexact mrs = false /\ shr_m mrs mod 2 ^ Z.of_nat n = 0).
Proof.
  intros Hm. induction n as [| n [IHm IHi]].
  - cbn [Nat.iter]. change (2 ^ Z.of_nat 0) with 1.
    rewrite Z.div_1_r, Z.mod_1_r. tauto.
  - change (Nat.iter (S n) shr_1 mrs) with (shr_1 (Nat.iter n shr_1 mrs)).
    assert (Hq : 0 <= shr_m (Nat.iter n shr_1 mrs)).
    { rewrite IHm. apply Z.div_pos; [lia | apply Z.pow_pos_nonneg; lia]. }
    destruct (shr_1_spec _ Hq) as [Hs Hx].
    rewrite Hs, Hx, IHm, Nat2Z.inj_succ, <- Z.add_1_r.
    split.
    + rewrite Z.pow_add_r, Z.pow_1_r by lia.
      rewrite Z.div_div by (try apply Z.pow_pos_nonneg; lia). reflexivity.
    + rewrite Bool.orb_false_iff, IHi, mod_pow2_succ by lia. tauto.
Qed.

Lemma loc_of_shr_record_exact (mrs : shr_record) :
  loc_of_shr_record mrs = loc_Exact <-> inexact mrs = false.
Proof.
  destruct mrs as [m [|] [|]]; unfold inexact; simpl; split; congruence.
Qed.

Lemma inexact_of_loc (m : Z) (l : location) :
  inexact (shr_record_of_loc m l) = false <-> l = loc_Exact.
Proof.
  destruct l as [| []]; unfold inexact; simpl; split; congruence.
Qed.

Lemma shr_m_of_loc (m : Z) (l : location) : shr_m (shr_record_of_loc m l) = m.
Proof. destruct l as [| []]; reflexivity. Qed.

Lemma round_nearest_even_cases (m : Z) (l : location) :
  round_nearest_even m l = m \/
  (round_nearest_even m l = m + 1 /\ l <> loc_Exact).
Proof.
  destruct l as [| []]; simpl; auto; try (right; split; [reflexivity | discriminate]).
  destruct (Z.even m); [left | right; split]; auto; discriminate.
Qed.

Lemma shr_fexp_normal (m e : Z) (l : location) :
  0 < m -> -1074 <= Zdigits2 m + e - 53 ->
  exists mrs,
    shr_fexp 53 1024 m e l = (mrs, e + Z.max 0 (Zdigits2 m - 53)) /\
    shr_m mrs = m / 2 ^ Z.max 0 (Zdigits2 m - 53) /\
    (inexact mrs = false <->
     l = loc_Exact /\ m mod 2 ^ Z.max 0 (Zdigits2 m - 53) = 0).
Proof.
  intros Hm Hn. unfold shr_fexp, fexp, emin.
  replace (Z.max (Zdigits2 m + e - 53) (3 - 1024 - 53) - e)
    with (Zdigits2 m - 53) by lia.
  destruct (Zdigits2 m - 53) as [| p | p] eqn:Hd.
  - exists (shr_record_of_loc m l). cbn [shr Z.max Z.compare].
    rewrite Z.add_0_r, shr_m_of_loc, inexact_of_loc.
    change (2 ^ 0) with 1. rewrite Z.div_1_r, Z.mod_1_r. tauto.
  - exists (iter_pos shr_1 p (shr_record_of_loc m l)).
    rewrite Z.max_r by lia. cbn [shr].
    rewrite iter_pos_nat.
    destruct (iter_shr_1_spec (Pos.to_nat p) (shr_record_of_loc m l)) as [H1 H2].
    { rewrite shr_m_of_loc. lia. }
    rewrite positive_nat_Z, shr_m_of_loc in H1, H2.
    rewrite inexact_of_loc in H2. auto.
  - exists (shr_record_of_loc m l). rewrite Z.max_l by lia. cbn [shr].
    rewrite Z.add_0_r, shr_m_of_loc, inexact_of_loc.
    change (2 ^ 0) with 1. rewrite Z.div_1_r, Z.mod_1_r. tauto.
Qed.

Lemma div_pow2_digits (M : Z) :
  0 < M -> 53 <= Zdigits2 M ->
  2 ^ 52 <= M / 2 ^ (Zdigits2 M - 53) < 2 ^ 53.
Proof.
  intros HM Hd. pose proof (Zdigits2_bounds M HM) as [Hlo Hhi].
  assert (Hp : 0 < 2 ^ (Zdigits2 M - 53)) by (apply Z.pow_pos_nonneg; lia).
  split.
  - apply Z.div_le_lower_bound; trivial.
    rewrite <- Z.pow_add_r by lia.
    replace (Zdigits2 M - 53 + 52) with (Zdigits2 M - 1) by lia. exact Hlo.
  - apply Z.div_lt_upper_bound; trivial.
    rewrite <- Z.pow_add_r by lia.
    replace (Zdigits2 M - 53 + 53) with (Zdigits2 M) by lia. exact Hhi.
Qed.

(** The structure of a rounded result: [M] is a mantissa of at least 53
    bits, [M * 2^E] lies in the normal range and [l] locates the exact
    value in [[M, M+1) * 2^E]. The result keeps [M / 2^n], or takes its
    successor when something was lost. *)
Lemma binary_round_aux_spec (M E : Z) (l : location) :
  0 < M -> 53 <= Zdigits2 M ->
  -1074 <= E + (Zdigits2 M - 53) -> E + (Zdigits2 M - 53) + 1 <= 971 ->
  exists m e,
    binary_round_aux 53 1024 false M E l = S754_finite false m e /\
    2 ^ 52 <= Zpos m < 2 ^ 53 /\
    E + (Zdigits2 M - 53) <= e /\
    (Zpos m * 2 ^ (e - (E + (Zdigits2 M - 53))) = M / 2 ^ (Zdigits2 M - 53) \/
     (Zpos m * 2 ^ (e - (E + (Zdigits2 M - 53))) = M / 2 ^ (Zdigits2 M - 53) + 1 /\
      (l <> loc_Exact \/ M mod 2 ^ (Zdigits2 M - 53) <> 0))).
Proof.
  intros HM Hd Hlo Hhi.
  set (n := Zdigits2 M - 53) in *.
  destruct (shr_fexp_normal M E l HM ltac:(lia)) as (mrs & Hshr & Hm1 & Hex).
  rewrite Z.max_r in Hshr, Hm1, Hex by lia. fold n in Hshr, Hm1, Hex.
  pose proof (div_pow2_digits M HM Hd) as Hb. fold n in Hb.
  unfold binary_round_aux. rewrite Hshr.
  set (m2 := round_nearest_even (shr_m mrs) (loc_of_shr_record mrs)).
  assert (Hm2 : m2 = M / 2 ^ n \/
                (m2 = M / 2 ^ n + 1 /\ (l <> loc_Exact \/ M mod 2 ^ n <> 0))).
  { unfold m2.
    destruct (round_nearest_even_cases (shr_m mrs) (loc_of_shr_record mrs))
      as [H | [H Hl]]; rewrite H, Hm1; [left; reflexivity | right; split; trivial].
    rewrite loc_of_shr_record_exact, Hex in Hl.
    destruct l as [| c]; [right | left; discriminate].
    intros H0. apply Hl. split; trivial. }
  assert (Hm2b : 2 ^ 52 <= m2 <= 2 ^ 53) by lia.
  destruct (Z.eq_dec m2 (2 ^ 53)) as [Hcarry | Hnc].
  - assert (Hd2 : Zdigits2 m2 = 54).
    { apply Zdigits2_unique; [lia |]. rewrite Hcarry. split; [reflexivity | lia]. }
    destruct (shr_fexp_normal m2 (E + n) loc_Exact ltac:(lia) ltac:(lia))
      as (mrs2 & Hshr2 & Hq & _).
    rewrite Hd2 in Hshr2, Hq. change (Z.max 0 (54 - 53)) with 1 in Hshr2, Hq.
    rewrite Hshr2, Hq, Hcarry. change (2 ^ 53 / 2 ^ 1) with (Z.pos (2 ^ 52)).
    cbv iota. replace (E + n + 1 <=? 1024 - 53) with true by (symmetry; apply Z.leb_le; lia).
    exists (2 ^ 52)%positive, (E + n + 1). split; [reflexivity |].
    split; [split; [reflexivity | lia] |]. split; [lia |].
    replace (E + n + 1 - (E + n)) with 1 by lia.
    change (Z.pos (2 ^ 52) * 2 ^ 1) with (2 ^ 53). rewrite <- Hcarry. exact Hm2.
  - assert (Hd2 : Zdigits2 m2 = 53).
    { apply Zdigits2_unique; [lia |]. change (53 - 1) with 52. lia. }
    destruct (shr_fexp_normal m2 (E + n) loc_Exact ltac:(lia) ltac:(lia))
      as (mrs2 & Hshr2 & Hq & _).
    rewrite Hd2 in Hshr2, Hq. change (Z.max 0 (53 - 53)) with 0 in Hshr2, Hq.
    change (2 ^ 0) with 1 in Hq. rewrite Z.div_1_r in Hq.
    rewrite Hshr2, Hq.
    destruct m2 as [| p | p]; try lia.
    replace (E + n + 0 <=? 1024 - 53) with true by (symmetry; apply Z.leb_le; lia).
    exists p, (E + n + 0). split; [reflexivity |].
    split; [lia |]. split; [lia |].
    replace (E + n + 0 - (E + n)) with 0 by lia. rewrite Z.mul_1_r. exact Hm2.
Qed.

(** *** Real values *)

Lemma bpow_add (a b : Z) : bpow (a + b) = (bpow a * bpow b)%R.
Proof. unfold bpow. apply powerRZ_add. lra. Qed.

Lemma bpow_pos (e : Z) : (0 < bpow e)%R.
Proof. unfold bpow. apply powerRZ_lt. lra. Qed.

Lemma bpow_IZR (e : Z) : 0 <= e -> bpow e = IZR (2 ^ e).
Proof.
  intros He. unfold bpow. destruct e as [| p | p]; try lia.
  - reflexivity.
  - cbn [powerRZ]. rewrite pow_IZR, positive_nat_Z. reflexivity.
Qed.

Lemma bpow_0 : bpow 0 = 1%R.
Proof. reflexivity. Qed.

Lemma bpow_le (a b : Z) : a <= b -> (bpow a <= bpow b)%R.
Proof.
  intros H. replace b with (a + (b - a)) by lia.
  rewrite bpow_add, (bpow_IZR (b - a)) by lia.
  pose proof (bpow_pos a) as Ha.
  assert (1 <= IZR (2 ^ (b - a)))%R.
  { apply IZR_le. pose proof (Z.pow_pos_nonneg 2 (b - a)). lia. }
  nra.
Qed.

Lemma bpow_opp_cancel (e : Z) : (bpow e * bpow (- e) = 1)%R.
Proof. rewrite <- bpow_add, Z.add_opp_diag_r. reflexivity. Qed.

(** The value the rounding of [t] returns, for [t] in the cell
    [[M, M+1) * 2^E]: within one unit in the last place of [t], exact
    when nothing is lost, and never across an integer below 2^53. *)
Lemma binary_round_aux_R (M E : Z) (l : location) (t : R) :
  0 < M -> 53 <= Zdigits2 M ->
  -1074 <= E + (Zdigits2 M - 53) -> E + (Zdigits2 M - 53) + 1 <= 971 ->
  (IZR M * bpow E <= t < IZR (M + 1) * bpow E)%R ->
  (l = loc_Exact -> (t = IZR M * bpow E)%R) ->
  (l <> loc_Exact -> (IZR M * bpow E < t)%R) ->
  exists m e,
    binary_round_aux 53 1024 false M E l = S754_finite false m e /\
    2 ^ 52 <= Zpos m < 2 ^ 53 /\
    E + (Zdigits2 M - 53) <= e <= E + (Zdigits2 M - 53) + 1 /\
    (Rabs (IZR (Zpos m) * bpow e - t) <= bpow (E + (Zdigits2 M - 53)))%R /\
    (bpow (E + (Zdigits2 M - 53)) * IZR (2 ^ 52) <= t)%R /\
    (l = loc_Exact -> M mod 2 ^ (Zdigits2 M - 53) = 0 ->
     (IZR (Zpos m) * bpow e = t)%R) /\
    (forall k, 0 <= k <= 2 ^ 53 ->
               (IZR k <= t -> IZR k <= IZR (Zpos m) * bpow e)%R) /\
    (forall k, 0 <= k <= 2 ^ 53 ->
               (t <= IZR k -> IZR (Zpos m) * bpow e <= IZR k)%R).
Proof.
  intros HM Hd Hlo Hhi Ht Hex Hin.
  destruct (binary_round_aux_spec M E l HM Hd Hlo Hhi)
    as (m & e & Hr & Hm & He & Hcase).
  set (n := Zdigits2 M - 53) in *.
  set (m1 := M / 2 ^ n) in *.
  set (c := bpow (E + n)).
  assert (Hn : 0 <= n) by (unfold n; lia).
  assert (Hpn : 0 < 2 ^ n) by (apply Z.pow_pos_nonneg; lia).
  assert (Hc : (0 < c)%R) by apply bpow_pos.
  assert (Hm1 : 2 ^ 52 <= m1 < 2 ^ 53) by (apply div_pow2_digits; trivial).
  assert (HmM : m1 * 2 ^ n <= M < (m1 + 1) * 2 ^ n).
  { unfold m1. pose proof (Z.mul_div_le M (2 ^ n) Hpn).
    pose proof (Z.mod_pos_bound M (2 ^ n) Hpn).
    pose proof (Z.div_mod M (2 ^ n) ltac:(lia)). nia. }
  assert (Hcn : c = (bpow E * IZR (2 ^ n))%R).
  { unfold c. rewrite bpow_add, (bpow_IZR n) by lia. reflexivity. }
  pose proof (bpow_pos E) as HE.
  assert (Hdown : (IZR m1 * c <= IZR M * bpow E)%R).
  { rewrite Hcn. replace (IZR m1 * (bpow E * IZR (2 ^ n)))%R
      with (IZR (m1 * 2 ^ n) * bpow E)%R by (rewrite mult_IZR; ring).
    apply Rmult_le_compat_r; [lra | apply IZR_le; lia]. }
  assert (Hup : (IZR (M + 1) * bpow E <= IZR (m1 + 1) * c)%R).
  { rewrite Hcn. replace (IZR (m1 + 1) * (bpow E * IZR (2 ^ n)))%R
      with (IZR ((m1 + 1) * 2 ^ n) * bpow E)%R by (rewrite mult_IZR; ring).
    apply Rmult_le_compat_r; [lra | apply IZR_le; lia]. }
  assert (Hsucc : (IZR (m1 + 1) * c = IZR m1 * c + c)%R)
    by (rewrite plus_IZR; ring).
  assert (Hval : exists m2, (IZR (Zpos m) * bpow e = IZR m2 * c)%R /\
             (m2 = m1 \/ (m2 = m1 + 1 /\ (l <> loc_Exact \/ M mod 2 ^ n <> 0)))).
  { exists (Zpos m * 2 ^ (e - (E + n))). split.
    - replace e with ((e - (E + n)) + (E + n)) at 1 by lia.
      rewrite bpow_add, (bpow_IZR (e - (E + n))), mult_IZR by lia.
      unfold c. ring.
    - destruct Hcase as [H | [H H']]; rewrite H; auto. }
  destruct Hval as (m2 & HV & Hm2).
  assert (Hstrict : m2 = m1 + 1 -> (IZR m1 * c < t)%R).
  { intros H2. destruct Hm2 as [H | [_ [H | H]]]; [lia | |].
    - specialize (Hin H). lra.
    - assert (m1 * 2 ^ n < M).
      { unfold m1 in *. pose proof (Z.div_mod M (2 ^ n) ltac:(lia)).
        pose proof (Z.mod_pos_bound M (2 ^ n) Hpn). nia. }
      assert (IZR (m1 * 2 ^ n) * bpow E < IZR M * bpow E)%R.
      { apply Rmult_lt_compat_r; [lra | apply IZR_lt; lia]. }
      rewrite mult_IZR in *. rewrite Hcn. lra. }
  assert (Hm2R : (IZR m2 * c = IZR m1 * c \/ IZR m2 * c = IZR m1 * c + c)%R).
  { destruct Hm2 as [H | [H _]]; rewrite H; [left; reflexivity | right; exact Hsucc]. }
  exists m, e. split; [exact Hr |]. split; [exact Hm |].
  split.
  { destruct Hcase as [H | [H _]]; split; try lia;
      destruct (Z.le_gt_cases (e - (E + n)) 1) as [Hle | Hgt]; try lia;
      assert (2 ^ 2 <= 2 ^ (e - (E + n))) by (apply Z.pow_le_mono_r; lia);
      fold n in H; nia. }
  split.
  { rewrite HV. apply Rabs_le. destruct Hm2R as [H | H]; rewrite H; lra. }
  split.
  { assert (IZR (2 ^ 52) <= IZR m1)%R by (apply IZR_le; lia). nra. }
  split.
  { intros Hl H0. rewrite HV. rewrite (Hex Hl).
    destruct Hm2 as [H | [_ [H | H]]]; try contradiction.
    rewrite H, Hcn.
    replace (IZR m1 * (bpow E * IZR (2 ^ n)))%R
      with (IZR (m1 * 2 ^ n) * bpow E)%R by (rewrite mult_IZR; ring).
    f_equal. f_equal. unfold m1.
    pose proof (Z.div_mod M (2 ^ n) ltac:(lia)). lia. }
  assert (Hcell : forall k, 0 <= k <= 2 ^ 53 ->
            ((IZR k < IZR (m1 + 1) * c -> IZR k <= IZR m1 * c) /\
             (IZR m1 * c < IZR k -> IZR (m1 + 1) * c <= IZR k))%R).
  { intros k Hk. destruct (Z.le_gt_cases (E + n) 0) as [Hneg | Hposi].
    - pose proof (bpow_opp_cancel (E + n)) as Hinv. fold c in Hinv.
      rewrite (bpow_IZR (- (E + n))) in Hinv by lia.
      set (j := 2 ^ (- (E + n))) in *.
      assert (Hj : 0 < j) by (apply Z.pow_pos_nonneg; lia).
      assert (HjR : (0 < IZR j)%R) by (apply IZR_lt; lia).
      split; intros H.
      + assert (IZR (k * j) < IZR (m1 + 1))%R.
        { rewrite mult_IZR.
          replace (IZR (m1 + 1)) with (IZR (m1 + 1) * c * IZR j)%R
            by (rewrite Rmult_assoc, Hinv; ring).
          apply Rmult_lt_compat_r; trivial. }
        apply lt_IZR in H0.
        assert (IZR (k * j) <= IZR m1)%R by (apply IZR_le; lia).
        rewrite mult_IZR in H1.
        replace (IZR k) with (IZR k * IZR j * c)%R
          by (rewrite Rmult_assoc, (Rmult_comm (IZR j)), Hinv; ring).
        apply Rmult_le_compat_r; lra.
      + assert (IZR m1 < IZR (k * j))%R.
        { rewrite mult_IZR.
          replace (IZR m1) with (IZR m1 * c * IZR j)%R
            by (rewrite Rmult_assoc, Hinv; ring).
          apply Rmult_lt_compat_r; trivial. }
        apply lt_IZR in H0.
        assert (IZR (m1 + 1) <= IZR (k * j))%R by (apply IZR_le; lia).
        rewrite mult_IZR in H1.
        replace (IZR k) with (IZR k * IZR j * c)%R
          by (rewrite Rmult_assoc, (Rmult_comm (IZR j)), Hinv; ring).
        apply Rmult_le_compat_r; lra.
    - assert (Hc2 : (2 <= c)%R).
      { unfold c. rewrite bpow_IZR by lia. apply IZR_le.
        change 2 with (2 ^ 1) at 1. apply Z.pow_le_mono_r; lia. }
      assert (IZR (2 ^ 52) <= IZR m1)%R by (apply IZR_le; lia).
      assert (IZR k <= IZR (2 ^ 53))%R by (apply IZR_le; lia).
      change (2 ^ 53) with (2 ^ 52 * 2) in H0. rewrite mult_IZR in H0.
      assert (0 < IZR (2 ^ 52))%R by (apply IZR_lt; lia).
      split; intros H'; nra. }
  split.
  - intros k Hk Hkt. rewrite HV.
    destruct (Hcell k Hk) as [Hc1 _].
    assert (IZR k <= IZR m1 * c)%R by (apply Hc1; lra).
    destruct Hm2R as [H' | H']; rewrite H'; lra.
  - intros k Hk Hkt. rewrite HV.
    destruct (Hcell k Hk) as [_ Hc2].
    destruct Hm2 as [H' | [H' _]]; rewrite H'.
    + lra.
    + apply Hc2. specialize (Hstrict H'). lra.
Qed.

Lemma binary_round_aux_exact (M E : Z) :
  0 < M -> 53 <= Zdigits2 M ->
  -1074 <= E + (Zdigits2 M - 53) -> E + (Zdigits2 M - 53) + 1 <= 971 ->
  M mod 2 ^ (Zdigits2 M - 53) = 0 ->
  binary_round_aux 53 1024 false M E loc_Exact =
  S754_finite false (Z.to_pos (M / 2 ^ (Zdigits2 M - 53))) (E + (Zdigits2 M - 53)).
Proof.
  intros HM Hd Hlo Hhi H0.
  destruct (binary_round_aux_spec M E loc_Exact HM Hd Hlo Hhi)
    as (m & e & Hr & Hm & He & Hcase).
  pose proof (div_pow2_digits M HM Hd) as Hb.
  destruct Hcase as [H | [_ [H | H]]]; try contradiction.
  assert (e = E + (Zdigits2 M - 53)).
  { destruct (Z.eq_dec e (E + (Zdigits2 M - 53))) as [Heq | Hne]; trivial.
    assert (2 ^ 1 <= 2 ^ (e - (E + (Zdigits2 M - 53))))
      by (apply Z.pow_le_mono_r; lia).
    nia. }
  subst e. rewrite Z.sub_diag, Z.mul_1_r in H.
  rewrite Hr, <- H. reflexivity.
Qed.

Lemma shl_align_spec (mx : positive) (ex ex' : Z) :
  snd (shl_align mx ex ex') = Z.min ex ex' /\
  Zpos (fst (shl_align mx ex ex')) = Zpos mx * 2 ^ (ex - Z.min ex ex').
Proof.
  unfold shl_align. destruct (ex' - ex) as [| p | p] eqn:Hd; cbn [fst snd].
  - rewrite Z.min_l by lia. rewrite Z.sub_diag. split; lia.
  - rewrite Z.min_l by lia. rewrite Z.sub_diag. split; lia.
  - rewrite Z.min_r by lia. split; trivial.
    fold (shift_pos p mx). rewrite shift_pos_correct.
    replace (ex - ex') with (Zpos p) by lia. rewrite Z.mul_comm. reflexivity.
Qed.

Lemma Zdigits2_le (M k : Z) : 0 < M -> M < 2 ^ k -> Zdigits2 M <= k.
Proof.
  intros HM Hk. pose proof (Zdigits2_bounds M HM) as [Hlo _].
  pose proof (Zdigits2_pos M HM).
  destruct (Z.le_gt_cases (Zdigits2 M) k) as [H1 | H1]; trivial.
  destruct (Z.le_gt_cases 0 k) as [H2 | H2].
  - assert (2 ^ k <= 2 ^ (Zdigits2 M - 1)) by (apply Z.pow_le_mono_r; lia). lia.
  - rewrite Z.pow_neg_r in Hk by lia. lia.
Qed.

Lemma Zdigits2_gt (M k : Z) : 0 < M -> 2 ^ k <= M -> k < Zdigits2 M.
Proof.
  intros HM Hk. pose proof (Zdigits2_bounds M HM) as [_ Hhi].
  destruct (Z.le_gt_cases (Zdigits2 M) k) as [H1 | H1]; trivial.
  pose proof (Zdigits2_pos M HM).
  assert (2 ^ Zdigits2 M <= 2 ^ k) by (apply Z.pow_le_mono_r; lia). lia.
Qed.

(** [binary_round] first brings a short mantissa to 53 bits, which loses
    nothing. *)
Lemma binary_round_R (M : positive) (E : Z) :
  -1074 <= E + (Zdigits2 (Zpos M) - 53) ->
  E + (Zdigits2 (Zpos M) - 53) + 1 <= 971 ->
  exists m e,
    binary_round 53 1024 false M E = S754_finite false m e /\
    2 ^ 52 <= Zpos m < 2 ^ 53 /\
    E + (Zdigits2 (Zpos M) - 53) <= e <= E + (Zdigits2 (Zpos M) - 53) + 1 /\
    (Rabs (IZR (Zpos m) * bpow e - IZR (Zpos M) * bpow E)
     <= bpow (E + (Zdigits2 (Zpos M) - 53)))%R /\
    (bpow (E + (Zdigits2 (Zpos M) - 53)) * IZR (2 ^ 52)
     <= IZR (Zpos M) * bpow E)%R /\
    (Zdigits2 (Zpos M) <= 53 \/ Zpos M mod 2 ^ (Zdigits2 (Zpos M) - 53) = 0 ->
     (IZR (Zpos m) * bpow e = IZR (Zpos M) * bpow E)%R) /\
    (forall k, 0 <= k <= 2 ^ 53 ->
       (IZR k <= IZR (Zpos M) * bpow E -> IZR k <= IZR (Zpos m) * bpow e)%R) /\
    (forall k, 0 <= k <= 2 ^ 53 ->
       (IZR (Zpos M) * bpow E <= IZR k -> IZR (Zpos m) * bpow e <= IZR k)%R).
Proof.
  intros Hlo Hhi. unfold binary_round.
  set (d := Zdigits2 (Zpos M)) in *.
  assert (Hd : 0 < d) by (apply Zdigits2_pos; lia).
  pose proof (Zdigits2_bounds (Zpos M) ltac:(lia)) as Hb. fold d in Hb.
  change (Zpos (digits2_pos M)) with d.
  unfold fexp, emin. rewrite Z.max_l by lia.
  destruct (shl_align_spec M E (d + E - 53)) as [He' Hm'].
  destruct (shl_align M E (d + E - 53)) as [M' E'] eqn:Hal.
  cbn [fst snd] in He', Hm'.
  assert (HM' : 0 < Zpos M') by lia.
  assert (Hval : (IZR (Zpos M') * bpow E' = IZR (Zpos M) * bpow E)%R).
  { rewrite Hm', mult_IZR, <- (bpow_IZR (E - Z.min E (d + E - 53))) by lia.
    rewrite He', Rmult_assoc, <- bpow_add. f_equal. f_equal. lia. }
  destruct (Z.le_gt_cases d 53) as [Hsmall | Hbig].
  - (* a short mantissa: shifted left to exactly 53 bits *)
    rewrite Z.min_r in He', Hm' by lia.
    replace (E - (d + E - 53)) with (53 - d) in Hm' by lia.
    assert (Hd' : Zdigits2 (Zpos M') = 53).
    { apply Zdigits2_unique; [lia |]. rewrite Hm'.
      replace (2 ^ (53 - 1)) with (2 ^ (d - 1) * 2 ^ (53 - d))
        by (rewrite <- Z.pow_add_r by lia; f_equal; lia).
      replace (2 ^ 53) with (2 ^ d * 2 ^ (53 - d))
        by (rewrite <- Z.pow_add_r by lia; f_equal; lia).
      assert (0 < 2 ^ (53 - d)) by (apply Z.pow_pos_nonneg; lia). nia. }
    destruct (binary_round_aux_R (Zpos M') E' loc_Exact (IZR (Zpos M') * bpow E'))
      as (m & e & Hr & Hm & He & Habs & Hulp & Hex & Hk1 & Hk2);
      rewrite ?Hd'; try lia; trivial.
    { split; [lra |]. apply Rmult_lt_compat_r; [apply bpow_pos | apply IZR_lt; lia]. }
    { intros H; now elim H. }
    rewrite Hd' in *. change (53 - 53) with 0 in *. rewrite Z.add_0_r in *.
    rewrite Hval in *.
    replace (E + (d - 53)) with E' by lia.
    exists m, e. repeat split; trivial; try lia.
    + intros _. apply Hex; trivial. apply Z.mod_1_r.
  - (* a long mantissa: rounded as it is *)
    rewrite Z.min_l in He', Hm' by lia.
    rewrite Z.sub_diag, Z.mul_1_r in Hm'.
    assert (M' = M) by congruence. subst M' E'.
    destruct (binary_round_aux_R (Zpos M) E loc_Exact (IZR (Zpos M) * bpow E))
      as (m & e & Hr & Hm & He & Habs & Hulp & Hex & Hk1 & Hk2);
      fold d; try lia; trivial.
    { split; [lra |]. apply Rmult_lt_compat_r; [apply bpow_pos | apply IZR_lt; lia]. }
    { intros H; now elim H. }
    fold d in He, Habs, Hulp, Hex.
    exists m, e. repeat split; trivial; try lia.
    intros [H | H]; [lia |]. apply Hex; trivial.
Qed.

(** *** The operations on positive normal doubles *)

(** [x] is a positive normal double with an exponent field in [[lo, hi]]. *)
Definition finite_pos (x : double) (lo hi : Z) : Prop :=
  exists m e, x = S754_finite false m e /\ 2 ^ 52 <= Zpos m < 2 ^ 53 /\ lo <= e <= hi.

(** [x] is the rounding of the positive real [t]: a positive normal double
    within [t / 2^52] of [t], on the same side of every integer up to 2^53. *)
Definition rounds (t : R) (x : double) (lo hi : Z) : Prop :=
  finite_pos x lo hi /\
  (Rabs (B64.B2R x - t) * IZR (2 ^ 52) <= t)%R /\
  (forall k, 0 <= k <= 2 ^ 53 -> (IZR k <= t -> IZR k <= B64.B2R x)%R) /\
  (forall k, 0 <= k <= 2 ^ 53 -> (t <= IZR k -> B64.B2R x <= IZR k)%R).

Lemma finite_pos_weaken (x : double) (lo hi lo' hi' : Z) :
  finite_pos x lo hi -> lo' <= lo -> hi <= hi' -> finite_pos x lo' hi'.
Proof.
  intros (m & e & Hx & Hm & He) H1 H2. exists m, e. repeat split; trivial; lia.
Qed.

Lemma finite_pos_B2R (x : double) (lo hi : Z) :
  finite_pos x lo hi ->
  (IZR (2 ^ 52) * bpow lo <= B64.B2R x < IZR (2 ^ 53) * bpow hi)%R.
Proof.
  intros (m & e & Hx & Hm & He). subst x. cbn [B64.B2R cond_Zopp].
  pose proof (bpow_pos lo). pose proof (bpow_pos hi). pose proof (bpow_pos e).
  pose proof (bpow_le lo e ltac:(lia)). pose proof (bpow_le e hi ltac:(lia)).
  assert (IZR (2 ^ 52) <= IZR (Zpos m))%R by (apply IZR_le; lia).
  assert (IZR (Zpos m) < IZR (2 ^ 53))%R by (apply IZR_lt; lia).
  assert (0 < IZR (2 ^ 52))%R by (apply IZR_lt; lia).
  split; nra.
Qed.

Lemma rounds_of_round (M : positive) (E lo hi : Z) (x : double) (t : R) :
  (t = IZR (Zpos M) * bpow E)%R ->
  -1074 <= E + (Zdigits2 (Zpos M) - 53) ->
  E + (Zdigits2 (Zpos M) - 53) + 1 <= 971 ->
  lo <= E + (Zdigits2 (Zpos M) - 53) -> E + (Zdigits2 (Zpos M) - 53) + 1 <= hi ->
  x = binary_round 53 1024 false M E ->
  rounds t x lo hi.
Proof.
  intros Ht Hlo Hhi Hlo' Hhi' Hx.
  destruct (binary_round_R M E Hlo Hhi)
    as (m & e & Hr & Hm & He & Habs & Hulp & Hex & Hk1 & Hk2).
  rewrite <- Ht in *. subst x. rewrite Hr.
  split; [exists m, e; repeat split; trivial; lia |].
  cbn [B64.B2R cond_Zopp].
  split; [| split; assumption].
  pose proof (Rabs_pos (IZR (Z.pos m) * bpow e - t)).
  assert (0 < IZR (2 ^ 52))%R by (apply IZR_lt; lia).
  nra.
Qed.

Lemma rounds_of_aux (M E lo hi : Z) (l : location) (x : double) (t : R) :
  0 < M -> 53 <= Zdigits2 M ->
  (IZR M * bpow E <= t < IZR (M + 1) * bpow E)%R ->
  (l = loc_Exact -> (t = IZR M * bpow E)%R) ->
  (l <> loc_Exact -> (IZR M * bpow E < t)%R) ->
  -1074 <= E + (Zdigits2 M - 53) -> E + (Zdigits2 M - 53) + 1 <= 971 ->
  lo <= E + (Zdigits2 M - 53) -> E + (Zdigits2 M - 53) + 1 <= hi ->
  x = binary_round_aux 53 1024 false M E l ->
  rounds t x lo hi.
Proof.
  intros HM Hd Ht Hex Hin Hlo Hhi Hlo' Hhi' Hx.
  destruct (binary_round_aux_R M E l t HM Hd Hlo Hhi Ht Hex Hin)
    as (m & e & Hr & Hm & He & Habs & Hulp & _ & Hk1 & Hk2).
  subst x. rewrite Hr.
  split; [exists m, e; repeat split; trivial; lia |].
  cbn [B64.B2R cond_Zopp].
  split; [| split; assumption].
  pose proof (Rabs_pos (IZR (Z.pos m) * bpow e - t)).
  assert (0 < IZR (2 ^ 52))%R by (apply IZR_lt; lia).
  nra.
Qed.

Lemma binary_round_short (M : positive) (E : Z) :
  Zdigits2 (Zpos M) <= 53 ->
  -1074 <= E + (Zdigits2 (Zpos M) - 53) -> E + (Zdigits2 (Zpos M) - 53) + 1 <= 971 ->
  binary_round 53 1024 false M E =
  S754_finite false (Z.to_pos (Zpos M * 2 ^ (53 - Zdigits2 (Zpos M))))
                    (E + (Zdigits2 (Zpos M) - 53)).
Proof.
  intros Hsmall Hlo Hhi. unfold binary_round.
  set (d := Zdigits2 (Zpos M)) in *.
  assert (Hd : 0 < d) by (apply Zdigits2_pos; lia).
  pose proof (Zdigits2_bounds (Zpos M) ltac:(lia)) as Hb. fold d in Hb.
  change (Zpos (digits2_pos M)) with d.
  unfold fexp, emin. rewrite Z.max_l by lia.
  destruct (shl_align_spec M E (d + E - 53)) as [He' Hm'].
  destruct (shl_align M E (d + E - 53)) as [M' E'] eqn:Hal.
  cbn [fst snd] in He', Hm'.
  rewrite Z.min_r in He', Hm' by lia.
  replace (E - (d + E - 53)) with (53 - d) in Hm' by lia.
  assert (Hd' : Zdigits2 (Zpos M') = 53).
  { apply Zdigits2_unique; [lia |]. rewrite Hm'.
    replace (2 ^ (53 - 1)) with (2 ^ (d - 1) * 2 ^ (53 - d))
      by (rewrite <- Z.pow_add_r by lia; f_equal; lia).
    replace (2 ^ 53) with (2 ^ d * 2 ^ (53 - d))
      by (rewrite <- Z.pow_add_r by lia; f_equal; lia).
    assert (0 < 2 ^ (53 - d)) by (apply Z.pow_pos_nonneg; lia). nia. }
  rewrite binary_round_aux_exact; rewrite ?Hd'; try lia.
  - change (2 ^ (53 - 53)) with 1. rewrite Z.div_1_r, <- Hm', He'.
    f_equal. lia.
  - apply Z.mod_1_r.
Qed.

Lemma of_uint_small (n : Z) :
  0 < n < 2 ^ 53 ->
  B64.of_uint n =
  S754_finite false (Z.to_pos (n * 2 ^ (53 - Zdigits2 n))) (Zdigits2 n - 53) /\
  1 <= Zdigits2 n <= 53.
Proof.
  intros Hn. destruct n as [| p | p]; try lia.
  assert (Hd : Zdigits2 (Zpos p) <= 53) by (apply Zdigits2_le; lia).
  pose proof (Zdigits2_pos (Zpos p) ltac:(lia)).
  split; [| lia].
  unfold B64.of_uint, binary_normalize.
  rewrite binary_round_short by lia. reflexivity.
Qed.

Lemma of_uint_exact (n : Z) :
  0 < n < 2 ^ 53 ->
  finite_pos (B64.of_uint n) (-52) 0 /\ B64.B2R (B64.of_uint n) = IZR n.
Proof.
  intros Hn. destruct (of_uint_small n Hn) as [Heq Hd]. rewrite Heq.
  pose proof (Zdigits2_bounds n ltac:(lia)) as Hb.
  set (d := Zdigits2 n) in *.
  assert (Hp : 0 < 2 ^ (53 - d)) by (apply Z.pow_pos_nonneg; lia).
  assert (Hm : 2 ^ 52 <= n * 2 ^ (53 - d) < 2 ^ 53).
  { replace (2 ^ 52) with (2 ^ (d - 1) * 2 ^ (53 - d))
      by (rewrite <- Z.pow_add_r by lia; f_equal; lia).
    replace (2 ^ 53) with (2 ^ d * 2 ^ (53 - d))
      by (rewrite <- Z.pow_add_r by lia; f_equal; lia).
    nia. }
  split.
  - eexists _, _. split; [reflexivity |]. rewrite Z2Pos.id by lia. lia.
  - cbn [B64.B2R cond_Zopp]. rewrite Z2Pos.id by lia.
    rewrite mult_IZR, <- (bpow_IZR (53 - d)), Rmult_assoc, <- bpow_add by lia.
    replace (53 - d + (d - 53)) with 0 by lia. rewrite bpow_0. ring.
Qed.

Lemma pow_half_eq (k : Z) :
  0 <= k <= 1000 ->
  B64.pow_half k = S754_finite false (2 ^ 52) (- 52 - k).
Proof.
  intros Hk. unfold B64.pow_half, binary_normalize.
  rewrite binary_round_short; cbn [Zdigits2 digits2_pos]; try lia.
  f_equal. lia.
Qed.

Lemma mul_rounds (x y : double) (a b c d : Z) :
  finite_pos x a b -> finite_pos y c d ->
  -1074 <= a + c + 52 -> b + d + 54 <= 971 ->
  rounds (B64.B2R x * B64.B2R y) (B64.mul x y) (a + c + 52) (b + d + 54).
Proof.
  intros (mx & ex & Hx & Hmx & Hex) (my & ey & Hy & Hmy & Hey) Hlo Hhi.
  subst x y. cbn [B64.B2R cond_Zopp]. unfold B64.mul, SFmul. cbn [xorb].
  assert (HM : 2 ^ 104 <= Zpos (mx * my) < 2 ^ 106).
  { rewrite Pos2Z.inj_mul. change (2 ^ 104) with (2 ^ 52 * 2 ^ 52).
    change (2 ^ 106) with (2 ^ 53 * 2 ^ 53). nia. }
  assert (Hd1 : 104 < Zdigits2 (Zpos (mx * my))) by (apply Zdigits2_gt; lia).
  assert (Hd2 : Zdigits2 (Zpos (mx * my)) <= 106) by (apply Zdigits2_le; lia).
  assert (Ht : (IZR (Z.pos mx) * bpow ex * (IZR (Z.pos my) * bpow ey)
                = IZR (Zpos (mx * my)) * bpow (ex + ey))%R).
  { rewrite Pos2Z.inj_mul, mult_IZR, bpow_add. ring. }
  rewrite Ht.
  eapply rounds_of_aux with (l := loc_Exact); try reflexivity; try lia.
  - split; [lra |].
    apply Rmult_lt_compat_r; [apply bpow_pos | apply IZR_lt; lia].
  - intros H; now elim H.
Qed.

Lemma add_rounds (x y : double) (a b c d : Z) :
  finite_pos x a b -> finite_pos y c d ->
  -1074 <= Z.min a c -> Z.max b d + 2 <= 971 ->
  rounds (B64.B2R x + B64.B2R y) (B64.add x y) (Z.min a c) (Z.max b d + 2).
Proof.
  intros (mx & ex & Hx & Hmx & Hex) (my & ey & Hy & Hmy & Hey) Hlo Hhi.
  subst x y. cbn [B64.B2R cond_Zopp]. unfold B64.add, SFadd. cbn [cond_Zopp].
  set (ez := Z.min ex ey).
  destruct (shl_align_spec mx ex ez) as [_ H1].
  destruct (shl_align_spec my ey ez) as [_ H2].
  replace (Z.min ex ez) with ez in H1 by (unfold ez; lia).
  replace (Z.min ey ez) with ez in H2 by (unfold ez; lia).
  set (ax := fst (shl_align mx ex ez)) in *.
  set (ay := fst (shl_align my ey ez)) in *.
  change (Zpos ax + Zpos ay) with (Zpos (ax + ay)).
  cbn [binary_normalize].
  assert (Hpx : 1 <= 2 ^ (ex - ez)).
  { pose proof (Z.pow_pos_nonneg 2 (ex - ez)). unfold ez in *. lia. }
  assert (Hpy : 1 <= 2 ^ (ey - ez)).
  { pose proof (Z.pow_pos_nonneg 2 (ey - ez)). unfold ez in *. lia. }
  set (D := Z.max ex ey - ez).
  assert (HD : 0 <= D) by (unfold D, ez; lia).
  assert (Hqx : 2 ^ (ex - ez) <= 2 ^ D) by (apply Z.pow_le_mono_r; unfold D; lia).
  assert (Hqy : 2 ^ (ey - ez) <= 2 ^ D) by (apply Z.pow_le_mono_r; unfold D; lia).
  assert (HM : 2 ^ 52 <= Zpos (ax + ay) < 2 ^ (54 + D)).
  { rewrite Pos2Z.inj_add, H1, H2. split; [nia |].
    rewrite Z.pow_add_r by lia. change (2 ^ 54) with (2 * 2 ^ 53). nia. }
  assert (Hd1 : 52 < Zdigits2 (Zpos (ax + ay))) by (apply Zdigits2_gt; lia).
  assert (Hd2 : Zdigits2 (Zpos (ax + ay)) <= 54 + D) by (apply Zdigits2_le; lia).
  eapply rounds_of_round with (M := (ax + ay)%positive) (E := ez);
    try reflexivity; unfold D, ez in *; try lia.
  rewrite Pos2Z.inj_add, plus_IZR, H1, H2, !mult_IZR.
  rewrite <- (bpow_IZR (ex - Z.min ex ey)), <- (bpow_IZR (ey - Z.min ex ey)) by lia.
  rewrite Rmult_plus_distr_r, !Rmult_assoc, <- !bpow_add.
  replace (ex - Z.min ex ey + Z.min ex ey) with ex by lia.
  replace (ey - Z.min ex ey + Z.min ex ey) with ey by lia.
  reflexivity.
Qed.

Lemma new_location_exact (nb k : Z) :
  new_location nb k = loc_Exact <-> k = 0.
Proof.
  unfold new_location, new_location_even, new_location_odd.
  destruct (Z.even nb); destruct (Z.eqb_spec k 0); split; intros H;
    congruence.
Qed.

Lemma div_rounds (x y : double) (a b c d : Z) :
  finite_pos x a b -> finite_pos y c d ->
  -1074 <= a - d - 53 -> b - c - 51 <= 971 ->
  rounds (B64.B2R x / B64.B2R y) (B64.div x y) (a - d - 53) (b - c - 51).
Proof.
  intros (mx & ex & Hx & Hmx & Hex) (my & ey & Hy & Hmy & Hey) Hlo Hhi.
  subst x y. cbn [B64.B2R cond_Zopp]. unfold B64.div, SFdiv.
  unfold SFdiv_core_binary.
  assert (Hdx : Zdigits2 (Zpos mx) = 53) by (apply Zdigits2_unique; lia).
  assert (Hdy : Zdigits2 (Zpos my) = 53) by (apply Zdigits2_unique; lia).
  rewrite Hdx, Hdy. unfold fexp, emin.
  replace (Z.min (Z.max (53 + ex - (53 + ey) - 53) (3 - 1024 - 53)) (ex - ey))
    with (ex - ey - 53) by lia.
  replace (ex - ey - (ex - ey - 53)) with 53 by lia.
  rewrite Z.shiftl_mul_pow2 by lia.
  set (e' := ex - ey - 53).
  pose proof (Z.div_eucl_eq (Zpos mx * 2 ^ 53) (Zpos my) ltac:(lia)) as Heq.
  pose proof (Z.mod_pos_bound (Zpos mx * 2 ^ 53) (Zpos my) ltac:(lia)) as Hmod.
  unfold Z.modulo in Hmod.
  destruct (Z.div_eucl (Zpos mx * 2 ^ 53) (Zpos my)) as [q r].
  cbn [xorb].
  assert (Hq : 2 ^ 52 <= q < 2 ^ 54).
  { change (2 ^ 54) with (2 * 2 ^ 53). split; nia. }
  assert (Hd1 : 52 < Zdigits2 q) by (apply Zdigits2_gt; lia).
  assert (Hd2 : Zdigits2 q <= 54) by (apply Zdigits2_le; lia).
  pose proof (bpow_pos ex) as Hbx. pose proof (bpow_pos ey) as Hby.
  pose proof (bpow_pos e') as Hbe.
  assert (Hmy' : (0 < IZR (Zpos my))%R) by (apply IZR_lt; lia).
  set (t := (IZR (Z.pos mx) * bpow ex / (IZR (Z.pos my) * bpow ey))%R).
  assert (Ht : (t * IZR (Zpos my) = (IZR q * IZR (Zpos my) + IZR r) * bpow e')%R).
  { rewrite <- mult_IZR, <- plus_IZR, Z.mul_comm, <- Heq, mult_IZR.
    rewrite <- (bpow_IZR 53) by lia. unfold t.
    replace ex with (53 + e' + ey) at 1 by (unfold e'; lia).
    rewrite !bpow_add. field. split; lra. }
  assert (Hr : (0 <= IZR r < IZR (Zpos my))%R)
    by (split; [apply IZR_le | apply IZR_lt]; lia).
  eapply rounds_of_aux with (l := new_location (Zpos my) r) (M := q) (E := e');
    try reflexivity; unfold e' in *; try lia.
  - rewrite plus_IZR. split; nra.
  - rewrite new_location_exact. intros H0. subst r. nra.
  - rewrite new_location_exact. intros H0.
    assert (0 < r) by lia. assert (0 < IZR r)%R by (apply IZR_lt; lia). nra.
Qed.

Lemma to_u64_floor (x : double) (lo hi z : Z) :
  finite_pos x lo hi ->
  (IZR z <= B64.B2R x < IZR z + 1)%R -> z < 2 ^ 64 ->
  B64.to_u64 x = Some z.
Proof.
  intros (m & e & Hx & Hm & He) Hz Hlt. subst x.
  cbn [B64.B2R cond_Zopp] in Hz. unfold B64.to_u64.
  assert (Hv : Z.shiftl (Zpos m) e = z).
  { destruct (Z.le_gt_cases 0 e) as [Hpos | Hneg].
    - rewrite Z.shiftl_mul_pow2 by lia.
      rewrite (bpow_IZR e), <- mult_IZR in Hz by lia.
      rewrite <- plus_IZR in Hz. destruct Hz as [H1 H2].
      apply le_IZR in H1. apply lt_IZR in H2. lia.
    - rewrite Z.shiftl_div_pow2 by lia.
      pose proof (bpow_opp_cancel e) as Hinv.
      rewrite (bpow_IZR (- e)) in Hinv by lia.
      set (j := 2 ^ (- e)) in *.
      assert (Hj : 0 < j) by (apply Z.pow_pos_nonneg; lia).
      assert (HjR : (0 < IZR j)%R) by (apply IZR_lt; lia).
      pose proof (bpow_pos e) as Hbe.
      assert (Hmj : (IZR (Zpos m) = IZR (Zpos m) * bpow e * IZR j)%R)
        by (rewrite Rmult_assoc, Hinv; ring).
      assert (H1 : (IZR (z * j) <= IZR (Zpos m))%R).
      { rewrite mult_IZR, Hmj. apply Rmult_le_compat_r; lra. }
      assert (H2 : (IZR (Zpos m) < IZR ((z + 1) * j))%R).
      { rewrite mult_IZR, plus_IZR, Hmj. apply Rmult_lt_compat_r; lra. }
      apply le_IZR in H1. apply lt_IZR in H2.
      symmetry. apply Z.div_unique with (Zpos m - z * j); lia. }
  rewrite Hv. destruct (Z.ltb_spec z (2 ^ 64)); [reflexivity | lia].
Qed.

(** ** Outcomes

    The accounting functions leave through [exit(EXIT_FAILURE)] on a failed
    read, abort on a failed [assert], and have no defined result when a
    [double] that does not fit is converted to [uint64_t] or when an
    integer is divided by zero. *)

Inductive outcome (A : Type) : Type :=
| Done (a : A)
| Exit_failure
| Assert_failure
| Undefined.

Arguments Done {A} a.
Arguments Exit_failure {A}.
Arguments Assert_failure {A}.
Arguments Undefined {A}.

Definition bind {A B : Type} (o : outcome A) (f : A -> outcome B) : outcome B :=
  match o with
  | Done a => f a
  | Exit_failure => Exit_failure
  | Assert_failure => Assert_failure
  | Undefined => Undefined
  end.

Notation "x <- o ;; k" := (bind o (fun x => k))
  (at level 61, o at next level, right associativity).
Notation "' p <- o ;; k" := (bind o (fun p => k))
  (at level 61, p pattern, o at next level, right associativity).

(** [assert(b)] *)
Definition assert (b : bool) : outcome unit :=
  if b then Done tt else Assert_failure.

(** The conversion on assignment of a [double] to a [uint64_t] field. *)
Definition to_uint64_t (x : double) : outcome Z :=
  match B64.to_u64 x with
  | Some z => Done z
  | None => Undefined
  end.

(** ** interface.h *)

Definition N_SIBLINGS_MAX : Z := 16.

Inductive interface : Set :=
  AMD_GPUS | INTEL_GPUS | NVIDIA_GPUS | CPUS | DRAMS | MOCKS.

Definition INTERFACES_MAX : Z := 6.

Inductive vendor : Set := AMD | INTEL | NVIDIA | VENDOR_UNKNOWN.

Inductive type : Set := CPU | GPU | DRAM | MOCK | TYPE_UNKNOWN.

(** [struct Unit]. [energy_fd] holds what the destination file shows: the
    Joule total of the last [fprintf] ([None] while nothing was written).
    [peer] is the index, among the siblings, of the unit [peer] points to.
    The [serial] string, read only while devices are discovered, is left
    out. *)
Record Unit : Type := mkUnit {
  timestamp : Z;
  bus_id : Z;
  energy_resolution : double;
  energy_raw : Z;
  energy_acc : Z;
  energy_interval : Z;
  energy_fd : option Z;
  id : Z;
  model : Z;
  busy_percent : Z;
  fixed_watts : Z;
  peer : option nat
}.

(** A unit after [memset(.., 0, ..)]. *)
Definition Unit_zero : Unit :=
  mkUnit 0 0 (S754_zero false) 0 0 0 None 0 0 0 0 None.

Definition set_timestamp (v : Z) (u : Unit) : Unit :=
  mkUnit v (bus_id u) (energy_resolution u) (energy_raw u) (energy_acc u)
         (energy_interval u) (energy_fd u) (id u) (model u) (busy_percent u)
         (fixed_watts u) (peer u).

Definition set_energy_resolution (v : double) (u : Unit) : Unit :=
  mkUnit (timestamp u) (bus_id u) v (energy_raw u) (energy_acc u)
         (energy_interval u) (energy_fd u) (id u) (model u) (busy_percent u)
         (fixed_watts u) (peer u).

Definition set_energy_raw (v : Z) (u : Unit) : Unit :=
  mkUnit (timestamp u) (bus_id u) (energy_resolution u) v (energy_acc u)
         (energy_interval u) (energy_fd u) (id u) (model u) (busy_percent u)
         (fixed_watts u) (peer u).

Definition set_energy_acc (v : Z) (u : Unit) : Unit :=
  mkUnit (timestamp u) (bus_id u) (energy_resolution u) (energy_raw u) v
         (energy_interval u) (energy_fd u) (id u) (model u) (busy_percent u)
         (fixed_watts u) (peer u).

Definition set_energy_interval (v : Z) (u : Unit) : Unit :=
  mkUnit (timestamp u) (bus_id u) (energy_resolution u) (energy_raw u)
         (energy_acc u) v (energy_fd u) (id u) (model u) (busy_percent u)
         (fixed_watts u) (peer u).

Definition set_energy_fd (v : option Z) (u : Unit) : Unit :=
  mkUnit (timestamp u) (bus_id u) (energy_resolution u) (energy_raw u)
         (energy_acc u) (energy_interval u) v (id u) (model u) (busy_percent u)
         (fixed_watts u) (peer u).

Definition set_id (v : Z) (u : Unit) : Unit :=
  mkUnit (timestamp u) (bus_id u) (energy_resolution u) (energy_raw u)
         (energy_acc u) (energy_interval u) (energy_fd u) v (model u)
         (busy_percent u) (fixed_watts u) (peer u).

Definition set_model (v : Z) (u : Unit) : Unit :=
  mkUnit (timestamp u) (bus_id u) (energy_resolution u) (energy_raw u)
         (energy_acc u) (energy_interval u) (energy_fd u) (id u) v
         (busy_percent u) (fixed_watts u) (peer u).

Definition set_busy_percent (v : Z) (u : Unit) : Unit :=
  mkUnit (timestamp u) (bus_id u) (energy_resolution u) (energy_raw u)
         (energy_acc u) (energy_interval u) (energy_fd u) (id u) (model u) v
         (fixed_watts u) (peer u).

Definition set_fixed_watts (v : Z) (u : Unit) : Unit :=
  mkUnit (timestamp u) (bus_id u) (energy_resolution u) (energy_raw u)
         (energy_acc u) (energy_interval u) (energy_fd u) (id u) (model u)
         (busy_percent u) v (peer u).

Definition set_peer (v : option nat) (u : Unit) : Unit :=
  mkUnit (timestamp u) (bus_id u) (energy_resolution u) (energy_raw u)
         (energy_acc u) (energy_interval u) (energy_fd u) (id u) (model u)
         (busy_percent u) (fixed_watts u) v.

(** [energy_acc += energy_interval], on [uint64_t]. *)
Definition accumulate (u : Unit) : Unit :=
  set_energy_acc (u64 (energy_acc u + energy_interval u)) u.

(** [fprintf(energy_fd, "%lu Joules", energy_acc); rewind(energy_fd);] *)
Definition write_file (u : Unit) : Unit :=
  set_energy_fd (Some (energy_acc u)) u.

(** [struct Component]: the siblings array with the number of units in
    use. The two function pointers are left out. *)
Record Component : Type := mkComponent {
  siblings : list Unit;
  c_type : type;
  c_vendor : vendor;
  n_siblings : Z;
  is_verbose : bool
}.

(** ** common.h: the model-specific registers *)

Definition MSR_ENERGY_UNIT_MASK : Z := 0x1f.
Definition MSR_AMD_POWER_UNIT : Z := 0xc0010299.
Definition MSR_INTEL_POWER_UNIT : Z := 0x606.

(** What the MSR device files hold at one moment: [hw smt_id type] is the
    64-bit content of register [type] of hardware thread [smt_id], [None]
    when the file cannot be opened or read. *)
Definition msr_device : Type := Z -> Z -> option Z.

Definition read_msr (hw : msr_device) (smt_id type : Z) : outcome Z :=
  match hw smt_id type with
  | Some data => Done (u64 data)
  | None => Exit_failure
  end.

(** The update functions of cpu.c and dram.c return, with the unit, the
    registers they read, in order. *)
Definition is_power_unit (reg : Z) : bool :=
  (reg =? MSR_INTEL_POWER_UNIT) || (reg =? MSR_AMD_POWER_UNIT).

Definition power_unit_reads (log : list Z) : nat :=
  length (filter is_power_unit log).

(** ** cpu.c (with [CPU_PACKAGE] defined) *)

Definition MSR_AMD_PACKAGE_ENERGY : Z := 0xc001029b.
Definition MSR_INTEL_PACKAGE_ENERGY : Z := 0x611.

Section Cpu.

(** The static array filled by [cpu_init]. *)
Variable _cpu_package_to_core : Z -> Z.

Definition _cpu_package_fetch_energy (hw : msr_device) (package : Unit)
    (v : vendor) : outcome (Unit * list Z) :=
  let core_id := _cpu_package_to_core (id package) in
  reg <- match v with
         | INTEL => Done MSR_INTEL_PACKAGE_ENERGY
         | AMD => Done MSR_AMD_PACKAGE_ENERGY
         | _ => Exit_failure
         end ;;
  raw <- read_msr hw core_id reg ;;
  let package := set_energy_raw raw package in
  (* Return if resolution was already fetched *)
  if B64.gt (energy_resolution package) B64.zero then Done (package, [reg])
  else
    match v with
    | INTEL =>
        msr_unit <- read_msr hw core_id MSR_INTEL_POWER_UNIT ;;
        Done (set_energy_resolution
                (B64.pow_half (Z.land (Z.shiftr msr_unit 8) MSR_ENERGY_UNIT_MASK))
                package,
              [reg; MSR_INTEL_POWER_UNIT])
    | AMD =>
        msr_unit <- read_msr hw core_id MSR_AMD_POWER_UNIT ;;
        Done (set_energy_resolution
                (B64.pow_half (Z.land (Z.shiftr msr_unit 8) MSR_ENERGY_UNIT_MASK))
                package,
              [reg; MSR_AMD_POWER_UNIT])
    | _ => Done (package, [reg])
    end.

(** The raw-count difference since [last_energy_raw], on [uint64_t]:
    [raw - last] when the counter did not go back, and
    [((1LU << 32) - last) + raw] when it did. *)
Definition raw_delta (last_energy_raw raw : Z) : Z :=
  if raw >=? last_energy_raw
  then u64 (raw - last_energy_raw)
  else u64 (u64 (2 ^ 32 - last_energy_raw) + raw).

Definition _cpu_package_update_files (hw : msr_device) (package : Unit)
    (v : vendor) : outcome (Unit * list Z) :=
  let last_energy_raw := energy_raw package in
  '(package, reads) <- _cpu_package_fetch_energy hw package v ;;
  interval <- to_uint64_t
                (B64.mul (energy_resolution package)
                         (B64.of_uint (raw_delta last_energy_raw (energy_raw package)))) ;;
  let package := set_energy_interval interval package in
  let package := accumulate package in
  Done (write_file package, reads).

(** One package of [cpu_init]: the unit is zeroed, numbered, its first raw
    value fetched and its file opened. *)
Definition cpu_init_package (hw : msr_device) (i : Z) (v : vendor)
    (opened : bool) : outcome (Unit * list Z) :=
  '(package, reads) <- _cpu_package_fetch_energy hw (set_id i Unit_zero) v ;;
  if opened then Done (package, reads) else Exit_failure.

(** The sampling cycles of one package, one snapshot of the registers per
    cycle, with the registers read so far. *)
Fixpoint cpu_cycles (hws : list msr_device) (v : vendor) (package : Unit)
    (log : list Z) : outcome (Unit * list Z) :=
  match hws with
  | [] => Done (package, log)
  | hw :: rest =>
      '(package, reads) <- _cpu_package_update_files hw package v ;;
      cpu_cycles rest v package (log ++ reads)
  end.

Definition cpu_lifetime (hw0 : msr_device) (hws : list msr_device) (i : Z)
    (v : vendor) : outcome (Unit * list Z) :=
  '(package, reads) <- cpu_init_package hw0 i v true ;;
  cpu_cycles hws v package reads.

End Cpu.

(** ** dram.c (with [DRAM_PACKAGE] defined) *)

Definition MSR_INTEL_DRAM_PACKAGE_ENERGY : Z := 0x619.

Section Dram.

Variable _dram_package_to_core : Z -> Z.

Definition _dram_package_fetch_energy (hw : msr_device) (package : Unit)
    (v : vendor) : outcome (Unit * list Z) :=
  let core_id := _dram_package_to_core (id package) in
  reg <- match v with
         | INTEL => Done MSR_INTEL_DRAM_PACKAGE_ENERGY
         | _ => Exit_failure
         end ;;
  raw <- read_msr hw core_id reg ;;
  let package := set_energy_raw raw package in
  (* Return if resolution was already fetched *)
  if B64.gt (energy_resolution package) B64.zero then Done (package, [reg])
  else
    match v with
    | INTEL =>
        msr_unit <- read_msr hw core_id MSR_INTEL_POWER_UNIT ;;
        Done (set_energy_resolution
                (B64.pow_half (Z.land (Z.shiftr msr_unit 8) MSR_ENERGY_UNIT_MASK))
                package,
              [reg; MSR_INTEL_POWER_UNIT])
    | AMD =>
        msr_unit <- read_msr hw core_id MSR_AMD_POWER_UNIT ;;
        Done (set_energy_resolution
                (B64.pow_half (Z.land (Z.shiftr msr_unit 8) MSR_ENERGY_UNIT_MASK))
                package,
              [reg; MSR_AMD_POWER_UNIT])
    | _ => Done (package, [reg])
    end.

Definition _dram_package_update_files (hw : msr_device) (package : Unit)
    (v : vendor) : outcome (Unit * list Z) :=
  let last_energy_raw := energy_raw package in
  '(package, reads) <- _dram_package_fetch_energy hw package v ;;
  interval <- to_uint64_t
                (B64.mul (energy_resolution package)
                         (B64.of_uint (raw_delta last_energy_raw (energy_raw package)))) ;;
  let package := set_energy_interval interval package in
  let package := accumulate package in
  Done (write_file package, reads).

Definition dram_init_package (hw : msr_device) (i : Z) (v : vendor)
    (opened : bool) : outcome (Unit * list Z) :=
  '(package, reads) <- _dram_package_fetch_energy hw (set_id i Unit_zero) v ;;
  if opened then Done (package, reads) else Exit_failure.

Fixpoint dram_cycles (hws : list msr_device) (v : vendor) (package : Unit)
    (log : list Z) : outcome (Unit * list Z) :=
  match hws with
  | [] => Done (package, log)
  | hw :: rest =>
      '(package, reads) <- _dram_package_update_files hw package v ;;
      dram_cycles rest v package (log ++ reads)
  end.

Definition dram_lifetime (hw0 : msr_device) (hws : list msr_device) (i : Z)
    (v : vendor) : outcome (Unit * list Z) :=
  '(package, reads) <- dram_init_package hw0 i v true ;;
  dram_cycles hws v package reads.

End Dram.

(** ** amd_gpu.c (with [AMD_GPU] defined) *)

Definition AMD_MODEL_UNKNOWN : Z := 0.
Definition MI250 : Z := 2828.

(** What ROCm SMI answers during one cycle. The energy resolution is a
    [float]; the sources widen it to [double], which changes nothing, so the
    model takes the widened value. *)
Record energy_count : Type := mkEnergyCount {
  ec_success : bool;
  ec_power : Z;
  ec_counter_resolution : double;
  ec_timestamp : Z
}.

Record busy_result : Type := mkBusy {
  bp_success : bool;
  bp_percent : Z
}.

Record rocm_smi : Type := mkSmi {
  rsmi_dev_energy_count_get : Z -> energy_count;
  rsmi_dev_busy_percent_get : Z -> busy_result
}.

Definition _amd_device_fetch_energy (smi : rocm_smi) (dev : Unit) : outcome Unit :=
  let last_energy_raw := energy_raw dev in
  let r := rsmi_dev_energy_count_get smi (id dev) in
  if negb (ec_success r) then Exit_failure
  else
    let dev := set_timestamp (u64 (ec_timestamp r))
                 (set_energy_raw (u64 (ec_power r)) dev) in
    _ <- assert (energy_raw dev >=? last_energy_raw) ;;
    let dev := set_energy_resolution (ec_counter_resolution r) dev in
    (* Don't compute energy consumption during first iteration *)
    if last_energy_raw =? 0 then Done dev
    else
      interval <- to_uint64_t
                    (B64.div (B64.mul (energy_resolution dev)
                                      (B64.of_uint (u64 (energy_raw dev - last_energy_raw))))
                             B64.c_1E6) ;;
      Done (accumulate (set_energy_interval interval dev)).

Definition _amd_device_fetch_activity (smi : rocm_smi) (dev : Unit) : outcome Unit :=
  let r := rsmi_dev_busy_percent_get smi (id dev) in
  if negb (bp_success r) then Exit_failure
  else Done (set_busy_percent (u32 (bp_percent r)) dev).

(** The locals of [_amd_device_fetch_energy_mi250]. *)
Definition gcd_idle_power : Z := 40.

Definition mi250_energy (resolution : double) (last_energy_raw raw : Z) : outcome Z :=
  to_uint64_t (B64.div (B64.mul resolution (B64.of_uint (u64 (raw - last_energy_raw))))
                       B64.c_1E6).

Definition mi250_elapsed_s (last_timestamp now : Z) : outcome Z :=
  to_uint64_t (B64.div (B64.of_uint (u64 (now - last_timestamp))) B64.c_1E9).

Definition mi250_energy_idle (elapsed_s : Z) : Z := u64 (gcd_idle_power * elapsed_s).

Definition mi250_energy_min_idle (energy energy_idle : Z) : Z :=
  if energy >? u64 (2 * energy_idle)
  then u64 (energy - u64 (2 * energy_idle))
  else 0.

Definition mi250_energy_ratio (busy busy_peer : Z) : double :=
  B64.add (B64.sub (B64.mul B64.c_0_005 (B64.of_uint busy))
                   (B64.mul B64.c_0_005 (B64.of_uint busy_peer)))
          B64.half.

(** [energy_idle + (ratio * energy_min_idle)], assigned to a [uint64_t]. *)
Definition mi250_share (energy_idle : Z) (ratio : double) (energy_min_idle : Z)
    : outcome Z :=
  to_uint64_t (B64.add (B64.of_uint energy_idle)
                       (B64.mul ratio (B64.of_uint energy_min_idle))).

(** [peer_unit] is the unit [dev->peer] points to, [None] for [NULL]. *)
Definition _amd_device_fetch_energy_mi250 (smi : rocm_smi) (dev : Unit)
    (peer_unit : option Unit) : outcome (Unit * option Unit) :=
  match peer_unit with
  | None => Done (dev, None)   (* Already handled by peer GCD *)
  | Some p =>
      let last_energy_raw := energy_raw dev in
      let last_timestamp := timestamp dev in
      dev <- _amd_device_fetch_activity smi dev ;;
      p <- _amd_device_fetch_activity smi p ;;
      let r := rsmi_dev_energy_count_get smi (id dev) in
      if negb (ec_success r) then Exit_failure
      else
        let dev := set_timestamp (u64 (ec_timestamp r))
                     (set_energy_raw (u64 (ec_power r)) dev) in
        let dev := set_energy_resolution (ec_counter_resolution r) dev in
        _ <- assert (energy_raw dev >=? last_energy_raw) ;;
        (* Don't compute energy consumption during first iteration *)
        if last_energy_raw =? 0 then Done (dev, Some p)
        else
          energy <- mi250_energy (energy_resolution dev) last_energy_raw (energy_raw dev) ;;
          elapsed_s <- mi250_elapsed_s last_timestamp (timestamp dev) ;;
          let energy_idle := mi250_energy_idle elapsed_s in
          let energy_min_idle := mi250_energy_min_idle energy energy_idle in
          let energy_ratio := mi250_energy_ratio (busy_percent dev) (busy_percent p) in
          interval <- mi250_share energy_idle energy_ratio energy_min_idle ;;
          let dev := accumulate (set_energy_interval interval dev) in
          interval_peer <- mi250_share energy_idle (B64.sub B64.one energy_ratio)
                                       energy_min_idle ;;
          let p := accumulate (set_energy_interval interval_peer p) in
          Done (dev, Some p)
  end.

(** Writing sibling [i]. *)
Fixpoint store (i : nat) (u : Unit) (l : list Unit) : list Unit :=
  match l, i with
  | [], _ => []
  | _ :: t, O => u :: t
  | h :: t, S i' => h :: store i' u t
  end.

(** [_amd_device_update_files(&gpus->siblings[i])]. [amd_gpu_init] links a
    unit only to the next sibling, so [dev] and [dev->peer] are two
    units. *)
Definition _amd_device_update_files (smi : rocm_smi) (sibs : list Unit) (i : nat)
    : outcome (list Unit) :=
  match nth_error sibs i with
  | None => Undefined
  | Some dev =>
      if model dev =? MI250 then
        match peer dev with
        | None =>
            '(dev, _) <- _amd_device_fetch_energy_mi250 smi dev None ;;
            Done (store i (write_file dev) sibs)
        | Some j =>
            match nth_error sibs j with
            | None => Undefined
            | Some p =>
                '(dev, p') <- _amd_device_fetch_energy_mi250 smi dev (Some p) ;;
                let sibs := match p' with Some p' => store j p' sibs | None => sibs end in
                Done (store i (write_file dev) sibs)
            end
        end
      else
        dev <- _amd_device_fetch_energy smi dev ;;
        Done (store i (write_file dev) sibs)
  end.

(** [amd_gpu_update]: the siblings in order. *)
Fixpoint amd_gpu_update_from (smi : rocm_smi) (n : nat) (i : nat) (sibs : list Unit)
    : outcome (list Unit) :=
  match n with
  | O => Done sibs
  | S n' =>
      sibs <- _amd_device_update_files smi sibs i ;;
      amd_gpu_update_from smi n' (S i) sibs
  end.

Definition amd_gpu_update (smi : rocm_smi) (gpus : Component) : outcome Component :=
  sibs <- amd_gpu_update_from smi (Z.to_nat (n_siblings gpus)) 0 (siblings gpus) ;;
  Done (mkComponent sibs (c_type gpus) (c_vendor gpus) (n_siblings gpus) (is_verbose gpus)).

(** One device of [amd_gpu_init], up to its first fetch: zeroed, numbered,
    its model read, its first raw value fetched. *)
Definition amd_gpu_init_device (smi : rocm_smi) (i model_id : Z) : outcome Unit :=
  _amd_device_fetch_energy smi (set_model model_id (set_id i Unit_zero)).

(** ** nvidia_gpu.c (with [NVIDIA_GPU] defined) *)

(** [_dcgm_energy]: the total energy of each GPU, in mJ, as the callback
    stored it. *)
Definition _nvidia_device_update_files (_dcgm_energy : Z -> Z) (dev : Unit)
    : outcome Unit :=
  let last_energy_raw := energy_raw dev in
  let dev := set_energy_raw (u64 (_dcgm_energy (id dev))) dev in
  (* First iteration *)
  if last_energy_raw =? 0 then Done dev
  else
    _ <- assert (energy_raw dev >=? last_energy_raw) ;;
    interval <- to_uint64_t
                  (B64.div (B64.of_uint (u64 (energy_raw dev - last_energy_raw)))
                           B64.c_1E3) ;;
    let dev := accumulate (set_energy_interval interval dev) in
    Done (write_file dev).

(** ** intel_gpu.c (with [INTEL_GPU] defined) *)

Definition INTEL_MODEL_UNKNOWN : Z := 0.
Definition MAX1550 : Z := 1550.

(** [zes_energy dev_id] is what [energy_counter.energy] holds after
    [zesPowerGetEnergyCounter] (the sources go on after a failed call). *)
Definition _intel_device_update_files (zes_energy : Z -> Z) (dev : Unit)
    : outcome Unit :=
  let last_energy_raw := energy_raw dev in
  let dev := set_energy_raw (u64 (zes_energy (id dev))) dev in
  (* First iteration *)
  if last_energy_raw =? 0 then Done dev
  else
    _ <- assert (energy_raw dev >=? last_energy_raw) ;;
    interval <- to_uint64_t
                  (B64.div (B64.of_uint (u64 (energy_raw dev - last_energy_raw)))
                           B64.c_1E6) ;;
    let dev := set_energy_interval interval dev in
    (* Half for each tile *)
    let dev := if model dev =? MAX1550
               then set_energy_interval (energy_interval dev / 2) dev
               else dev in
    let dev := accumulate dev in
    Done (write_file dev).

(** ** mock.c *)

Definition _mock_update_files (mock : Unit) : outcome Unit :=
  Done (write_file (accumulate mock)).

(** One unit of [mock_init]. *)
Definition mock_init_unit (i watts interval : Z) : Unit :=
  set_energy_interval (u32 (watts * interval))
    (set_fixed_watts watts (set_id i Unit_zero)).

(** ** ecounter.c: the overhead estimator *)

Definition INT_MAX : Z := 2147483647.
Definition UINT32_MAX : Z := 4294967295.

Record Overhead_t : Type := mkOverhead {
  min : Z;
  max : Z;
  mov_average : Z;
  n_samples : Z
}.

(** [struct Ecounter], without the command-line settings that the
    estimator does not read. *)
Record Ecounter_t : Type := mkEcounter {
  components : list Component;
  interval : Z;
  overhead : Overhead_t
}.

(** The first line that the node-power command prints, as
    [fetch_node_power] uses it: the [long] that [strtol(output, NULL, 10)]
    returns for it, and whether [errno] reads [EINVAL] or [ERANGE] after
    that call (nothing clears it before). *)
Record command_output : Type := mkOutput {
  output_strtol : Z;
  output_errno : bool
}.

(** A line that [strtol] reads as [power], with [errno] clear. *)
Definition printed (power : Z) : option command_output :=
  Some (mkOutput power false).

(** [fetch_node_power]: [cmd_output] is [None] when [popen] fails or
    [fgets] reads nothing. *)
Definition fetch_node_power (cmd_output : option command_output) : outcome Z :=
  match cmd_output with
  | None => Exit_failure
  | Some output =>
      let power := output_strtol output in
      if output_errno output || (power <=? 0) then Exit_failure
      else Done (u32 power)
  end.

(** The two loops of [compute_overhead], on a [uint32_t] accumulator. *)
Definition sum_siblings (acc : Z) (c : Component) : Z :=
  fold_left (fun a u => u32 (a + energy_interval u))
            (firstn (Z.to_nat (n_siblings c)) (siblings c)) acc.

Definition sum_energy_interval (ec : Ecounter_t) : Z :=
  fold_left sum_siblings (firstn (Z.to_nat INTERFACES_MAX) (components ec)) 0.

Definition power_interval (ec : Ecounter_t) : Z :=
  sum_energy_interval ec / interval ec.

Definition overhead_interval (ec : Ecounter_t) (node_power : Z) : Z :=
  if power_interval ec <? node_power
  then u32 (node_power - power_interval ec)
  else 0.

Definition compute_overhead (ec : Ecounter_t) (cmd_output : option command_output)
    : outcome Ecounter_t :=
  let o := overhead ec in
  node_power <- fetch_node_power cmd_output ;;
  if interval ec =? 0 then Undefined
  else
    let ov := overhead_interval ec node_power in
    (* Skip a null power interval *)
    if power_interval ec =? 0 then Done ec
    else if u32 (n_samples o + 1) =? 0 then Undefined
    else
      Done (mkEcounter (components ec) (interval ec)
              (mkOverhead
                 (MIN ov (min o))
                 (MAX ov (max o))
                 (u32 (u32 (mov_average o * n_samples o) + ov) / u32 (n_samples o + 1))
                 (u32 (n_samples o + 1)))).

(** The estimator as [init] leaves it: zeroed, then [min = INT_MAX]. *)
Definition init_overhead : Overhead_t := mkOverhead INT_MAX 0 0 0.

Definition init (interval_arg : Z) (comps : list Component) : Ecounter_t :=
  mkEcounter comps interval_arg init_overhead.

(** The estimator cycle after cycle: each cycle brings the components as
    the updates of that cycle left them and what the node-power command
    printed. *)
Fixpoint overhead_cycles (ec : Ecounter_t)
    (samples : list (list Component * option command_output)) : outcome Ecounter_t :=
  match samples with
  | [] => Done ec
  | (comps, cmd_output) :: rest =>
      ec' <- compute_overhead (mkEcounter comps (interval ec) (overhead ec))
                              cmd_output ;;
      overhead_cycles ec' rest
  end.

(** * Properties *)

(** ** Scaling a raw count by a power-of-two resolution *)

Lemma pow_half_positive (k : Z) :
  0 <= k <= 1000 -> B64.gt (B64.pow_half k) B64.zero = true.
Proof. intros Hk. rewrite pow_half_eq by trivial. reflexivity. Qed.

Lemma pow_half_B2R (k : Z) :
  0 <= k <= 1000 -> B64.B2R (B64.pow_half k) = bpow (- k).
Proof.
  intros Hk. rewrite pow_half_eq by trivial. cbn [B64.B2R cond_Zopp].
  change (Z.pos (2 ^ 52)) with (2 ^ 52). rewrite <- (bpow_IZR 52), <- bpow_add by lia.
  f_equal. lia.
Qed.

(** [resolution * delta], converted to [uint64_t], is [delta / 2^k]: the
    product is exact and its fractional part is discarded. *)
Lemma scale_by_pow_half (k delta : Z) :
  0 <= k <= 64 -> 0 <= delta < 2 ^ 53 ->
  B64.to_u64 (B64.mul (B64.pow_half k) (B64.of_uint delta)) = Some (delta / 2 ^ k).
Proof.
  intros Hk Hd. rewrite pow_half_eq by lia.
  destruct (Z.eq_dec delta 0) as [-> | Hnz].
  { rewrite Z.div_0_l by (apply Z.pow_nonzero; lia). reflexivity. }
  destruct (of_uint_small delta ltac:(lia)) as [Heq Hdig]. rewrite Heq.
  set (d := Zdigits2 delta) in *.
  pose proof (Zdigits2_bounds delta ltac:(lia)) as Hb. fold d in Hb.
  assert (Hp : 0 < 2 ^ (53 - d)) by (apply Z.pow_pos_nonneg; lia).
  set (md := delta * 2 ^ (53 - d)) in *.
  assert (Hmd : 2 ^ 52 <= md < 2 ^ 53).
  { unfold md.
    replace (2 ^ 52) with (2 ^ (d - 1) * 2 ^ (53 - d))
      by (rewrite <- Z.pow_add_r by lia; f_equal; lia).
    replace (2 ^ 53) with (2 ^ d * 2 ^ (53 - d))
      by (rewrite <- Z.pow_add_r by lia; f_equal; lia).
    nia. }
  unfold B64.mul, SFmul. cbn [xorb].
  assert (HM : Zpos (2 ^ 52 * Z.to_pos md) = 2 ^ 52 * md)
    by (rewrite Pos2Z.inj_mul, Z2Pos.id by lia; reflexivity).
  rewrite HM.
  assert (Hdig2 : Zdigits2 (2 ^ 52 * md) = 105).
  { apply Zdigits2_unique; [lia |]. change (2 ^ (105 - 1)) with (2 ^ 52 * 2 ^ 52).
    change (2 ^ 105) with (2 ^ 52 * 2 ^ 53). lia. }
  rewrite binary_round_aux_exact; rewrite ?Hdig2; try lia.
  - change (105 - 53) with 52.
    rewrite Z.mul_comm, Z.div_mul by lia. unfold B64.to_u64.
    rewrite Z2Pos.id by lia.
    replace (-52 - k + (d - 53) + 52) with (- (k + (53 - d))) by lia.
    rewrite Z.shiftl_div_pow2 by lia. rewrite Z.opp_involutive.
    unfold md. rewrite Z.pow_add_r by lia.
    rewrite Z.div_mul_cancel_r by (try apply Z.pow_nonzero; lia).
    assert (Hq : 0 <= delta / 2 ^ k <= delta).
    { split; [apply Z.div_pos; [lia | apply Z.pow_pos_nonneg; lia] |].
      apply Z.div_le_upper_bound; [apply Z.pow_pos_nonneg; lia |].
      pose proof (Z.pow_pos_nonneg 2 k). nia. }
    destruct (Z.ltb_spec (delta / 2 ^ k) (2 ^ 64)); [reflexivity | lia].
  - change (105 - 53) with 52. rewrite Z.mul_comm. apply Z.mod_mul. lia.
Qed.

(** The integer kept is the integer part of the real product. *)
Lemma pow_half_floor (k delta : Z) :
  0 <= k <= 1000 -> 0 <= delta ->
  (IZR (delta / 2 ^ k) <= B64.B2R (B64.pow_half k) * IZR delta
   < IZR (delta / 2 ^ k) + 1)%R.
Proof.
  intros Hk Hd. rewrite pow_half_B2R by trivial.
  assert (Hp : 0 < 2 ^ k) by (apply Z.pow_pos_nonneg; lia).
  pose proof (Z.mul_div_le delta (2 ^ k) Hp) as H1.
  pose proof (Z.mul_succ_div_gt delta (2 ^ k) Hp) as H2.
  pose proof (bpow_opp_cancel k) as Hinv. rewrite (bpow_IZR k) in Hinv by lia.
  pose proof (bpow_pos (- k)) as Hb.
  set (q := delta / 2 ^ k) in *.
  assert (H1R : (IZR (2 ^ k) * IZR q <= IZR delta)%R)
    by (rewrite <- mult_IZR; apply IZR_le; lia).
  assert (H2R : (IZR delta < IZR (2 ^ k) * (IZR q + 1))%R).
  { rewrite <- (plus_IZR q 1), <- mult_IZR. apply IZR_lt. lia. }
  assert (HpR : (0 < IZR (2 ^ k))%R) by (apply IZR_lt; lia).
  split.
  - replace (IZR q) with (bpow (- k) * (IZR (2 ^ k) * IZR q))%R
      by (rewrite <- Rmult_assoc, (Rmult_comm (bpow (- k))), Hinv; ring).
    apply Rmult_le_compat_l; lra.
  - replace (IZR q + 1)%R with (bpow (- k) * (IZR (2 ^ k) * (IZR q + 1)))%R
      by (rewrite <- Rmult_assoc, (Rmult_comm (bpow (- k))), Hinv; ring).
    apply Rmult_lt_compat_l; lra.
Qed.

Lemma u64_small (z : Z) : 0 <= z < 2 ^ 64 -> u64 z = z.
Proof. intros H. unfold u64. apply Z.mod_small. exact H. Qed.

Lemma u64_range (z : Z) : 0 <= u64 z < 2 ^ 64.
Proof. unfold u64. apply Z.mod_pos_bound. lia. Qed.

Lemma u32_small (z : Z) : 0 <= z < 2 ^ 32 -> u32 z = z.
Proof. intros H. unfold u32. apply Z.mod_small. exact H. Qed.

Lemma u32_range (z : Z) : 0 <= u32 z < 2 ^ 32.
Proof. unfold u32. apply Z.mod_pos_bound. lia. Qed.

Lemma read_msr_range (hw : msr_device) (c r v : Z) :
  read_msr hw c r = Done v -> 0 <= v < 2 ^ 64.
Proof.
  unfold read_msr. destruct (hw c r); [| discriminate].
  intros H. injection H as <-. apply u64_range.
Qed.

(** ** The resolution is fetched once *)

(** With a resolution already positive, a fetch reads the energy register
    only and changes nothing but [energy_raw]. *)
Lemma cpu_fetch_known (to_core : Z -> Z) (hw : msr_device) (package fetched : Unit)
    (v : vendor) (reads : list Z) :
  B64.gt (energy_resolution package) B64.zero = true ->
  _cpu_package_fetch_energy to_core hw package v = Done (fetched, reads) ->
  fetched = set_energy_raw (energy_raw fetched) package /\
  0 <= energy_raw fetched < 2 ^ 64 /\
  power_unit_reads reads = 0%nat.
Proof.
  intros Hpos. unfold _cpu_package_fetch_energy.
  destruct v; cbn [bind]; try discriminate;
    (destruct (read_msr hw _ _) as [raw | | |] eqn:Hread; cbn [bind];
     try discriminate;
     cbn [energy_resolution set_energy_raw]; rewrite Hpos;
     intros H; injection H as <- <-;
     apply read_msr_range in Hread; repeat split; try reflexivity;
     cbn [energy_raw set_energy_raw]; lia).
Qed.

Lemma dram_fetch_known (to_core : Z -> Z) (hw : msr_device) (package fetched : Unit)
    (v : vendor) (reads : list Z) :
  B64.gt (energy_resolution package) B64.zero = true ->
  _dram_package_fetch_energy to_core hw package v = Done (fetched, reads) ->
  fetched = set_energy_raw (energy_raw fetched) package /\
  0 <= energy_raw fetched < 2 ^ 64 /\
  power_unit_reads reads = 0%nat.
Proof.
  intros Hpos. unfold _dram_package_fetch_energy.
  destruct v; cbn [bind]; try discriminate;
    (destruct (read_msr hw _ _) as [raw | | |] eqn:Hread; cbn [bind];
     try discriminate;
     cbn [energy_resolution set_energy_raw]; rewrite Hpos;
     intros H; injection H as <- <-;
     apply read_msr_range in Hread; repeat split; try reflexivity;
     cbn [energy_raw set_energy_raw]; lia).
Qed.

(** ** C1: the wraparound-safe delta *)

(** The delta of a 32-bit counter as the specification words it. *)
Definition wraparound_delta (last_raw raw : Z) : Z :=
  if raw >=? last_raw then raw - last_raw else (2 ^ 32 - last_raw) + raw.

Lemma raw_delta_wraparound (last_raw raw : Z) :
  0 <= last_raw < 2 ^ 32 -> 0 <= raw < 2 ^ 32 ->
  raw_delta last_raw raw = wraparound_delta last_raw raw /\
  0 <= wraparound_delta last_raw raw < 2 ^ 33.
Proof.
  intros Hl Hr. unfold raw_delta, wraparound_delta.
  destruct (Z.geb_spec raw last_raw).
  - rewrite u64_small by lia. lia.
  - rewrite (u64_small (2 ^ 32 - last_raw)) by lia. rewrite u64_small by lia. lia.
Qed.

(** What one update of a package with a known resolution leaves. *)
Definition package_updated (k : Z) (package package' : Unit) (raw : Z) : Prop :=
  let delta := wraparound_delta (energy_raw package) raw in
  0 <= delta /\
  energy_raw package' = raw /\
  energy_resolution package' = energy_resolution package /\
  to_uint64_t (B64.mul (energy_resolution package) (B64.of_uint delta))
  = Done (energy_interval package') /\
  energy_interval package' = delta / 2 ^ k /\
  (IZR (energy_interval package')
   <= B64.B2R (energy_resolution package) * IZR delta
   < IZR (energy_interval package') + 1)%R /\
  energy_acc package' = u64 (energy_acc package + energy_interval package').

Lemma package_update_tail (k : Z) (package : Unit) (raw : Z) (reads : list Z) :
  0 <= k <= 31 ->
  energy_resolution package = B64.pow_half k ->
  0 <= energy_raw package < 2 ^ 32 -> 0 <= raw < 2 ^ 32 ->
  exists package',
    (interval <- to_uint64_t
                   (B64.mul (energy_resolution (set_energy_raw raw package))
                            (B64.of_uint (raw_delta (energy_raw package)
                                            (energy_raw (set_energy_raw raw package))))) ;;
     let p := set_energy_interval interval (set_energy_raw raw package) in
     let p := accumulate p in
     Done (write_file p, reads)) = Done (package', reads) /\
    package_updated k package package' raw.
Proof.
  intros Hk Hres Hlast Hraw.
  cbn [energy_resolution energy_raw set_energy_raw].
  destruct (raw_delta_wraparound (energy_raw package) raw Hlast Hraw) as [Hd Hb].
  rewrite Hd, Hres. unfold to_uint64_t.
  rewrite scale_by_pow_half by lia. cbn [bind].
  eexists. split; [reflexivity |].
  unfold package_updated. cbn -[to_uint64_t B64.mul B64.of_uint]. rewrite Hres.
  unfold to_uint64_t. rewrite scale_by_pow_half by lia.
  repeat split; trivial; try lia; apply pow_half_floor; lia.
Qed.

(** C1. A CPU or DRAM package holds a known resolution 0.5^k and a previous
    raw value below 2^32; the counter is read and returns a value below
    2^32. Then the update succeeds: the raw-count delta is [raw - last_raw]
    when [raw >= last_raw] and [(2^32 - last_raw) + raw] otherwise, it is
    not negative, and [energy_interval] is the double [resolution * delta]
    as the assignment to the [uint64_t] field converts it: the product is
    exact and its integer part, [delta / 2^k], is kept. *)
Theorem wraparound_safe_delta :
  forall (to_core : Z -> Z) (hw : msr_device) (package fetched : Unit)
         (v : vendor) (reads : list Z) (k : Z),
    0 <= k <= 31 ->
    energy_resolution package = B64.pow_half k ->
    0 <= energy_raw package < 2 ^ 32 ->
    energy_raw fetched < 2 ^ 32 ->
    (_cpu_package_fetch_energy to_core hw package v = Done (fetched, reads) ->
     exists package',
       _cpu_package_update_files to_core hw package v = Done (package', reads) /\
       package_updated k package package' (energy_raw fetched)) /\
    (_dram_package_fetch_energy to_core hw package v = Done (fetched, reads) ->
     exists package',
       _dram_package_update_files to_core hw package v = Done (package', reads) /\
       package_updated k package package' (energy_raw fetched)).
Proof.
  intros to_core hw package fetched v reads k Hk Hres Hlast Hraw.
  assert (Hpos : B64.gt (energy_resolution package) B64.zero = true)
    by (rewrite Hres; apply pow_half_positive; lia).
  split; intros Hfetch.
  - destruct (cpu_fetch_known _ _ _ _ _ _ Hpos Hfetch) as (Heq & Hr & _).
    unfold _cpu_package_update_files. rewrite Hfetch. cbn [bind].
    set (raw := energy_raw fetched) in *. rewrite Heq.
    apply (package_update_tail k package raw reads); trivial; lia.
  - destruct (dram_fetch_known _ _ _ _ _ _ Hpos Hfetch) as (Heq & Hr & _).
    unfold _dram_package_update_files. rewrite Hfetch. cbn [bind].
    set (raw := energy_raw fetched) in *. rewrite Heq.
    apply (package_update_tail k package raw reads); trivial; lia.
Qed.

(** The scenario of the specification: resolution 2^-10, a raw delta of
    1024 counts, 1 Joule. *)
Definition scenario_package : Unit :=
  set_energy_raw 1000 (set_energy_resolution (B64.pow_half 10) Unit_zero).

Definition scenario_msr : msr_device :=
  fun _ reg => if reg =? MSR_INTEL_PACKAGE_ENERGY then Some 2024 else None.

Lemma wraparound_safe_delta_witness :
  exists package',
    _cpu_package_update_files (fun _ => 0) scenario_msr scenario_package INTEL
    = Done (package', [MSR_INTEL_PACKAGE_ENERGY]) /\
    energy_interval package' = 1 /\ energy_acc package' = 1.
Proof.
  destruct (wraparound_safe_delta (fun _ => 0) scenario_msr scenario_package
              (set_energy_raw 2024 scenario_package) INTEL
              [MSR_INTEL_PACKAGE_ENERGY] 10) as [Hcpu _].
  - lia.
  - reflexivity.
  - cbn. lia.
  - cbn. lia.
  - destruct (Hcpu eq_refl) as (package' & Hup & _ & _ & _ & _ & Hint & _ & Hacc).
    exists package'. split; [exact Hup |]. rewrite Hacc, Hint. split; reflexivity.
Defined.

(** ** C9: the resolution is decoded once and stays positive *)

Lemma energy_unit_field (msr_unit : Z) :
  0 <= Z.land (Z.shiftr msr_unit 8) MSR_ENERGY_UNIT_MASK <= 31.
Proof.
  change MSR_ENERGY_UNIT_MASK with (Z.ones 5). rewrite Z.land_ones by lia.
  pose proof (Z.mod_pos_bound (Z.shiftr msr_unit 8) (2 ^ 5) ltac:(lia)).
  change (2 ^ 5) with 32 in *. lia.
Qed.

(** A resolution that was decoded: 0.5^k for the 5-bit field k. *)
Definition known_resolution (u : Unit) : Prop :=
  exists k, 0 <= k <= 31 /\ energy_resolution u = B64.pow_half k.

Lemma known_resolution_positive (u : Unit) :
  known_resolution u ->
  B64.gt (energy_resolution u) B64.zero = true /\
  (0 < B64.B2R (energy_resolution u))%R.
Proof.
  intros (k & Hk & Hres). rewrite Hres. split.
  - apply pow_half_positive. lia.
  - rewrite pow_half_B2R by lia. apply bpow_pos.
Qed.

Lemma cpu_update_known (to_core : Z -> Z) (hw : msr_device) (package package' : Unit)
    (v : vendor) (reads : list Z) :
  B64.gt (energy_resolution package) B64.zero = true ->
  _cpu_package_update_files to_core hw package v = Done (package', reads) ->
  energy_resolution package' = energy_resolution package /\
  power_unit_reads reads = 0%nat.
Proof.
  intros Hpos. unfold _cpu_package_update_files.
  destruct (_cpu_package_fetch_energy to_core hw package v)
    as [[fetched rd] | | |] eqn:Hfetch; cbn [bind]; try discriminate.
  destruct (cpu_fetch_known _ _ _ _ _ _ Hpos Hfetch) as (Heq & _ & Hrd).
  destruct (to_uint64_t _) as [iv | | |]; cbn [bind]; try discriminate.
  intros H. injection H as <- <-. split; [| exact Hrd].
  cbn. rewrite Heq. reflexivity.
Qed.

Lemma dram_update_known (to_core : Z -> Z) (hw : msr_device) (package package' : Unit)
    (v : vendor) (reads : list Z) :
  B64.gt (energy_resolution package) B64.zero = true ->
  _dram_package_update_files to_core hw package v = Done (package', reads) ->
  energy_resolution package' = energy_resolution package /\
  power_unit_reads reads = 0%nat.
Proof.
  intros Hpos. unfold _dram_package_update_files.
  destruct (_dram_package_fetch_energy to_core hw package v)
    as [[fetched rd] | | |] eqn:Hfetch; cbn [bind]; try discriminate.
  destruct (dram_fetch_known _ _ _ _ _ _ Hpos Hfetch) as (Heq & _ & Hrd).
  destruct (to_uint64_t _) as [iv | | |]; cbn [bind]; try discriminate.
  intros H. injection H as <- <-. split; [| exact Hrd].
  cbn. rewrite Heq. reflexivity.
Qed.

Lemma power_unit_reads_app (l1 l2 : list Z) :
  power_unit_reads (l1 ++ l2) = (power_unit_reads l1 + power_unit_reads l2)%nat.
Proof. unfold power_unit_reads. rewrite filter_app, length_app. reflexivity. Qed.

Lemma cpu_cycles_known (to_core : Z -> Z) (hws : list msr_device) (v : vendor) :
  forall (package final : Unit) (log log' : list Z),
    known_resolution package ->
    cpu_cycles to_core hws v package log = Done (final, log') ->
    energy_resolution final = energy_resolution package /\
    power_unit_reads log' = power_unit_reads log.
Proof.
  induction hws as [| hw rest IH]; intros package final log log' Hk; cbn [cpu_cycles].
  - intros H. injection H as <- <-. split; reflexivity.
  - destruct (_cpu_package_update_files to_core hw package v)
      as [[p1 rd] | | |] eqn:Hup; cbn [bind]; try discriminate.
    destruct (known_resolution_positive _ Hk) as [Hpos _].
    destruct (cpu_update_known _ _ _ _ _ _ Hpos Hup) as [Hres Hrd].
    intros Hrest. apply IH in Hrest.
    + rewrite power_unit_reads_app, Hrd, Nat.add_0_r, Hres in Hrest. exact Hrest.
    + destruct Hk as (k & Hk & Hr). exists k. split; [exact Hk | congruence].
Qed.

Lemma dram_cycles_known (to_core : Z -> Z) (hws : list msr_device) (v : vendor) :
  forall (package final : Unit) (log log' : list Z),
    known_resolution package ->
    dram_cycles to_core hws v package log = Done (final, log') ->
    energy_resolution final = energy_resolution package /\
    power_unit_reads log' = power_unit_reads log.
Proof.
  induction hws as [| hw rest IH]; intros package final log log' Hk; cbn [dram_cycles].
  - intros H. injection H as <- <-. split; reflexivity.
  - destruct (_dram_package_update_files to_core hw package v)
      as [[p1 rd] | | |] eqn:Hup; cbn [bind]; try discriminate.
    destruct (known_resolution_positive _ Hk) as [Hpos _].
    destruct (dram_update_known _ _ _ _ _ _ Hpos Hup) as [Hres Hrd].
    intros Hrest. apply IH in Hrest.
    + rewrite power_unit_reads_app, Hrd, Nat.add_0_r, Hres in Hrest. exact Hrest.
    + destruct Hk as (k & Hk & Hr). exists k. split; [exact Hk | congruence].
Qed.

(** The first fetch, on the zeroed unit, reads the unit register once and
    decodes it. *)
Lemma cpu_init_decodes (to_core : Z -> Z) (hw : msr_device) (i : Z) (v : vendor)
    (package : Unit) (reads : list Z) :
  cpu_init_package to_core hw i v true = Done (package, reads) ->
  known_resolution package /\ power_unit_reads reads = 1%nat.
Proof.
  unfold cpu_init_package, _cpu_package_fetch_energy.
  destruct v; cbn [bind]; try discriminate;
    (destruct (read_msr hw _ _) as [raw | | |]; cbn [bind]; try discriminate;
     cbn [energy_resolution set_energy_raw set_id Unit_zero];
     change (B64.gt (S754_zero false) B64.zero) with false; cbv iota;
     destruct (read_msr hw _ _) as [msr_unit | | |]; cbn [bind]; try discriminate;
     intros H; injection H as <- <-; split; [| reflexivity];
     eexists; split; [apply (energy_unit_field msr_unit) | reflexivity]).
Qed.

Lemma dram_init_decodes (to_core : Z -> Z) (hw : msr_device) (i : Z) (v : vendor)
    (package : Unit) (reads : list Z) :
  dram_init_package to_core hw i v true = Done (package, reads) ->
  known_resolution package /\ power_unit_reads reads = 1%nat.
Proof.
  unfold dram_init_package, _dram_package_fetch_energy.
  destruct v; cbn [bind]; try discriminate;
    (destruct (read_msr hw _ _) as [raw | | |]; cbn [bind]; try discriminate;
     cbn [energy_resolution set_energy_raw set_id Unit_zero];
     change (B64.gt (S754_zero false) B64.zero) with false; cbv iota;
     destruct (read_msr hw _ _) as [msr_unit | | |]; cbn [bind]; try discriminate;
     intros H; injection H as <- <-; split; [| reflexivity];
     eexists; split; [apply (energy_unit_field msr_unit) | reflexivity]).
Qed.

(** C9. Over the life of a CPU or DRAM package (its initialisation, then
    any number of sampling cycles) the unit register is read exactly once,
    by the first fetch, and decoded as 0.5 raised to its masked exponent
    field; a positive resolution is neither fetched again nor changed by
    an update; and a known resolution is a strictly positive real. *)
Theorem resolution_fetched_once :
  forall (to_core : Z -> Z) (v : vendor),
    (forall hw package package' reads,
       B64.gt (energy_resolution package) B64.zero = true ->
       (_cpu_package_update_files to_core hw package v = Done (package', reads) ->
        energy_resolution package' = energy_resolution package /\
        power_unit_reads reads = 0%nat) /\
       (_dram_package_update_files to_core hw package v = Done (package', reads) ->
        energy_resolution package' = energy_resolution package /\
        power_unit_reads reads = 0%nat)) /\
    (forall hw0 hws i final log,
       cpu_lifetime to_core hw0 hws i v = Done (final, log) \/
       dram_lifetime to_core hw0 hws i v = Done (final, log) ->
       power_unit_reads log = 1%nat /\
       known_resolution final /\
       B64.gt (energy_resolution final) B64.zero = true /\
       (0 < B64.B2R (energy_resolution final))%R).
Proof.
  intros to_core v. split.
  - intros hw package package' reads Hpos. split; intros Hup.
    + exact (cpu_update_known _ _ _ _ _ _ Hpos Hup).
    + exact (dram_update_known _ _ _ _ _ _ Hpos Hup).
  - intros hw0 hws i final log [Hlife | Hlife].
    + unfold cpu_lifetime in Hlife.
      destruct (cpu_init_package to_core hw0 i v true)
        as [[p0 rd0] | | |] eqn:Hinit; cbn [bind] in Hlife; try discriminate.
      destruct (cpu_init_decodes _ _ _ _ _ _ Hinit) as [Hk Hrd].
      destruct (cpu_cycles_known _ _ _ _ _ _ _ Hk Hlife) as [Hres Hlog].
      assert (Hkf : known_resolution final).
      { destruct Hk as (k & Hk & Hr). exists k. split; [exact Hk | congruence]. }
      split; [congruence |]. split; [exact Hkf |].
      apply known_resolution_positive. exact Hkf.
    + unfold dram_lifetime in Hlife.
      destruct (dram_init_package to_core hw0 i v true)
        as [[p0 rd0] | | |] eqn:Hinit; cbn [bind] in Hlife; try discriminate.
      destruct (dram_init_decodes _ _ _ _ _ _ Hinit) as [Hk Hrd].
      destruct (dram_cycles_known _ _ _ _ _ _ _ Hk Hlife) as [Hres Hlog].
      assert (Hkf : known_resolution final).
      { destruct Hk as (k & Hk & Hr). exists k. split; [exact Hk | congruence]. }
      split; [congruence |]. split; [exact Hkf |].
      apply known_resolution_positive. exact Hkf.
Qed.

Example cpu_lifetime_example :
  exists final log,
    cpu_lifetime (fun _ => 0)
      (fun _ reg => if is_power_unit reg then Some 0x0A00 else Some 1000)
      [fun _ _ => Some 2024; fun _ _ => Some 4072] 0 INTEL = Done (final, log) /\
    energy_resolution final = B64.pow_half 10 /\
    energy_acc final = 3 /\
    log = [MSR_INTEL_PACKAGE_ENERGY; MSR_INTEL_POWER_UNIT;
           MSR_INTEL_PACKAGE_ENERGY; MSR_INTEL_PACKAGE_ENERGY].
Proof. eexists _, _. vm_compute. repeat split; reflexivity. Qed.

(** The same life, through the theorem: one read of the unit register in
    init and two cycles, and a resolution that compares positive. *)
Lemma resolution_fetched_once_witness :
  exists final log,
    cpu_lifetime (fun _ => 0)
      (fun _ reg => if is_power_unit reg then Some 0x0A00 else Some 1000)
      [fun _ _ => Some 2024; fun _ _ => Some 4072] 0 INTEL = Done (final, log) /\
    power_unit_reads log = 1%nat /\
    B64.gt (energy_resolution final) B64.zero = true.
Proof.
  destruct (resolution_fetched_once (fun _ => 0) INTEL) as [_ Hlife].
  assert (exists final log,
            cpu_lifetime (fun _ => 0)
              (fun _ reg => if is_power_unit reg then Some 0x0A00 else Some 1000)
              [fun _ _ => Some 2024; fun _ _ => Some 4072] 0 INTEL
            = Done (final, log)) as (final & log & Hrun)
    by (eexists _, _; vm_compute; reflexivity).
  exists final, log. split; [exact Hrun |].
  destruct (Hlife _ _ _ _ _ (or_introl Hrun)) as (Hreads & _ & Hpos & _).
  split; assumption.
Defined.

(** ** C2: the first sample *)

Lemma u64_geb_0 (z : Z) : (u64 z >=? 0) = true.
Proof. pose proof (u64_range z). apply Z.geb_le. lia. Qed.

(** What a first sample leaves of the two energy fields. *)
Definition first_sample_kept (dev dev' : Unit) : Prop :=
  energy_interval dev' = 0 /\ energy_acc dev' = energy_acc dev.

(** C2. A unit whose [energy_raw] is still the zero it was created with,
    and for which no interval was computed yet, is sampled: the AMD, Intel
    and NVIDIA updates return before the delta computation, leaving
    [energy_interval] at zero and [energy_acc] as it was (for an MI250 pair,
    in both units). A CPU or DRAM package takes its first sample in
    [cpu_init] / [dram_init], which only fetches: both fields are zero
    after it. *)
Theorem first_sample_yields_zero :
  forall dev : Unit,
    energy_raw dev = 0 -> energy_interval dev = 0 ->
    (forall smi,
       ec_success (rsmi_dev_energy_count_get smi (id dev)) = true ->
       exists dev', _amd_device_fetch_energy smi dev = Done dev' /\
                    first_sample_kept dev dev') /\
    (forall smi p,
       energy_interval p = 0 ->
       bp_success (rsmi_dev_busy_percent_get smi (id dev)) = true ->
       bp_success (rsmi_dev_busy_percent_get smi (id p)) = true ->
       ec_success (rsmi_dev_energy_count_get smi (id dev)) = true ->
       exists dev' p',
         _amd_device_fetch_energy_mi250 smi dev (Some p) = Done (dev', Some p') /\
         first_sample_kept dev dev' /\ first_sample_kept p p') /\
    (forall dcgm,
       exists dev', _nvidia_device_update_files dcgm dev = Done dev' /\
                    first_sample_kept dev dev') /\
    (forall zes,
       exists dev', _intel_device_update_files zes dev = Done dev' /\
                    first_sample_kept dev dev') /\
    (forall to_core hw i v package reads,
       cpu_init_package to_core hw i v true = Done (package, reads) \/
       dram_init_package to_core hw i v true = Done (package, reads) ->
       energy_interval package = 0 /\ energy_acc package = 0).
Proof.
  intros dev Hraw Hint. unfold first_sample_kept.
  split; [| split; [| split; [| split]]].
  - intros smi Hok. unfold _amd_device_fetch_energy.
    rewrite Hok, Hraw. cbn [negb energy_raw set_timestamp set_energy_raw].
    rewrite u64_geb_0. cbn [assert bind Z.eqb].
    eexists. split; [reflexivity |]. cbn. auto.
  - intros smi p Hp Hb1 Hb2 Hok. unfold _amd_device_fetch_energy_mi250.
    unfold _amd_device_fetch_activity. rewrite Hb1, Hb2. cbn [negb bind].
    cbn [id set_busy_percent]. rewrite Hok, Hraw.
    cbn [negb energy_raw set_timestamp set_energy_raw set_energy_resolution
         set_busy_percent].
    rewrite u64_geb_0. cbn [assert bind Z.eqb].
    eexists _, _. split; [reflexivity |]. cbn. auto.
  - intros dcgm. unfold _nvidia_device_update_files. rewrite Hraw.
    cbn [Z.eqb]. eexists. split; [reflexivity |]. cbn. auto.
  - intros zes. unfold _intel_device_update_files. rewrite Hraw.
    cbn [Z.eqb]. eexists. split; [reflexivity |]. cbn. auto.
  - intros to_core hw i v package reads [H | H].
    + unfold cpu_init_package, _cpu_package_fetch_energy in H.
      destruct v; cbn [bind] in H; try discriminate;
        (destruct (read_msr hw _ _) as [raw | | |]; cbn [bind] in H;
         try discriminate;
         cbn [energy_resolution set_energy_raw set_id Unit_zero] in H;
         change (B64.gt (S754_zero false) B64.zero) with false in H; cbv iota in H;
         destruct (read_msr hw _ _) as [msr_unit | | |]; cbn [bind] in H;
         try discriminate; injection H as <- <-; split; reflexivity).
    + unfold dram_init_package, _dram_package_fetch_energy in H.
      destruct v; cbn [bind] in H; try discriminate;
        (destruct (read_msr hw _ _) as [raw | | |]; cbn [bind] in H;
         try discriminate;
         cbn [energy_resolution set_energy_raw set_id Unit_zero] in H;
         change (B64.gt (S754_zero false) B64.zero) with false in H; cbv iota in H;
         destruct (read_msr hw _ _) as [msr_unit | | |]; cbn [bind] in H;
         try discriminate; injection H as <- <-; split; reflexivity).
Qed.

Definition smi_first : rocm_smi :=
  mkSmi (fun _ => mkEnergyCount true 123456 (B64.of_uint 15) 1000)
        (fun _ => mkBusy true 50).

Lemma first_sample_yields_zero_witness :
  exists dev',
    amd_gpu_init_device smi_first 0 MI250 = Done dev' /\
    energy_interval dev' = 0 /\ energy_acc dev' = 0 /\ energy_raw dev' = 123456.
Proof.
  destruct (first_sample_yields_zero (set_model MI250 (set_id 0 Unit_zero))
              eq_refl eq_refl) as [Hamd _].
  destruct (Hamd smi_first eq_refl) as (dev' & Hrun & Hi & Ha).
  exists dev'. split; [exact Hrun |]. split; [exact Hi |]. split; [exact Ha |].
  unfold amd_gpu_init_device in Hrun. vm_compute in Hrun.
  injection Hrun as <-. reflexivity.
Defined.

(** ** C3: the accumulator is the sum of the intervals *)

(** Sampling cycles of one unit (or one pair of units): the states after
    each cycle, oldest first. *)
Fixpoint cycles {S I : Type} (step : S -> I -> outcome S) (s : S)
    (inputs : list I) : outcome (list S) :=
  match inputs with
  | [] => Done []
  | i :: rest =>
      s' <- step s i ;;
      trace <- cycles step s' rest ;;
      Done (s' :: trace)
  end.

Definition total {S : Type} (itv : S -> Z) (trace : list S) : Z :=
  fold_right Z.add 0 (map itv trace).

Fixpoint nondecreasing (l : list Z) : Prop :=
  match l with
  | a :: (b :: _) as t => a <= b /\ nondecreasing t
  | _ => True
  end.

(** After the cycles of [inputs], the accumulator is the sum of the
    intervals on [uint64_t]; while that sum stays below 2^64 it is the sum
    itself and never went down. *)
Definition accumulation_law {S I : Type} (step : S -> I -> outcome S)
    (acc itv : S -> Z) (s0 : S) : Prop :=
  forall inputs trace,
    cycles step s0 inputs = Done trace ->
    length trace = length inputs /\
    acc (last trace s0) = u64 (acc s0 + total itv trace) /\
    (acc s0 + total itv trace < 2 ^ 64 ->
     acc (last trace s0) = acc s0 + total itv trace /\
     nondecreasing (acc s0 :: map acc trace)).

Lemma last_cons_default {A : Type} (l : list A) (a d : A) :
  last (a :: l) d = last l a.
Proof.
  revert a d. induction l as [| b l IH]; intros a d; [reflexivity |].
  change (last (a :: b :: l) d) with (last (b :: l) d).
  rewrite (IH b d), (IH b a). reflexivity.
Qed.

Section Accumulation.

Context {S I : Type}.
Variable step : S -> I -> outcome S.
Variables acc itv : S -> Z.
Variable Inv : S -> Prop.

Hypothesis Inv_range : forall s, Inv s -> 0 <= acc s < 2 ^ 64.
Hypothesis Inv_step :
  forall s i s', Inv s -> step s i = Done s' ->
                 Inv s' /\ acc s' = u64 (acc s + itv s') /\ 0 <= itv s'.

Lemma cycles_accumulate :
  forall inputs s trace,
    Inv s -> cycles step s inputs = Done trace ->
    length trace = length inputs /\
    0 <= total itv trace /\
    acc (last trace s) = u64 (acc s + total itv trace) /\
    (acc s + total itv trace < 2 ^ 64 ->
     acc (last trace s) = acc s + total itv trace /\
     nondecreasing (acc s :: map acc trace)).
Proof.
  induction inputs as [| i rest IH]; intros s trace HI; cbn [cycles].
  - intros H. injection H as <-. pose proof (Inv_range s HI).
    cbn. rewrite Z.add_0_r, u64_small by lia. repeat split; lia.
  - destruct (step s i) as [s' | | |] eqn:Hstep; cbn [bind]; try discriminate.
    destruct (cycles step s' rest) as [t' | | |] eqn:Hrest; cbn [bind];
      try discriminate.
    intros H. injection H as <-.
    destruct (Inv_step s i s' HI Hstep) as (HI' & Hacc & Hitv).
    destruct (IH s' t' HI' Hrest) as (Hlen & Htot & Hlast & Hmono).
    pose proof (Inv_range s HI) as Hr. pose proof (Inv_range s' HI') as Hr'.
    rewrite last_cons_default. unfold total in *. cbn [map fold_right length].
    split; [lia |]. split; [lia |]. split.
    + rewrite Hlast, Hacc. unfold u64.
      rewrite Zplus_mod_idemp_l. f_equal. lia.
    + intros Hsmall.
      assert (Hs' : acc s' = acc s + itv s').
      { rewrite Hacc. apply u64_small. lia. }
      destruct Hmono as [Hl' Hm']; [lia |].
      split; [lia |]. cbn [nondecreasing map] in *. split; [lia | exact Hm'].
Qed.

Lemma accumulation_law_holds (s0 : S) :
  Inv s0 -> accumulation_law step acc itv s0.
Proof.
  intros HI inputs trace Hrun.
  destruct (cycles_accumulate inputs s0 trace HI Hrun) as (H1 & _ & H2 & H3).
  auto.
Qed.

End Accumulation.

(** One cycle of each kind of unit. *)
Definition cpu_step (to_core : Z -> Z) (v : vendor) (u : Unit) (hw : msr_device)
    : outcome Unit :=
  '(u', _) <- _cpu_package_update_files to_core hw u v ;; Done u'.

Definition dram_step (to_core : Z -> Z) (v : vendor) (u : Unit) (hw : msr_device)
    : outcome Unit :=
  '(u', _) <- _dram_package_update_files to_core hw u v ;; Done u'.

Definition amd_step (u : Unit) (smi : rocm_smi) : outcome Unit :=
  dev <- _amd_device_fetch_energy smi u ;; Done (write_file dev).

(** An MI250 pair: the holder of the peer link, then the unit it points
    to, whose own turn in the cycle only writes its file. *)
Definition mi250_step (pair : Unit * Unit) (smi : rocm_smi) : outcome (Unit * Unit) :=
  '(dev, p) <- _amd_device_fetch_energy_mi250 smi (fst pair) (Some (snd pair)) ;;
  match p with
  | Some p => Done (write_file dev, write_file p)
  | None => Undefined
  end.

Definition nvidia_step (u : Unit) (dcgm : Z -> Z) : outcome Unit :=
  _nvidia_device_update_files dcgm u.

Definition intel_step (u : Unit) (zes : Z -> Z) : outcome Unit :=
  _intel_device_update_files zes u.

Definition mock_step (u : Unit) (_ : unit) : outcome Unit :=
  _mock_update_files u.

Lemma to_uint64_t_range (x : double) (z : Z) :
  to_uint64_t x = Done z -> 0 <= z < 2 ^ 64.
Proof.
  unfold to_uint64_t, B64.to_u64.
  destruct x as [s | s | | [|] m e]; try discriminate.
  - intros H. injection H as <-. lia.
  - destruct (Z.eqb_spec (Z.shiftl (Zpos m) e) 0) as [_ | _]; [| discriminate].
    intros H. injection H as <-. lia.
  - destruct (Z.ltb_spec (Z.shiftl (Zpos m) e) (2 ^ 64)) as [Hlt | _];
      [| discriminate].
    intros H. injection H as <-. split; [| assumption].
    apply Z.shiftl_nonneg. lia.
Qed.

(** The invariants the cycles keep. *)
Definition acc_in_range (u : Unit) : Prop := 0 <= energy_acc u < 2 ^ 64.

Definition baseline_inv (u : Unit) : Prop :=
  acc_in_range u /\ (energy_raw u = 0 -> energy_interval u = 0) /\
  0 <= energy_raw u.

Definition mock_inv (u : Unit) : Prop :=
  acc_in_range u /\ 0 <= energy_interval u.

Definition pair_inv (pair : Unit * Unit) : Prop :=
  acc_in_range (fst pair) /\ acc_in_range (snd pair) /\
  (energy_raw (fst pair) = 0 ->
   energy_interval (fst pair) = 0 /\ energy_interval (snd pair) = 0) /\
  0 <= energy_raw (fst pair).

Lemma acc_in_range_u64 (u : Unit) (z : Z) :
  acc_in_range (set_energy_acc (u64 z) u).
Proof. unfold acc_in_range. cbn. apply u64_range. Qed.

Lemma cpu_fetch_frame (to_core : Z -> Z) (hw : msr_device) (u f : Unit)
    (v : vendor) (rd : list Z) :
  _cpu_package_fetch_energy to_core hw u v = Done (f, rd) ->
  energy_acc f = energy_acc u /\ energy_interval f = energy_interval u.
Proof.
  unfold _cpu_package_fetch_energy.
  destruct v; cbn [bind]; try discriminate;
    (destruct (read_msr hw _ _) as [raw | | |]; cbn [bind]; try discriminate;
     destruct (B64.gt _ _);
     [ intros H; injection H as <- <-; split; reflexivity
     | destruct (read_msr hw _ _) as [msr_unit | | |]; cbn [bind];
       try discriminate; intros H; injection H as <- <-; split; reflexivity ]).
Qed.

Lemma dram_fetch_frame (to_core : Z -> Z) (hw : msr_device) (u f : Unit)
    (v : vendor) (rd : list Z) :
  _dram_package_fetch_energy to_core hw u v = Done (f, rd) ->
  energy_acc f = energy_acc u /\ energy_interval f = energy_interval u.
Proof.
  unfold _dram_package_fetch_energy.
  destruct v; cbn [bind]; try discriminate;
    (destruct (read_msr hw _ _) as [raw | | |]; cbn [bind]; try discriminate;
     destruct (B64.gt _ _);
     [ intros H; injection H as <- <-; split; reflexivity
     | destruct (read_msr hw _ _) as [msr_unit | | |]; cbn [bind];
       try discriminate; intros H; injection H as <- <-; split; reflexivity ]).
Qed.

Lemma cpu_step_law (to_core : Z -> Z) (v : vendor) (u u' : Unit) (hw : msr_device) :
  acc_in_range u -> cpu_step to_core v u hw = Done u' ->
  acc_in_range u' /\
  energy_acc u' = u64 (energy_acc u + energy_interval u') /\
  0 <= energy_interval u'.
Proof.
  intros _. unfold cpu_step, _cpu_package_update_files.
  destruct (_cpu_package_fetch_energy to_core hw u v) as [[f rd] | | |] eqn:Hf;
    cbn [bind]; try discriminate.
  destruct (cpu_fetch_frame _ _ _ _ _ _ Hf) as [Ha _].
  destruct (to_uint64_t _) as [iv | | |] eqn:Hiv; cbn [bind]; try discriminate.
  intros H. injection H as <-. apply to_uint64_t_range in Hiv.
  unfold acc_in_range. cbn. rewrite Ha.
  pose proof (u64_range (energy_acc u + iv)). repeat split; lia.
Qed.

Lemma dram_step_law (to_core : Z -> Z) (v : vendor) (u u' : Unit) (hw : msr_device) :
  acc_in_range u -> dram_step to_core v u hw = Done u' ->
  acc_in_range u' /\
  energy_acc u' = u64 (energy_acc u + energy_interval u') /\
  0 <= energy_interval u'.
Proof.
  intros _. unfold dram_step, _dram_package_update_files.
  destruct (_dram_package_fetch_energy to_core hw u v) as [[f rd] | | |] eqn:Hf;
    cbn [bind]; try discriminate.
  destruct (dram_fetch_frame _ _ _ _ _ _ Hf) as [Ha _].
  destruct (to_uint64_t _) as [iv | | |] eqn:Hiv; cbn [bind]; try discriminate.
  intros H. injection H as <-. apply to_uint64_t_range in Hiv.
  unfold acc_in_range. cbn. rewrite Ha.
  pose proof (u64_range (energy_acc u + iv)). repeat split; lia.
Qed.

Lemma assert_geb_done (a b : Z) :
  assert (a >=? b) = Done tt -> b <= a.
Proof.
  unfold assert. destruct (Z.geb_spec a b); [lia | discriminate].
Qed.

Lemma amd_step_law (u u' : Unit) (smi : rocm_smi) :
  baseline_inv u -> amd_step u smi = Done u' ->
  baseline_inv u' /\
  energy_acc u' = u64 (energy_acc u + energy_interval u') /\
  0 <= energy_interval u'.
Proof.
  intros (Hr & H0 & Hraw). unfold amd_step, _amd_device_fetch_energy.
  destruct (ec_success _); cbn [negb]; [| discriminate].
  cbn [energy_raw set_timestamp set_energy_raw].
  destruct (assert _) as [[] | | |] eqn:Has; cbn [bind]; try discriminate.
  apply assert_geb_done in Has.
  pose proof (u64_range (ec_power (rsmi_dev_energy_count_get smi (id u)))) as Hu.
  destruct (Z.eqb_spec (energy_raw u) 0) as [Hz | Hnz].
  - intros H. injection H as <-. specialize (H0 Hz).
    unfold baseline_inv, acc_in_range in *. cbn -[Z.pow u64].
    rewrite H0, Z.add_0_r, (u64_small (energy_acc u)) by lia.
    repeat split; lia.
  - destruct (to_uint64_t _) as [iv | | |] eqn:Hiv; cbn [bind]; try discriminate.
    intros H. injection H as <-. apply to_uint64_t_range in Hiv.
    unfold baseline_inv, acc_in_range in *. cbn -[Z.pow u64].
    pose proof (u64_range (energy_acc u + iv)). repeat split; lia.
Qed.

Lemma nvidia_step_law (u u' : Unit) (dcgm : Z -> Z) :
  baseline_inv u -> nvidia_step u dcgm = Done u' ->
  baseline_inv u' /\
  energy_acc u' = u64 (energy_acc u + energy_interval u') /\
  0 <= energy_interval u'.
Proof.
  intros (Hr & H0 & Hraw). unfold nvidia_step, _nvidia_device_update_files.
  cbn [energy_raw set_energy_raw].
  pose proof (u64_range (dcgm (id u))) as Hu.
  destruct (Z.eqb_spec (energy_raw u) 0) as [Hz | Hnz].
  - intros H. injection H as <-. specialize (H0 Hz).
    unfold baseline_inv, acc_in_range in *. cbn -[Z.pow u64].
    rewrite H0, Z.add_0_r, (u64_small (energy_acc u)) by lia.
    repeat split; lia.
  - destruct (assert _) as [[] | | |] eqn:Has; cbn [bind]; try discriminate.
    apply assert_geb_done in Has.
    destruct (to_uint64_t _) as [iv | | |] eqn:Hiv; cbn [bind]; try discriminate.
    intros H. injection H as <-. apply to_uint64_t_range in Hiv.
    unfold baseline_inv, acc_in_range in *. cbn -[Z.pow u64].
    pose proof (u64_range (energy_acc u + iv)). repeat split; lia.
Qed.

Lemma intel_step_law (u u' : Unit) (zes : Z -> Z) :
  baseline_inv u -> intel_step u zes = Done u' ->
  baseline_inv u' /\
  energy_acc u' = u64 (energy_acc u + energy_interval u') /\
  0 <= energy_interval u'.
Proof.
  intros (Hr & H0 & Hraw). unfold intel_step, _intel_device_update_files.
  cbn [energy_raw set_energy_raw].
  pose proof (u64_range (zes (id u))) as Hu.
  destruct (Z.eqb_spec (energy_raw u) 0) as [Hz | Hnz].
  - intros H. injection H as <-. specialize (H0 Hz).
    unfold baseline_inv, acc_in_range in *. cbn -[Z.pow u64].
    rewrite H0, Z.add_0_r, (u64_small (energy_acc u)) by lia.
    repeat split; lia.
  - destruct (assert _) as [[] | | |] eqn:Has; cbn [bind]; try discriminate.
    apply assert_geb_done in Has.
    destruct (to_uint64_t _) as [iv | | |] eqn:Hiv; cbn [bind]; try discriminate.
    intros H. injection H as <-. apply to_uint64_t_range in Hiv.
    cbn [model set_energy_interval set_energy_raw energy_interval].
    assert (Hhalf : 0 <= iv / 2) by (apply Z.div_pos; lia).
    destruct (model u =? MAX1550); unfold baseline_inv, acc_in_range in *; cbn -[Z.pow u64];
      match goal with
      | |- context [u64 ?z] => pose proof (u64_range z)
      end; repeat split; lia.
Qed.

Lemma mock_step_law (u u' : Unit) (i : unit) :
  mock_inv u -> mock_step u i = Done u' ->
  mock_inv u' /\
  energy_acc u' = u64 (energy_acc u + energy_interval u') /\
  0 <= energy_interval u'.
Proof.
  intros (Hr & Hi). unfold mock_step, _mock_update_files.
  intros H. injection H as <-. unfold mock_inv, acc_in_range in *. cbn -[Z.pow u64].
  pose proof (u64_range (energy_acc u + energy_interval u)). repeat split; lia.
Qed.

Lemma mi250_step_law (pair pair' : Unit * Unit) (smi : rocm_smi) :
  pair_inv pair -> mi250_step pair smi = Done pair' ->
  pair_inv pair' /\
  (energy_acc (fst pair') = u64 (energy_acc (fst pair) + energy_interval (fst pair')) /\
   0 <= energy_interval (fst pair')) /\
  (energy_acc (snd pair') = u64 (energy_acc (snd pair) + energy_interval (snd pair')) /\
   0 <= energy_interval (snd pair')).
Proof.
  destruct pair as [h p]. intros (Hrh & Hrp & H0 & Hraw). cbn [fst snd] in *.
  unfold mi250_step, _amd_device_fetch_energy_mi250, _amd_device_fetch_activity.
  cbn [fst snd].
  destruct (bp_success (rsmi_dev_busy_percent_get smi (id h))); cbn [negb bind];
    [| discriminate].
  destruct (bp_success (rsmi_dev_busy_percent_get smi (id p))); cbn [negb bind];
    [| discriminate].
  cbn [id set_busy_percent].
  destruct (ec_success _); cbn [negb]; [| discriminate].
  cbn [energy_raw set_timestamp set_energy_raw set_energy_resolution set_busy_percent].
  destruct (assert _) as [[] | | |] eqn:Has; cbn [bind]; try discriminate.
  apply assert_geb_done in Has.
  pose proof (u64_range (ec_power (rsmi_dev_energy_count_get smi (id h)))) as Hu.
  destruct (Z.eqb_spec (energy_raw h) 0) as [Hz | Hnz].
  - cbn [bind]. intros H. injection H as <-. destruct (H0 Hz) as [Hh Hp].
    unfold pair_inv, acc_in_range in *. cbn -[Z.pow u64].
    rewrite Hh, Hp, !Z.add_0_r.
    rewrite (u64_small (energy_acc h)), (u64_small (energy_acc p)) by lia.
    repeat split; lia.
  - destruct (mi250_energy _ _ _) as [energy | | |]; cbn [bind]; try discriminate.
    destruct (mi250_elapsed_s _ _) as [elapsed | | |]; cbn [bind]; try discriminate.
    destruct (mi250_share _ _ _) as [iv | | |] eqn:Hiv; cbn [bind];
      try discriminate.
    destruct (mi250_share _ _ _) as [ivp | | |] eqn:Hivp in |- *; cbn [bind];
      try discriminate.
    intros H. injection H as <-.
    apply to_uint64_t_range in Hiv. apply to_uint64_t_range in Hivp.
    unfold pair_inv, acc_in_range in *. cbn -[Z.pow u64].
    pose proof (u64_range (energy_acc h + iv)).
    pose proof (u64_range (energy_acc p + ivp)). repeat split; lia.
Qed.

(** A unit as it enters its first cycle: nothing accumulated yet. *)
Definition fresh (u : Unit) : Prop :=
  energy_acc u = 0 /\ energy_interval u = 0 /\ 0 <= energy_raw u.

(** C3. A unit starts with [energy_acc = 0]. After N cycles that returned,
    [energy_acc] is the sum of the N values [energy_interval] took, on
    [uint64_t]; as long as that sum is below 2^64 it is the sum itself, and
    [energy_acc] did not decrease from one cycle to the next. This holds
    for CPU and DRAM packages, AMD GPUs (both units of an MI250 pair),
    NVIDIA and Intel GPUs, and mock units. *)
Theorem energy_acc_sums_intervals :
  (forall to_core v u,
     energy_acc u = 0 ->
     accumulation_law (cpu_step to_core v) energy_acc energy_interval u /\
     accumulation_law (dram_step to_core v) energy_acc energy_interval u) /\
  (forall u,
     fresh u ->
     accumulation_law amd_step energy_acc energy_interval u /\
     accumulation_law nvidia_step energy_acc energy_interval u /\
     accumulation_law intel_step energy_acc energy_interval u) /\
  (forall dev p,
     fresh dev -> fresh p ->
     accumulation_law mi250_step (fun s => energy_acc (fst s))
                      (fun s => energy_interval (fst s)) (dev, p) /\
     accumulation_law mi250_step (fun s => energy_acc (snd s))
                      (fun s => energy_interval (snd s)) (dev, p)) /\
  (forall u,
     energy_acc u = 0 -> 0 <= energy_interval u ->
     accumulation_law mock_step energy_acc energy_interval u).
Proof.
  split; [| split; [| split]].
  - intros to_core v u Hacc.
    assert (Hr : acc_in_range u) by (unfold acc_in_range; lia).
    split.
    + apply (accumulation_law_holds _ _ _ acc_in_range); auto.
      intros s i s'. apply cpu_step_law.
    + apply (accumulation_law_holds _ _ _ acc_in_range); auto.
      intros s i s'. apply dram_step_law.
  - intros u (Hacc & Hitv & Hraw).
    assert (Hb : baseline_inv u).
    { unfold baseline_inv, acc_in_range. repeat split; lia. }
    split; [| split].
    + apply (accumulation_law_holds _ _ _ baseline_inv); auto.
      * intros s Hs. apply Hs.
      * intros s i s'. apply amd_step_law.
    + apply (accumulation_law_holds _ _ _ baseline_inv); auto.
      * intros s Hs. apply Hs.
      * intros s i s'. apply nvidia_step_law.
    + apply (accumulation_law_holds _ _ _ baseline_inv); auto.
      * intros s Hs. apply Hs.
      * intros s i s'. apply intel_step_law.
  - intros dev p (Hacc & Hitv & Hraw) (Hacc' & Hitv' & Hraw').
    assert (Hp : pair_inv (dev, p)).
    { unfold pair_inv, acc_in_range. cbn [fst snd]. repeat split; lia. }
    split.
    + apply (accumulation_law_holds _ _ _ pair_inv); auto.
      * intros s Hs. apply Hs.
      * intros s i s' Hs Hstep.
        destruct (mi250_step_law s s' i Hs Hstep) as (H1 & H2 & _).
        split; [exact H1 | exact H2].
    + apply (accumulation_law_holds _ _ _ pair_inv); auto.
      * intros s Hs. apply Hs.
      * intros s i s' Hs Hstep.
        destruct (mi250_step_law s s' i Hs Hstep) as (H1 & _ & H2).
        split; [exact H1 | exact H2].
  - intros u Hacc Hitv.
    apply (accumulation_law_holds _ _ _ mock_inv).
    + intros s Hs. apply Hs.
    + intros s i s'. apply mock_step_law.
    + unfold mock_inv, acc_in_range. split; lia.
Qed.

(** Three cycles of an NVIDIA GPU whose counter reads 5000, 8500 and
    12000 mJ: nothing on the first, then 3 J and 3 J. *)
Example nvidia_three_cycles :
  exists trace,
    cycles nvidia_step Unit_zero [fun _ => 5000; fun _ => 8500; fun _ => 12000]
    = Done trace /\
    map energy_interval trace = [0; 3; 3] /\
    map energy_acc trace = [0; 3; 6].
Proof. eexists. vm_compute. repeat split; reflexivity. Qed.

(** The same three cycles, through the theorem: 6 J accumulated, the sum
    of the three intervals, without ever going down. *)
Lemma energy_acc_sums_intervals_witness :
  exists trace,
    cycles nvidia_step Unit_zero [fun _ => 5000; fun _ => 8500; fun _ => 12000]
    = Done trace /\
    total energy_interval trace = 6 /\
    energy_acc (last trace Unit_zero) = 6 /\
    nondecreasing (0 :: map energy_acc trace).
Proof.
  destruct energy_acc_sums_intervals as (_ & Hgpu & _).
  destruct (Hgpu Unit_zero) as (_ & Hnv & _).
  { unfold fresh. cbn. lia. }
  assert (exists trace,
            cycles nvidia_step Unit_zero
              [fun _ => 5000; fun _ => 8500; fun _ => 12000] = Done trace /\
            total energy_interval trace = 6) as (trace & Hrun & Htot)
    by (eexists; vm_compute; split; reflexivity).
  exists trace. split; [exact Hrun |]. split; [exact Htot |].
  destruct (Hnv _ _ Hrun) as (_ & _ & Hsum). rewrite Htot in Hsum.
  destruct Hsum as [Hacc Hmono]; [cbn; lia |].
  split; [exact Hacc | exact Hmono].
Defined.

(** ** C6, C7, C8: the overhead estimator *)

(** The interval energies [compute_overhead] adds up, and their sum. *)
Definition unit_intervals (ec : Ecounter_t) : list Z :=
  flat_map (fun c => map energy_interval
                         (firstn (Z.to_nat (n_siblings c)) (siblings c)))
           (firstn (Z.to_nat INTERFACES_MAX) (components ec)).

Definition plain_sum (l : list Z) : Z := fold_right Z.add 0 l.

Lemma plain_sum_app (l1 l2 : list Z) :
  plain_sum (l1 ++ l2) = plain_sum l1 + plain_sum l2.
Proof. induction l1 as [| a l1 IH]; cbn; [reflexivity | unfold plain_sum in *; lia]. Qed.

Lemma fold_u32_units (l : list Unit) (a : Z) :
  0 <= a < 2 ^ 32 ->
  fold_left (fun a u => u32 (a + energy_interval u)) l a
  = u32 (a + plain_sum (map energy_interval l)).
Proof.
  revert a. induction l as [| u l IH]; intros a Ha; cbn [fold_left map plain_sum fold_right].
  - rewrite Z.add_0_r, u32_small; trivial.
  - rewrite IH by apply u32_range. unfold u32.
    rewrite Zplus_mod_idemp_l. f_equal. fold (plain_sum (map energy_interval l)). lia.
Qed.

Lemma fold_u32_components (cs : list Component) (a : Z) :
  0 <= a < 2 ^ 32 ->
  fold_left sum_siblings cs a
  = u32 (a + plain_sum (flat_map (fun c => map energy_interval
                 (firstn (Z.to_nat (n_siblings c)) (siblings c))) cs)).
Proof.
  revert a. induction cs as [| c cs IH]; intros a Ha; cbn [fold_left flat_map].
  - cbn. rewrite Z.add_0_r, u32_small; trivial.
  - unfold sum_siblings at 2. rewrite fold_u32_units by trivial.
    rewrite IH by apply u32_range. rewrite plain_sum_app. unfold u32.
    rewrite Zplus_mod_idemp_l. f_equal. lia.
Qed.

(** The accumulator of the two loops is the sum of the interval energies
    of all units, on [uint32_t]. *)
Lemma sum_energy_interval_spec (ec : Ecounter_t) :
  sum_energy_interval ec = u32 (plain_sum (unit_intervals ec)).
Proof.
  unfold sum_energy_interval, unit_intervals.
  rewrite fold_u32_components by lia. reflexivity.
Qed.

Lemma MIN_min (a b : Z) : MIN a b = Z.min b a.
Proof. unfold MIN. destruct (Z.ltb_spec a b); lia. Qed.

Lemma MAX_max (a b : Z) : MAX a b = Z.max b a.
Proof.
  unfold MAX. rewrite Z.gtb_ltb. destruct (Z.ltb_spec b a); lia.
Qed.

(** While the values fit [uint32_t]: the command printed a positive node
    power, [errno] clear, and the measured power [P_measured], the sum of
    the interval energies of all units divided by the interval length (an
    integer division, as all these quantities are [uint32_t]), is strictly
    positive. Then the estimator returns, with
    [overhead = max(P_node - P_measured, 0)], [min' = min(min, overhead)],
    [max' = max(max, overhead)], [avg' = (avg * n + overhead) / (n + 1)]
    and [n' = n + 1]. *)
Lemma overhead_statistics_in_range :
  forall (ec : Ecounter_t) (output : command_output),
    let P_measured := plain_sum (unit_intervals ec) / interval ec in
    let P_node := u32 (output_strtol output) in
    let o := overhead ec in
    let ov := Z.max (P_node - P_measured) 0 in
    output_errno output = false ->
    0 < output_strtol output ->
    0 < interval ec ->
    0 <= plain_sum (unit_intervals ec) < 2 ^ 32 ->
    0 < P_measured ->
    0 <= mov_average o -> 0 <= n_samples o ->
    mov_average o * n_samples o + ov < 2 ^ 32 ->
    n_samples o + 1 < 2 ^ 32 ->
    exists ec',
      compute_overhead ec (Some output) = Done ec' /\
      power_interval ec = P_measured /\
      overhead_interval ec P_node = ov /\
      0 <= ov /\
      min (overhead ec') = Z.min (min o) ov /\
      max (overhead ec') = Z.max (max o) ov /\
      mov_average (overhead ec') = (mov_average o * n_samples o + ov) / (n_samples o + 1) /\
      n_samples (overhead ec') = n_samples o + 1 /\
      components ec' = components ec /\ interval ec' = interval ec.
Proof.
  intros ec output P_measured P_node o ov Herr Hpow Hitv Hsum HP Havg Hn Hno Hn1.
  assert (HPI : power_interval ec = P_measured).
  { unfold power_interval. rewrite sum_energy_interval_spec, u32_small by lia.
    reflexivity. }
  pose proof (u32_range (output_strtol output)) as Hnode. fold P_node in Hnode.
  assert (HPb : P_measured < 2 ^ 32).
  { unfold P_measured. apply Z.div_lt_upper_bound; nia. }
  assert (Hov : overhead_interval ec P_node = ov).
  { unfold overhead_interval. rewrite HPI.
    destruct (Z.ltb_spec P_measured P_node).
    - rewrite u32_small by lia. unfold ov. lia.
    - unfold ov. lia. }
  assert (Hov0 : 0 <= ov < 2 ^ 32) by (unfold ov; lia).
  unfold compute_overhead, fetch_node_power. rewrite Herr.
  destruct (Z.leb_spec (output_strtol output) 0); [lia |]. cbn [orb bind].
  destruct (Z.eqb_spec (interval ec) 0); [lia |].
  rewrite HPI, Hov. fold P_node. rewrite Hov.
  destruct (Z.eqb_spec P_measured 0); [lia |].
  fold o. rewrite (u32_small (n_samples o + 1)) by lia.
  destruct (Z.eqb_spec (n_samples o + 1) 0); [lia |].
  eexists. split; [reflexivity |]. cbn [overhead min max mov_average n_samples
                                        components interval].
  rewrite MIN_min, MAX_max.
  rewrite (u32_small (mov_average o * n_samples o)) by nia.
  rewrite u32_small by lia. repeat split; lia.
Qed.

Definition scenario_ecounter : Ecounter_t :=
  mkEcounter
    [mkComponent [set_energy_interval 2500 Unit_zero] CPU INTEL 1 false]
    10 (mkOverhead INT_MAX 0 0 0).

(** The scenario of the specification: node power 300 W, 2500 J measured
    over 10 s, an overhead of 50 W. *)
Example overhead_statistics_scenario :
  exists ec',
    compute_overhead scenario_ecounter (printed 300) = Done ec' /\
    overhead ec' = mkOverhead 50 50 50 1.
Proof.
  destruct (overhead_statistics_in_range scenario_ecounter (mkOutput 300 false))
    as (ec' & Hrun & _); try (vm_compute; intuition congruence).
  exists ec'. split; [exact Hrun |].
  vm_compute in Hrun. injection Hrun as <-. reflexivity.
Qed.

(** One processor package that used [joules] over the interval. *)
Definition one_cpu (joules : Z) : list Component :=
  [mkComponent [set_energy_interval joules Unit_zero] CPU INTEL 1 false].

(** A steady node: 5250 W at the node around a processor at 2500 J per
    10 s, an overhead of 5000 W at every cycle. *)
Definition steady_sample : list Component * option command_output :=
  (one_cpu 2500, printed 5250).

Definition steady_state (n : Z) : Ecounter_t :=
  mkEcounter (one_cpu 2500) 10 (mkOverhead 5000 5000 5000 n).

(** One more steady cycle, as long as [5000 * (n + 1)] fits [uint32_t]. *)
Lemma steady_step (n : Z) :
  1 <= n -> n + 1 <= 858993 ->
  compute_overhead (steady_state n) (printed 5250) = Done (steady_state (n + 1)).
Proof.
  intros H1 Hn.
  assert (Hsum : plain_sum (unit_intervals (steady_state n)) = 2500) by reflexivity.
  destruct (overhead_statistics_in_range (steady_state n) (mkOutput 5250 false))
    as (ec' & Hrun & _ & _ & _ & Hmin & Hmax & Havg & Hcount & Hcomps & Hitv);
    try reflexivity; try (cbn; lia);
    try (rewrite Hsum; change (u32 (output_strtol (mkOutput 5250 false))) with 5250;
         cbn [steady_state overhead mov_average n_samples interval];
         change (Z.max (5250 - 2500 / 10) 0) with 5000; lia).
  unfold printed. rewrite Hrun. f_equal.
  destruct ec' as [comps itv [mn mx avg cnt]].
  cbn [overhead min max mov_average n_samples components interval steady_state]
    in Hmin, Hmax, Havg, Hcount, Hcomps, Hitv.
  change (plain_sum (unit_intervals (steady_state n)) / 10) with 250 in Hmin, Hmax, Havg.
  change (Z.max (u32 (output_strtol (mkOutput 5250 false)) - 250) 0) with 5000
    in Hmin, Hmax, Havg.
  replace (5000 * n + 5000) with (5000 * (n + 1)) in Havg by lia.
  rewrite Z.div_mul in Havg by lia.
  unfold steady_state. subst. reflexivity.
Qed.

Lemma steady_cycles (m : nat) :
  forall n : Z,
    1 <= n -> n + Z.of_nat m <= 858993 ->
    overhead_cycles (steady_state n) (repeat steady_sample m)
    = Done (steady_state (n + Z.of_nat m)).
Proof.
  induction m as [| m IH]; intros n H1 Hn.
  - cbn [repeat overhead_cycles Z.of_nat]. rewrite Z.add_0_r. reflexivity.
  - cbn [repeat overhead_cycles steady_sample].
    change (mkEcounter (one_cpu 2500) (interval (steady_state n))
                       (overhead (steady_state n))) with (steady_state n).
    rewrite steady_step by lia. cbn [bind].
    rewrite IH by lia. f_equal. f_equal. lia.
Qed.

(** From [init], [n] steady cycles leave 5000 W as minimum, maximum and
    average, for every [n] from 1 to 858993. *)
Lemma steady_run (n : nat) :
  1 <= Z.of_nat n <= 858993 ->
  overhead_cycles (init 10 (one_cpu 2500)) (repeat steady_sample n)
  = Done (steady_state (Z.of_nat n)).
Proof.
  destruct n as [| m]; [lia |]. intros Hn.
  cbn [repeat overhead_cycles steady_sample].
  change (compute_overhead _ (printed 5250)) with (Done (steady_state 1)).
  cbn [bind]. rewrite steady_cycles by lia. f_equal. f_equal. lia.
Qed.

(** C6. [compute_overhead] writes the update of the claim,
    [(mov_average * n_samples + overhead_interval) / (n_samples + 1)], and
    evaluates it on [uint32_t]. A node that stays at 5250 W around a
    processor at 2500 J per 10 s has an overhead of 5000 W at every cycle:
    after 858993 cycles from [init] the minimum, the maximum and the
    average are 5000 W. One more such cycle is not degenerate (250 W
    measured), takes the overhead 5000 W, keeps [min] and [max] and counts
    the sample, and leaves an average of 0 W where the update of the claim
    gives 5000 W: [5000 * 858993 + 5000] does not fit [uint32_t]. *)
Theorem overhead_statistics_update :
  exists ec',
    overhead_cycles (init 10 (one_cpu 2500)) (repeat steady_sample (Z.to_nat 858993))
    = Done (steady_state 858993) /\
    overhead (steady_state 858993) = mkOverhead 5000 5000 5000 858993 /\
    compute_overhead (steady_state 858993) (printed 5250) = Done ec' /\
    power_interval (steady_state 858993) = 250 /\
    overhead_interval (steady_state 858993) (u32 5250) = 5000 /\
    min (overhead ec') = 5000 /\
    max (overhead ec') = 5000 /\
    n_samples (overhead ec') = 858994 /\
    mov_average (overhead ec') = 0 /\
    (5000 * 858993 + 5000) / (858993 + 1) = 5000 /\
    2 ^ 32 <= 5000 * 858993 + 5000.
Proof.
  eexists. split.
  - rewrite steady_run by lia. rewrite Z2Nat.id by lia. reflexivity.
  - vm_compute. repeat split; try reflexivity. discriminate.
Qed.

(** C7. A cycle whose measured power is zero changes nothing: whenever the
    estimator returns from such a cycle, [min], [max], [mov_average] and
    [n_samples] are what they were; and it does return as soon as the
    command printed a positive number, [errno] clear, and the interval is
    not zero. *)
Theorem overhead_degenerate_sample :
  forall ec : Ecounter_t,
    power_interval ec = 0 ->
    (forall cmd_output ec',
       compute_overhead ec cmd_output = Done ec' ->
       min (overhead ec') = min (overhead ec) /\
       max (overhead ec') = max (overhead ec) /\
       mov_average (overhead ec') = mov_average (overhead ec) /\
       n_samples (overhead ec') = n_samples (overhead ec)) /\
    (forall output,
       output_errno output = false -> 0 < output_strtol output ->
       interval ec <> 0 ->
       compute_overhead ec (Some output) = Done ec).
Proof.
  intros ec HP. split.
  - intros cmd_output ec'. unfold compute_overhead.
    destruct (fetch_node_power cmd_output) as [node | | |]; cbn [bind];
      try discriminate.
    destruct (interval ec =? 0); [discriminate |].
    rewrite HP. cbn [Z.eqb]. intros H. injection H as <-. auto.
  - intros output Herr Hpow Hitv. unfold compute_overhead, fetch_node_power.
    rewrite Herr. destruct (Z.leb_spec (output_strtol output) 0); [lia |].
    cbn [orb bind].
    destruct (Z.eqb_spec (interval ec) 0); [contradiction |].
    rewrite HP. reflexivity.
Qed.

Definition idle_ecounter : Ecounter_t :=
  mkEcounter
    [mkComponent [set_energy_interval 0 Unit_zero] CPU INTEL 1 false]
    10 (mkOverhead 50 50 50 1).

Lemma overhead_degenerate_sample_witness :
  compute_overhead idle_ecounter (printed 300) = Done idle_ecounter.
Proof.
  destruct (overhead_degenerate_sample idle_ecounter eq_refl) as [_ H].
  apply H; [reflexivity | cbn; lia | discriminate].
Defined.

(** The first sample that is not degenerate lowers [min] to its overhead
    when that overhead is below the [INT_MAX] that [init] stored. *)
Lemma overhead_min_lowered (comps : list Component) (interval_arg power : Z) :
  let ec := init interval_arg comps in
  let ov := overhead_interval ec (u32 power) in
  0 < power -> interval_arg <> 0 -> power_interval ec <> 0 ->
  ov < INT_MAX ->
  exists ec',
    compute_overhead ec (printed power) = Done ec' /\
    min (overhead ec') = ov /\
    min (overhead ec') < min (overhead ec).
Proof.
  intros ec ov Hpow Hitv HP Hov.
  unfold compute_overhead, fetch_node_power, printed.
  cbn [output_errno output_strtol orb].
  destruct (Z.leb_spec power 0); [lia |]. cbn [bind].
  change (interval ec) with interval_arg.
  destruct (Z.eqb_spec interval_arg 0); [contradiction |].
  destruct (Z.eqb_spec (power_interval ec) 0); [contradiction |].
  change (u32 (n_samples (overhead ec) + 1) =? 0) with false. cbv iota.
  eexists. split; [reflexivity |].
  cbn [overhead min]. fold ov. rewrite MIN_min.
  change (min (overhead ec)) with INT_MAX. lia.
Qed.

(** The overhead of a sample that is not degenerate is below the largest
    [uint32_t]: a [min] that started there would be lowered by every first
    sample. *)
Lemma overhead_below_uint32_max (ec : Ecounter_t) (power : Z) :
  0 < interval ec -> power_interval ec <> 0 ->
  0 <= overhead_interval ec (u32 power) < UINT32_MAX.
Proof.
  intros Hitv HP. pose proof (u32_range power) as Hn.
  assert (Hs : 0 <= sum_energy_interval ec).
  { rewrite sum_energy_interval_spec. apply u32_range. }
  assert (H0 : 0 <= power_interval ec) by (apply Z.div_pos; lia).
  unfold overhead_interval, UINT32_MAX.
  destruct (Z.ltb_spec (power_interval ec) (u32 power)); [| lia].
  rewrite u32_small by lia. lia.
Qed.

Definition first_ecounter : Ecounter_t :=
  init 10 [mkComponent [set_energy_interval 2500 Unit_zero] CPU INTEL 1 false].

Example overhead_min_first_sample :
  exists ec',
    compute_overhead first_ecounter (printed 300) = Done ec' /\
    min (overhead ec') = 50.
Proof.
  destruct (overhead_min_lowered
              [mkComponent [set_energy_interval 2500 Unit_zero] CPU INTEL 1 false]
              10 300) as (ec' & Hrun & Hmin & _).
  - lia.
  - discriminate.
  - vm_compute. discriminate.
  - vm_compute. reflexivity.
  - exists ec'. split; [exact Hrun |]. rewrite Hmin. reflexivity.
Qed.

(** C8. [init] stores [INT_MAX] = 2147483647 in the [uint32_t] field [min],
    where the largest value of that type is 4294967295. A first sample
    with a node power of 3000000000 W against 250 W measured is not
    degenerate and has an overhead of 2999999750 W: [max] takes it, [min]
    stays at [INT_MAX], neither lowered nor equal to the overhead of the
    sample. *)
Theorem overhead_min_initialization :
  min (overhead first_ecounter) = INT_MAX /\
  INT_MAX < UINT32_MAX /\
  exists ec',
    compute_overhead first_ecounter (printed 3000000000) = Done ec' /\
    power_interval first_ecounter = 250 /\
    overhead_interval first_ecounter (u32 3000000000) = 2999999750 /\
    min (overhead ec') = 2147483647 /\
    max (overhead ec') = 2999999750 /\
    n_samples (overhead ec') = 1.
Proof.
  split; [reflexivity |]. split; [reflexivity |].
  eexists. vm_compute. repeat split; reflexivity.
Qed.

(** ** C10: the Intel dual-tile split *)

Lemma IZR_pow2_52 : IZR (2 ^ 52) = 4503599627370496%R.
Proof. reflexivity. Qed.

(** Microjoules to Joules: the quotient by [1E6], computed on doubles and
    converted back, is the integer quotient. *)
Lemma microjoules_to_joules (delta : Z) :
  0 <= delta < 2 ^ 52 ->
  B64.to_u64 (B64.div (B64.of_uint delta) B64.c_1E6) = Some (delta / 1000000).
Proof.
  intros Hd. destruct (Z.eq_dec delta 0) as [-> | Hnz]; [reflexivity |].
  destruct (of_uint_exact delta ltac:(lia)) as [Hx Hxv].
  destruct (of_uint_exact 1000000 ltac:(lia)) as [Hy Hyv].
  fold B64.c_1E6 in Hy, Hyv.
  pose proof (div_rounds _ _ _ _ _ _ Hx Hy ltac:(lia) ltac:(lia))
    as (Hfin & Herr & Hlow & _).
  rewrite Hxv, Hyv in Herr, Hlow.
  set (q := B64.div (B64.of_uint delta) B64.c_1E6) in *.
  set (n := delta / 1000000).
  pose proof (Z.mul_div_le delta 1000000 ltac:(lia)) as H1.
  pose proof (Z.mul_succ_div_gt delta 1000000 ltac:(lia)) as H2.
  fold n in H1, H2.
  assert (Hn : 0 <= n) by (apply Z.div_pos; lia).
  assert (H1R : (1000000 * IZR n <= IZR delta)%R).
  { rewrite <- mult_IZR. apply IZR_le. lia. }
  assert (H2R : (IZR delta + 1 <= 1000000 * (IZR n + 1))%R).
  { rewrite <- (plus_IZR n 1), <- mult_IZR, <- plus_IZR. apply IZR_le. lia. }
  assert (HdR : (IZR delta < 4503599627370496)%R).
  { rewrite <- IZR_pow2_52. apply IZR_lt. lia. }
  assert (HdR0 : (0 < IZR delta)%R) by (apply IZR_lt; lia).
  apply (to_u64_floor q _ _ n Hfin); [| lia].
  split.
  - apply Hlow; [lia | lra].
  - rewrite IZR_pow2_52 in Herr.
    pose proof (Rle_abs (B64.B2R q - IZR delta / 1000000)) as Habs. lra.
Qed.

(** C10. An Intel GPU that has a baseline ([energy_raw] not zero) is
    sampled; the counter did not go back and moved by less than 2^52 uJ.
    The update returns; the interval energy is the microjoule delta
    converted to whole Joules and, for a Max 1550, halved by an integer
    division, whatever [busy_percent], [peer] and [timestamp] hold; it is
    added to [energy_acc] and the total written to the file. *)
Theorem intel_dual_tile_split :
  forall (zes_energy : Z -> Z) (dev : Unit),
    let raw := u64 (zes_energy (id dev)) in
    let joules := (raw - energy_raw dev) / 1000000 in
    0 < energy_raw dev -> energy_raw dev <= raw ->
    raw - energy_raw dev < 2 ^ 52 ->
    exists dev',
      _intel_device_update_files zes_energy dev = Done dev' /\
      energy_raw dev' = raw /\
      energy_interval dev' = (if model dev =? MAX1550 then joules / 2 else joules) /\
      energy_acc dev' = u64 (energy_acc dev + energy_interval dev') /\
      energy_fd dev' = Some (energy_acc dev').
Proof.
  intros zes_energy dev raw joules Hlast Hle Hlt.
  unfold _intel_device_update_files.
  cbn [energy_raw set_energy_raw]. fold raw.
  destruct (Z.eqb_spec (energy_raw dev) 0); [lia |].
  unfold assert. destruct (Z.geb_spec raw (energy_raw dev)); [| lia].
  cbn [bind]. rewrite (u64_small (raw - energy_raw dev)) by lia.
  unfold to_uint64_t. rewrite microjoules_to_joules by lia. cbn [bind].
  fold joules. cbn [model set_energy_interval set_energy_raw energy_interval].
  eexists. split; [reflexivity |].
  destruct (model dev =? MAX1550); cbn -[u64 Z.div]; repeat split; reflexivity.
Qed.

Definition max1550_unit : Unit :=
  set_energy_raw 1000000 (set_model MAX1550 Unit_zero).

(** 7 J on the counter of a Max 1550: 3 J for the tile. *)
Lemma intel_dual_tile_split_witness :
  exists dev',
    _intel_device_update_files (fun _ => 8000000) max1550_unit = Done dev' /\
    energy_interval dev' = 3 /\ energy_acc dev' = 3.
Proof.
  destruct (intel_dual_tile_split (fun _ => 8000000) max1550_unit)
    as (dev' & Hrun & _ & Hitv & Hacc & _); try (vm_compute; intuition congruence).
  exists dev'. split; [exact Hrun |]. rewrite Hacc, Hitv. split; reflexivity.
Defined.

(** ** C5: the share ratio *)

(** A double that is a multiple of 2^-60, as that multiple. *)
Definition fix60 (x : double) : option Z :=
  match x with
  | S754_zero _ => Some 0
  | S754_finite false m e =>
      if -60 <=? e then Some (Zpos m * 2 ^ (e + 60)) else None
  | _ => None
  end.

(** Zero, or a positive normal double with an exponent in [[-60, -52]]. *)
Definition ratio_shape (x : double) : bool :=
  match x with
  | S754_zero false => true
  | S754_finite false m e =>
      (2 ^ 52 <=? Zpos m) && (Zpos m <? 2 ^ 53) && (-60 <=? e) && (e <=? -52)
  | _ => false
  end.

(** What is checked of the ratio [r] of two utilizations and of
    [1.0 - r]: their shape, that both are in [[0, 1]], that they add up to
    1 within 2^-53, and that [r] is within 2^-53 of
    [0.5 + 0.005 * (a - b)]. *)
Definition ratio_checked (a b : Z) : bool :=
  let r := mi250_energy_ratio a b in
  let r' := B64.sub B64.one r in
  ratio_shape r && ratio_shape r' &&
  match fix60 r, fix60 r' with
  | Some z, Some z' =>
      (0 <=? z) && (z <=? 2 ^ 60) && (0 <=? z') && (z' <=? 2 ^ 60)
      && (Z.abs (z + z' - 2 ^ 60) <=? 2 ^ 7)
      && (Z.abs (1000 * z - (500 + 5 * (a - b)) * 2 ^ 60) <=? 1000 * 2 ^ 7)
  | _, _ => false
  end.

Definition percent_range : list Z := map Z.of_nat (seq 0 101).

Lemma ratio_table :
  forallb (fun a => forallb (ratio_checked a) percent_range) percent_range = true.
Proof. vm_compute. reflexivity. Qed.

Lemma percent_range_In (a : Z) : 0 <= a <= 100 -> In a percent_range.
Proof.
  intros Ha. unfold percent_range. rewrite <- (Z2Nat.id a) by lia.
  apply in_map, in_seq. lia.
Qed.

Lemma ratio_checked_all (a b : Z) :
  0 <= a <= 100 -> 0 <= b <= 100 -> ratio_checked a b = true.
Proof.
  intros Ha Hb. pose proof ratio_table as H.
  rewrite forallb_forall in H. specialize (H a (percent_range_In a Ha)).
  rewrite forallb_forall in H. exact (H b (percent_range_In b Hb)).
Qed.

Lemma fix60_B2R (x : double) (z : Z) :
  fix60 x = Some z -> B64.B2R x = (IZR z * bpow (-60))%R.
Proof.
  destruct x as [s | s | | [|] m e]; cbn [fix60 B64.B2R cond_Zopp]; try discriminate.
  - intros H. injection H as <-. lra.
  - destruct (Z.leb_spec (-60) e) as [Hle | Hle]; [| discriminate].
    intros H. assert (Hz : z = Zpos m * 2 ^ (e + 60)) by congruence.
    rewrite Hz. clear H Hz.
    rewrite mult_IZR, <- (bpow_IZR (e + 60)), Rmult_assoc, <- bpow_add by lia.
    f_equal. f_equal. lia.
Qed.

Lemma ratio_shape_cases (x : double) :
  ratio_shape x = true -> x = S754_zero false \/ finite_pos x (-60) (-52).
Proof.
  destruct x as [[|] | s | | [|] m e]; cbn [ratio_shape]; try discriminate; auto.
  rewrite !Bool.andb_true_iff, !Z.leb_le, Z.ltb_lt. intros H. right.
  exists m, e. repeat split; lia.
Qed.

Lemma Rabs_bound (x a : R) : (Rabs x <= a -> - a <= x <= a)%R.
Proof. unfold Rabs. destruct (Rcase_abs x); lra. Qed.

Lemma bpow_neg_inv (e : Z) : 0 <= e -> bpow (- e) = (/ IZR (2 ^ e))%R.
Proof.
  intros He. pose proof (bpow_opp_cancel e) as H. rewrite bpow_IZR in H by lia.
  assert (Hnz : IZR (2 ^ e) <> 0%R).
  { apply not_0_IZR. apply Z.pow_nonzero; lia. }
  transitivity ((IZR (2 ^ e) * bpow (- e)) * / IZR (2 ^ e))%R.
  - field. exact Hnz.
  - rewrite H. field. exact Hnz.
Qed.

Lemma bpow_m60 : bpow (-60) = (/ 1152921504606846976)%R.
Proof. exact (bpow_neg_inv 60 ltac:(lia)). Qed.

Lemma bpow_m53 : bpow (-53) = (/ 9007199254740992)%R.
Proof. exact (bpow_neg_inv 53 ltac:(lia)). Qed.

(** The facts of the table, on real numbers. *)
Lemma ratio_facts (a b : Z) :
  0 <= a <= 100 -> 0 <= b <= 100 ->
  let r := mi250_energy_ratio a b in
  let r' := B64.sub B64.one r in
  ratio_shape r = true /\ ratio_shape r' = true /\
  (0 <= B64.B2R r <= 1)%R /\ (0 <= B64.B2R r' <= 1)%R /\
  (Rabs (B64.B2R r + B64.B2R r' - 1) <= bpow (-53))%R /\
  (Rabs (B64.B2R r - (1 / 2 + 5 / 1000 * IZR (a - b))) <= bpow (-53))%R.
Proof.
  intros Ha Hb r r'. pose proof (ratio_checked_all a b Ha Hb) as H.
  unfold ratio_checked in H. fold r r' in H.
  rewrite !Bool.andb_true_iff in H. destruct H as [[Hs Hs'] H].
  destruct (fix60 r) as [z |] eqn:Hz; [| discriminate].
  destruct (fix60 r') as [z' |] eqn:Hz'; [| discriminate].
  rewrite !Bool.andb_true_iff, !Z.leb_le in H.
  destruct H as [[[[[H1 H2] H3] H4] H5] H6].
  rewrite (fix60_B2R _ _ Hz), (fix60_B2R _ _ Hz'), bpow_m60, bpow_m53.
  assert (HzR : (0 <= IZR z <= 1152921504606846976)%R).
  { split; [apply (IZR_le 0) | apply (IZR_le _ (2 ^ 60))]; lia. }
  assert (HzR' : (0 <= IZR z' <= 1152921504606846976)%R).
  { split; [apply (IZR_le 0) | apply (IZR_le _ (2 ^ 60))]; lia. }
  assert (H5R : (-128 <= IZR z + IZR z' - 1152921504606846976 <= 128)%R).
  { rewrite <- plus_IZR, <- minus_IZR.
    split; [apply (IZR_le (-128)) | apply (IZR_le _ 128)]; lia. }
  assert (H6R : (-128000 <= 1000 * IZR z
                 - (500 + 5 * IZR (a - b)) * 1152921504606846976 <= 128000)%R).
  { change 1152921504606846976%R with (IZR (2 ^ 60)).
    rewrite <- (mult_IZR 1000), <- (mult_IZR 5), <- (plus_IZR 500), <- mult_IZR,
      <- minus_IZR.
    split; [apply (IZR_le (-128000)) | apply (IZR_le _ 128000)]; lia. }
  repeat split; trivial; try lra; apply Rabs_le; lra.
Qed.

(** C5, as the code has it. For utilizations in [[0, 100]] the ratio, which
    the code evaluates on doubles as [0.005*a - 0.005*b + 0.5], is within
    2^-53 of [0.5 + 0.005 * (a - b)], lies in [[0, 1]], and is strictly
    larger for a strictly larger difference. *)
Theorem share_ratio_in_range :
  forall a b a' b' : Z,
    0 <= a <= 100 -> 0 <= b <= 100 -> 0 <= a' <= 100 -> 0 <= b' <= 100 ->
    (Rabs (B64.B2R (mi250_energy_ratio a b) - (1 / 2 + 5 / 1000 * IZR (a - b)))
     <= bpow (-53))%R /\
    (0 <= B64.B2R (mi250_energy_ratio a b) <= 1)%R /\
    (a - b < a' - b' ->
     (B64.B2R (mi250_energy_ratio a b) < B64.B2R (mi250_energy_ratio a' b'))%R).
Proof.
  intros a b a' b' Ha Hb Ha' Hb'.
  destruct (ratio_facts a b Ha Hb) as (_ & _ & Hr & _ & _ & Herr).
  destruct (ratio_facts a' b' Ha' Hb') as (_ & _ & _ & _ & _ & Herr').
  split; [exact Herr |]. split; [exact Hr |].
  intros Hlt.
  assert (Hd : (IZR (a - b) + 1 <= IZR (a' - b'))%R).
  { rewrite <- (plus_IZR _ 1). apply IZR_le. lia. }
  rewrite bpow_m53 in Herr, Herr'.
  apply Rabs_bound in Herr. apply Rabs_bound in Herr'. lra.
Qed.

Lemma share_ratio_in_range_witness :
  (0 <= B64.B2R (mi250_energy_ratio 60 40) <= 1)%R /\
  (B64.B2R (mi250_energy_ratio 40 60) < B64.B2R (mi250_energy_ratio 60 40))%R.
Proof.
  destruct (share_ratio_in_range 40 60 60 40) as (_ & _ & Hlt); try lia.
  destruct (share_ratio_in_range 60 40 60 40) as (_ & Hr & _); try lia.
  split; [exact Hr | apply Hlt; lia].
Defined.

(** C5, as the claim has it, fails on the rounding of doubles: the ratio
    is not a function of the difference. 1 % against 18 % and 0 % against
    17 % have the same difference, and the first ratio is the larger one,
    by one unit in the last place: the two cannot both equal
    [0.5 + 0.005 * (-17)], and from the first pair to the second the
    difference does not decrease while the ratio does. *)
Lemma share_ratio_counterexample :
  1 - 18 = 0 - 17 /\
  mi250_energy_ratio 1 18 = S754_finite false 7475975381435024 (-54) /\
  mi250_energy_ratio 0 17 = S754_finite false 7475975381435023 (-54) /\
  B64.gt (mi250_energy_ratio 1 18) (mi250_energy_ratio 0 17) = true.
Proof. vm_compute. repeat split; reflexivity. Qed.

(** The source gives the ratio as a value in [[0, 1]]; that rests on the
    utilizations being percentages. The formula at 200 against 0 gives
    1.5. *)
Example share_ratio_beyond_percentages :
  mi250_energy_ratio 200 0 = S754_finite false 6755399441055744 (-52) /\
  B64.gt (mi250_energy_ratio 200 0) B64.one = true.
Proof. vm_compute. split; reflexivity. Qed.

(** ** C4: the two shares of an MI250 pair *)

Lemma to_u64_spec (x : double) (lo hi : Z) :
  finite_pos x lo hi -> (B64.B2R x < 18446744073709551616)%R ->
  exists z, B64.to_u64 x = Some z /\ 0 <= z /\
            (IZR z <= B64.B2R x < IZR z + 1)%R.
Proof.
  intros Hfin Hlt. pose proof Hfin as (m & e & Hx & Hm & He).
  assert (Hfloor : exists z, 0 <= z /\ (IZR z <= B64.B2R x < IZR z + 1)%R).
  { subst x. cbn [B64.B2R cond_Zopp].
    destruct (Z.le_gt_cases 0 e) as [Hpos | Hneg].
    - exists (Zpos m * 2 ^ e). rewrite (bpow_IZR e), <- mult_IZR by lia.
      split; [| lra]. pose proof (Z.pow_pos_nonneg 2 e). nia.
    - exists (Zpos m / 2 ^ (- e)).
      assert (Hj : 0 < 2 ^ (- e)) by (apply Z.pow_pos_nonneg; lia).
      pose proof (Z.mul_div_le (Zpos m) _ Hj) as H1.
      pose proof (Z.mul_succ_div_gt (Zpos m) _ Hj) as H2.
      set (q := Zpos m / 2 ^ (- e)) in *.
      assert (Hb : bpow e = (/ IZR (2 ^ (- e)))%R).
      { rewrite <- (bpow_neg_inv (- e)) by lia. f_equal. lia. }
      rewrite Hb.
      assert (HjR : (0 < IZR (2 ^ (- e)))%R) by (apply IZR_lt; lia).
      assert (H1R : (IZR (2 ^ (- e)) * IZR q <= IZR (Zpos m))%R)
        by (rewrite <- mult_IZR; apply IZR_le; lia).
      assert (H2R : (IZR (Zpos m) < IZR (2 ^ (- e)) * (IZR q + 1))%R).
      { rewrite <- (plus_IZR q 1), <- mult_IZR. apply IZR_lt. lia. }
      split; [apply Z.div_pos; lia |].
      split.
      + apply Rmult_le_reg_r with (IZR (2 ^ (- e))); trivial.
        rewrite Rmult_assoc, Rinv_l by lra. lra.
      + apply Rmult_lt_reg_r with (IZR (2 ^ (- e))); trivial.
        rewrite Rmult_assoc, Rinv_l by lra. lra. }
  destruct Hfloor as (z & Hz0 & Hz). exists z.
  split; [| split; trivial].
  apply (to_u64_floor x lo hi z Hfin Hz).
  apply lt_IZR. change (IZR (2 ^ 64)) with 18446744073709551616%R. lra.
Qed.

Lemma to_u64_of_uint (n : Z) :
  0 <= n < 2 ^ 53 -> B64.to_u64 (B64.of_uint n) = Some n.
Proof.
  intros Hn. destruct (Z.eq_dec n 0) as [-> | Hnz]; [reflexivity |].
  destruct (of_uint_exact n ltac:(lia)) as [Hfin Hv].
  apply (to_u64_floor _ _ _ n Hfin); [rewrite Hv; lra | lia].
Qed.

Lemma IZR_pow2_48 : IZR (2 ^ 48) = 281474976710656%R.
Proof. reflexivity. Qed.

(** One share: [energy_idle + ratio * energy_min_idle] on doubles,
    converted to [uint64_t]. It is at least [energy_idle], and within
    3/16 above and 19/16 below the real value. *)
Lemma share_bounds (idle above : Z) (rho : double) :
  0 <= idle < 2 ^ 48 -> 0 <= above < 2 ^ 48 ->
  ratio_shape rho = true -> (0 <= B64.B2R rho <= 1)%R ->
  exists z,
    mi250_share idle rho above = Done z /\ idle <= z /\
    (IZR idle + B64.B2R rho * IZR above - 19 / 16 < IZR z
     <= IZR idle + B64.B2R rho * IZR above + 3 / 16)%R.
Proof.
  intros Hidle Habove Hshape Hrho. unfold mi250_share, to_uint64_t.
  assert (HiR : (0 <= IZR idle <= 281474976710655)%R).
  { split; [apply (IZR_le 0) | apply (IZR_le _ 281474976710655)]; lia. }
  assert (HaR : (0 <= IZR above < 281474976710656)%R).
  { rewrite <- IZR_pow2_48. split; [apply (IZR_le 0) | apply IZR_lt]; lia. }
  assert (Hzero : B64.mul rho (B64.of_uint above) = S754_zero false ->
                  (B64.B2R rho * IZR above = 0)%R ->
                  exists z,
                    match B64.to_u64 (B64.add (B64.of_uint idle)
                                        (B64.mul rho (B64.of_uint above))) with
                    | Some z => Done z
                    | None => Undefined
                    end = Done z /\ idle <= z /\
                    (IZR idle + B64.B2R rho * IZR above - 19 / 16 < IZR z
                     <= IZR idle + B64.B2R rho * IZR above + 3 / 16)%R).
  { intros Hmul Ht. rewrite Hmul, Ht. exists idle.
    destruct (Z.eq_dec idle 0) as [-> | Hnz].
    - split; [reflexivity |]. split; [lia | lra].
    - destruct (of_uint_exact idle ltac:(lia)) as [(m & e & Hx & _) _].
      assert (Hadd : B64.add (B64.of_uint idle) (S754_zero false) = B64.of_uint idle)
        by (rewrite Hx; reflexivity).
      rewrite Hadd, to_u64_of_uint by lia.
      split; [reflexivity |]. split; [lia | lra]. }
  destruct (ratio_shape_cases rho Hshape) as [-> | Hfin].
  { apply Hzero; [| cbn [B64.B2R]; lra].
    destruct (Z.eq_dec above 0) as [-> | Hnz]; [reflexivity |].
    destruct (of_uint_exact above ltac:(lia)) as [(m & e & Hx & _) _].
    rewrite Hx. reflexivity. }
  destruct (Z.eq_dec above 0) as [-> | Hanz].
  { apply Hzero; [| lra].
    destruct Hfin as (m & e & Hx & _). rewrite Hx. reflexivity. }
  destruct (of_uint_exact above ltac:(lia)) as [Hafin Hav].
  pose proof (mul_rounds _ _ _ _ _ _ Hfin Hafin ltac:(lia) ltac:(lia))
    as (Hxfin & Hxerr & _ & _).
  rewrite Hav, IZR_pow2_52 in Hxerr.
  set (x := B64.mul rho (B64.of_uint above)) in *.
  set (t := (B64.B2R rho * IZR above)%R) in *.
  assert (Ht : (0 <= t < 281474976710656)%R) by (unfold t; nra).
  assert (Hxerr' : (Rabs (B64.B2R x - t) <= t / 4503599627370496)%R) by lra.
  apply Rabs_bound in Hxerr'.
  assert (Hxv : (t - 1 / 16 <= B64.B2R x <= t + 1 / 16)%R) by lra.
  destruct (Z.eq_dec idle 0) as [-> | Hinz].
  - assert (Hadd : B64.add (B64.of_uint 0) x = x).
    { destruct Hxfin as (m & e & Hx & _). rewrite Hx. reflexivity. }
    rewrite Hadd.
    destruct (to_u64_spec x _ _ Hxfin ltac:(lra)) as (z & Hz & Hz0 & Hfl).
    rewrite Hz. exists z. split; [reflexivity |]. split; [lia | lra].
  - destruct (of_uint_exact idle ltac:(lia)) as [Hifin Hiv].
    pose proof (add_rounds _ _ _ _ _ _ Hifin Hxfin ltac:(lia) ltac:(lia))
      as (Hsfin & Hserr & Hslow & _).
    rewrite Hiv, IZR_pow2_52 in Hserr. rewrite Hiv in Hslow.
    set (s := B64.add (B64.of_uint idle) x) in *.
    assert (Hserr' : (Rabs (B64.B2R s - (IZR idle + B64.B2R x))
                      <= (IZR idle + B64.B2R x) / 4503599627370496)%R) by lra.
    apply Rabs_bound in Hserr'.
    assert (Hge : (IZR idle <= B64.B2R s)%R) by (apply Hslow; [lia | lra]).
    destruct (to_u64_spec s _ _ Hsfin ltac:(lra)) as (z & Hz & Hz0 & Hfl).
    rewrite Hz. exists z. split; [reflexivity |]. split.
    + assert (IZR idle < IZR (z + 1))%R by (rewrite plus_IZR; lra).
      apply lt_IZR in H. lia.
    + lra.
Qed.

Lemma mi250_energy_min_idle_max (energy energy_idle : Z) :
  0 <= energy < 2 ^ 64 -> 0 <= energy_idle < 2 ^ 48 ->
  mi250_energy_min_idle energy energy_idle = Z.max (energy - 2 * energy_idle) 0.
Proof.
  intros He Hi. unfold mi250_energy_min_idle.
  rewrite (u64_small (2 * energy_idle)) by lia.
  rewrite Z.gtb_ltb. destruct (Z.ltb_spec (2 * energy_idle) energy).
  - rewrite u64_small by lia. lia.
  - lia.
Qed.

(** C4, as the code has it. An MI250 pair with a baseline is sampled; the
    combined interval energy is below 2^48 J, so is the idle floor of a die,
    and both utilizations are at most 100. Then both interval energies are
    at least [energy_idle], and their sum is [2 * energy_idle +
    energy_above_idle] less what the two conversions to [uint64_t]
    discard: at most 2 J. *)
Theorem mi250_split_bounds :
  forall (smi : rocm_smi) (dev p : Unit) (energy elapsed_s : Z),
    let r := rsmi_dev_energy_count_get smi (id dev) in
    let busy := u32 (bp_percent (rsmi_dev_busy_percent_get smi (id dev))) in
    let busy_peer := u32 (bp_percent (rsmi_dev_busy_percent_get smi (id p))) in
    let energy_idle := gcd_idle_power * elapsed_s in
    let energy_above_idle := Z.max (energy - 2 * energy_idle) 0 in
    bp_success (rsmi_dev_busy_percent_get smi (id dev)) = true ->
    bp_success (rsmi_dev_busy_percent_get smi (id p)) = true ->
    ec_success r = true ->
    energy_raw dev <> 0 -> energy_raw dev <= u64 (ec_power r) ->
    mi250_energy (ec_counter_resolution r) (energy_raw dev) (u64 (ec_power r))
    = Done energy ->
    mi250_elapsed_s (timestamp dev) (u64 (ec_timestamp r)) = Done elapsed_s ->
    energy < 2 ^ 48 -> energy_idle < 2 ^ 48 ->
    busy <= 100 -> busy_peer <= 100 ->
    exists dev' p',
      _amd_device_fetch_energy_mi250 smi dev (Some p) = Done (dev', Some p') /\
      energy_idle <= energy_interval dev' /\
      energy_idle <= energy_interval p' /\
      2 * energy_idle + energy_above_idle - 2
        <= energy_interval dev' + energy_interval p'
        <= 2 * energy_idle + energy_above_idle /\
      energy_acc dev' = u64 (energy_acc dev + energy_interval dev') /\
      energy_acc p' = u64 (energy_acc p + energy_interval p').
Proof.
  intros smi dev p energy elapsed_s r busy busy_peer energy_idle energy_above_idle
         Hb1 Hb2 Hok Hlast Hle Henergy Helapsed HE Hidle Hbusy Hbusy'.
  pose proof (to_uint64_t_range _ _ Henergy) as HE0.
  pose proof (to_uint64_t_range _ _ Helapsed) as Hel0.
  assert (Hidle0 : 0 <= energy_idle < 2 ^ 48)
    by (unfold energy_idle, gcd_idle_power in *; lia).
  pose proof (u32_range (bp_percent (rsmi_dev_busy_percent_get smi (id dev)))) as Hbr.
  pose proof (u32_range (bp_percent (rsmi_dev_busy_percent_get smi (id p)))) as Hbr'.
  fold busy in Hbr. fold busy_peer in Hbr'.
  destruct (ratio_facts busy busy_peer ltac:(lia) ltac:(lia))
    as (Hs & Hs' & Hr & Hr' & Hsum & _).
  set (rho := mi250_energy_ratio busy busy_peer) in *.
  set (rho' := B64.sub B64.one rho) in *.
  assert (Habove : 0 <= energy_above_idle < 2 ^ 48) by (unfold energy_above_idle; lia).
  destruct (share_bounds energy_idle energy_above_idle rho Hidle0 Habove Hs Hr)
    as (zA & HzA & HgeA & HbA).
  destruct (share_bounds energy_idle energy_above_idle rho' Hidle0 Habove Hs' Hr')
    as (zB & HzB & HgeB & HbB).
  unfold _amd_device_fetch_energy_mi250, _amd_device_fetch_activity.
  rewrite Hb1, Hb2. cbn [negb bind]. cbn [id set_busy_percent].
  fold r. rewrite Hok. cbn [negb].
  cbn [energy_raw timestamp energy_resolution busy_percent
       set_timestamp set_energy_raw set_energy_resolution set_busy_percent].
  unfold assert. destruct (Z.geb_spec (u64 (ec_power r)) (energy_raw dev)); [| lia].
  cbn [bind]. destruct (Z.eqb_spec (energy_raw dev) 0); [contradiction |].
  rewrite Henergy, Helapsed. cbn [bind].
  unfold mi250_energy_idle. fold energy_idle.
  rewrite (u64_small energy_idle) by lia.
  rewrite mi250_energy_min_idle_max by lia. fold energy_above_idle.
  fold busy busy_peer. fold rho. fold rho'.
  rewrite HzA. cbn [bind]. rewrite HzB. cbn [bind].
  eexists _, _. split; [reflexivity |].
  cbn [energy_interval energy_acc accumulate set_energy_interval set_energy_acc].
  split; [exact HgeA |]. split; [exact HgeB |].
  split; [| split; reflexivity].
  (* the sum *)
  rewrite bpow_m53 in Hsum. apply Rabs_bound in Hsum.
  assert (HaR : (0 <= IZR energy_above_idle <= 281474976710656)%R).
  { rewrite <- IZR_pow2_48. split; [apply (IZR_le 0) | apply IZR_le]; lia. }
  assert (Hprod : (- (1 / 32) <= B64.B2R rho * IZR energy_above_idle
                     + B64.B2R rho' * IZR energy_above_idle
                     - IZR energy_above_idle <= 1 / 32)%R) by nra.
  assert (Hup : (IZR (zA + zB) < IZR (2 * energy_idle + energy_above_idle + 1))%R).
  { rewrite !plus_IZR, mult_IZR. lra. }
  assert (Hdn : (IZR (2 * energy_idle + energy_above_idle - 3) < IZR (zA + zB))%R).
  { rewrite minus_IZR, !plus_IZR, mult_IZR. lra. }
  apply lt_IZR in Hup. apply lt_IZR in Hdn. lia.
Qed.

(** A pair sampled 10 s after its baseline, with a resolution of 1 J per
    count: [counts] counts later, at utilizations [a] and [b]. *)
Definition pair_holder : Unit :=
  set_peer (Some 1%nat) (set_energy_raw 1000 (set_model MI250 Unit_zero)).

Definition pair_peer : Unit := set_id 1 (set_model MI250 Unit_zero).

Definition pair_smi (counts a b : Z) : rocm_smi :=
  mkSmi (fun _ => mkEnergyCount true (1000 + counts) B64.c_1E6 10000000000)
        (fun i => mkBusy true (if i =? 0 then a else b)).

(** The scenario of the specification: 1000 J over 10 s at utilizations 60
    and 40 give 520 J and 480 J. *)
Lemma mi250_split_bounds_witness :
  exists dev' p',
    _amd_device_fetch_energy_mi250 (pair_smi 1000 60 40) pair_holder (Some pair_peer)
    = Done (dev', Some p') /\
    energy_interval dev' = 520 /\ energy_interval p' = 480.
Proof.
  destruct (mi250_split_bounds (pair_smi 1000 60 40) pair_holder pair_peer 1000 10)
    as (dev' & p' & Hrun & _); try (vm_compute; intuition congruence).
  exists dev', p'. split; [exact Hrun |].
  vm_compute in Hrun. injection Hrun as <- <-. split; reflexivity.
Defined.

(** C4, as the claim has it, fails. With 801 J over 10 s at equal
    utilizations, [energy_idle] is 400 J and [energy_above_idle] 1 J, and
    each die gets 400 J: the sum is 800 J, not 801 J. With 100 J over
    10 s, below the idle floors, each die still gets 400 J: the sum is not
    the energy measured. *)
Lemma mi250_split_counterexample :
  (exists dev' p',
     _amd_device_fetch_energy_mi250 (pair_smi 801 0 0) pair_holder (Some pair_peer)
     = Done (dev', Some p') /\
     mi250_energy B64.c_1E6 1000 1801 = Done 801 /\
     mi250_energy_idle 10 = 400 /\
     mi250_energy_min_idle 801 400 = 1 /\
     energy_interval dev' = 400 /\ energy_interval p' = 400) /\
  (exists dev' p',
     _amd_device_fetch_energy_mi250 (pair_smi 100 0 0) pair_holder (Some pair_peer)
     = Done (dev', Some p') /\
     mi250_energy B64.c_1E6 1000 1100 = Done 100 /\
     mi250_energy_min_idle 100 400 = 0 /\
     energy_interval dev' = 400 /\ energy_interval p' = 400).
Proof.
  split; eexists _, _; vm_compute; repeat split; reflexivity.
Qed.

(** * Beyond the accounting core: options, initialisation, whole runs *)

(** ** ecounter.c: the estimator over a run *)

Lemma MIN_le (a b : Z) : MIN a b <= b /\ MIN a b <= a.
Proof. rewrite MIN_min. lia. Qed.

Lemma MAX_ge (a b : Z) : b <= MAX a b /\ a <= MAX a b.
Proof. rewrite MAX_max. lia. Qed.

(** What one call may do to the statistics. *)
Lemma compute_overhead_cases (ec ec' : Ecounter_t)
    (cmd_output : option command_output) :
  compute_overhead ec cmd_output = Done ec' ->
  exists node_power,
    fetch_node_power cmd_output = Done node_power /\
    interval ec <> 0 /\
    ((power_interval ec = 0 /\ ec' = ec) \/
     (power_interval ec <> 0 /\ u32 (n_samples (overhead ec) + 1) <> 0 /\
      ec' = mkEcounter (components ec) (interval ec)
              (mkOverhead
                 (MIN (overhead_interval ec node_power) (min (overhead ec)))
                 (MAX (overhead_interval ec node_power) (max (overhead ec)))
                 (u32 (u32 (mov_average (overhead ec) * n_samples (overhead ec))
                       + overhead_interval ec node_power)
                  / u32 (n_samples (overhead ec) + 1))
                 (u32 (n_samples (overhead ec) + 1))))).
Proof.
  unfold compute_overhead.
  destruct (fetch_node_power cmd_output) as [node | | |]; cbn [bind]; try discriminate.
  destruct (Z.eqb_spec (interval ec) 0) as [| Hi]; [discriminate |].
  destruct (Z.eqb_spec (power_interval ec) 0) as [Hp | Hp].
  - intros H. injection H as <-. exists node. auto.
  - destruct (Z.eqb_spec (u32 (n_samples (overhead ec) + 1)) 0) as [| Hn];
      [discriminate |].
    intros H. injection H as <-. exists node. split; [reflexivity |].
    split; [exact Hi |]. right. auto.
Qed.

(** X1. Whatever the state and whatever the command printed, an estimator
    call that returns has touched neither the components nor the interval,
    has not raised [min] and has not lowered [max]; and so over any number
    of cycles. At each of them the command printed a line that [strtol]
    read as a positive number, with [errno] clear. *)
Theorem overhead_extremes_monotone :
  forall (samples : list (list Component * option command_output))
         (ec ec' : Ecounter_t),
    overhead_cycles ec samples = Done ec' ->
    interval ec' = interval ec /\
    min (overhead ec') <= min (overhead ec) /\
    max (overhead ec) <= max (overhead ec') /\
    (forall comps cmd_output,
       In (comps, cmd_output) samples ->
       exists output,
         cmd_output = Some output /\
         output_errno output = false /\ 0 < output_strtol output) /\
    (samples = [] \/ components ec' = fst (last samples ([], None))).
Proof.
  induction samples as [| [comps out] rest IH]; intros ec ec'; cbn [overhead_cycles].
  - intros H. injection H as <-. repeat split; try lia.
    + intros comps out [].
    + left. reflexivity.
  - destruct (compute_overhead _ out) as [ec1 | | |] eqn:Hstep; cbn [bind];
      try discriminate.
    intros Hrest. destruct (IH ec1 ec' Hrest) as (Hi & Hmin & Hmax & Hcmd & Hlast).
    destruct (compute_overhead_cases _ _ _ Hstep) as (node & Hnode & _ & Hcase).
    assert (H1 : interval ec1 = interval ec /\ components ec1 = comps /\
                 min (overhead ec1) <= min (overhead ec) /\
                 max (overhead ec) <= max (overhead ec1)).
    { destruct Hcase as [[_ ->] | (_ & _ & ->)]; cbn [interval components overhead min max].
      - repeat split; lia.
      - pose proof (MIN_le (overhead_interval
                              (mkEcounter comps (interval ec) (overhead ec)) node)
                           (min (overhead ec))).
        pose proof (MAX_ge (overhead_interval
                              (mkEcounter comps (interval ec) (overhead ec)) node)
                           (max (overhead ec))).
        repeat split; lia. }
    destruct H1 as (H1i & H1c & H1min & H1max).
    split; [congruence |]. split; [lia |]. split; [lia |]. split.
    + intros comps' out' [Heq | Hin].
      * injection Heq as <- <-. unfold fetch_node_power in Hnode.
        destruct out as [output |]; [| discriminate].
        destruct (output_errno output) eqn:Hclear; [discriminate |].
        destruct (Z.leb_spec (output_strtol output) 0) as [| Hpos]; [discriminate |].
        exists output. split; [reflexivity |]. split; [exact Hclear | exact Hpos].
      * exact (Hcmd _ _ Hin).
    + right. destruct rest as [| s rest'].
      * cbn in Hrest. injection Hrest as <-. exact H1c.
      * destruct Hlast as [Hnil | Hlast]; [discriminate |].
        rewrite Hlast. reflexivity.
Qed.

(** Two cycles from the initial state, the node at 300 W then at 280 W for a
    processor at 2500 J then 2600 J per 10 s: [min] goes down to 20 W,
    [max] stays at the 50 W of the first cycle. *)
Lemma overhead_extremes_monotone_witness :
  exists ec',
    overhead_cycles (init 10 [])
      [([mkComponent [set_energy_interval 2500 Unit_zero] CPU INTEL 1 false],
        printed 300);
       ([mkComponent [set_energy_interval 2600 Unit_zero] CPU INTEL 1 false],
        printed 280)]
    = Done ec' /\
    interval ec' = 10 /\
    min (overhead ec') = 20 /\ max (overhead ec') = 50 /\
    min (overhead ec') <= min (overhead (init 10 [])) /\
    max (overhead (init 10 [])) <= max (overhead ec').
Proof.
  assert (exists ec',
            overhead_cycles (init 10 [])
              [([mkComponent [set_energy_interval 2500 Unit_zero] CPU INTEL 1 false],
                printed 300);
               ([mkComponent [set_energy_interval 2600 Unit_zero] CPU INTEL 1 false],
                printed 280)] = Done ec' /\
            interval ec' = 10 /\ min (overhead ec') = 20 /\ max (overhead ec') = 50)
    as (ec' & Hrun & Hi & Hmin & Hmax)
    by (eexists; vm_compute; repeat split; reflexivity).
  exists ec'. split; [exact Hrun |]. split; [exact Hi |].
  split; [exact Hmin |]. split; [exact Hmax |].
  destruct (overhead_extremes_monotone _ _ ec' Hrun) as (_ & Hlo & Hhi & _).
  split; [exact Hlo | exact Hhi].
Defined.

Lemma overhead_interval_range (ec : Ecounter_t) (node : Z) :
  0 <= overhead_interval ec node < 2 ^ 32.
Proof.
  unfold overhead_interval. destruct (power_interval ec <? node); [apply u32_range | lia].
Qed.

(** The number of samples and the two extremes over a run. *)
Lemma overhead_cycles_monotone :
  forall (samples : list (list Component * option command_output))
         (ec ec' : Ecounter_t),
    0 <= n_samples (overhead ec) < 2 ^ 32 ->
    overhead_cycles ec samples = Done ec' ->
    0 <= n_samples (overhead ec') < 2 ^ 32 /\
    n_samples (overhead ec) <= n_samples (overhead ec') /\
    max (overhead ec) <= max (overhead ec') /\
    min (overhead ec') <= min (overhead ec).
Proof.
  induction samples as [| [comps out] rest IH]; intros ec ec' Hn; cbn [overhead_cycles].
  - intros H. injection H as <-. lia.
  - destruct (compute_overhead _ out) as [ec1 | | |] eqn:Hstep; cbn [bind];
      try discriminate.
    intros Hrest.
    destruct (compute_overhead_cases _ _ _ Hstep) as (node & _ & _ & Hcase).
    cbn [overhead] in Hcase.
    assert (H1 : 0 <= n_samples (overhead ec1) < 2 ^ 32 /\
                 n_samples (overhead ec) <= n_samples (overhead ec1) /\
                 max (overhead ec) <= max (overhead ec1) /\
                 min (overhead ec1) <= min (overhead ec)).
    { destruct Hcase as [[_ ->] | (_ & Hnz & ->)]; cbn [overhead n_samples min max].
      - lia.
      - pose proof (u32_range (n_samples (overhead ec) + 1)) as Hr.
        assert (Hlt : n_samples (overhead ec) + 1 < 2 ^ 32).
        { destruct (Z.eq_dec (n_samples (overhead ec) + 1) (2 ^ 32)) as [E | E]; [| lia].
          rewrite E in Hnz. contradiction Hnz. reflexivity. }
        rewrite (u32_small (n_samples (overhead ec) + 1)) by lia.
        pose proof (MIN_le (overhead_interval
                              (mkEcounter comps (interval ec) (overhead ec)) node)
                           (min (overhead ec))).
        pose proof (MAX_ge (overhead_interval
                              (mkEcounter comps (interval ec) (overhead ec)) node)
                           (max (overhead ec))).
        lia. }
    destruct H1 as (H1n & H1le & H1max & H1min).
    destruct (IH ec1 ec' H1n Hrest) as (H2n & H2le & H2max & H2min). lia.
Qed.

(** The statistics before any sample, or after at least one. *)
Definition settled (o : Overhead_t) : Prop :=
  0 <= n_samples o < 2 ^ 32 /\ 0 <= max o /\ 0 <= mov_average o /\
  ((n_samples o = 0 /\ mov_average o = 0) \/
   (1 <= n_samples o /\ min o <= mov_average o <= max o)).

Lemma settled_step (ec ec' : Ecounter_t) (cmd_output : option command_output) :
  settled (overhead ec) ->
  compute_overhead ec cmd_output = Done ec' ->
  max (overhead ec') * n_samples (overhead ec') < 2 ^ 32 ->
  settled (overhead ec').
Proof.
  intros (Hn & Hmax & Havg & Hs) Hstep Hfit.
  destruct (compute_overhead_cases _ _ _ Hstep) as (node & _ & _ & Hcase).
  destruct Hcase as [[_ ->] | (_ & Hnz & ->)].
  { unfold settled. auto. }
  cbn [overhead n_samples min max mov_average] in *.
  set (o := overhead ec) in *. set (ov := overhead_interval ec node) in *.
  pose proof (overhead_interval_range ec node) as Hov. fold ov in Hov.
  assert (Hlt : n_samples o + 1 < 2 ^ 32).
  { destruct (Z.eq_dec (n_samples o + 1) (2 ^ 32)) as [E | E]; [| lia].
    rewrite E in Hnz. contradiction Hnz. reflexivity. }
  rewrite (u32_small (n_samples o + 1)) in * by lia.
  rewrite MAX_max in *. rewrite MIN_min.
  assert (Hsum : 0 <= mov_average o * n_samples o
                 /\ mov_average o * n_samples o + ov
                    <= Z.max (max o) ov * (n_samples o + 1)
                 /\ Z.min (min o) ov * (n_samples o + 1)
                    <= mov_average o * n_samples o + ov).
  { destruct Hs as [[H0 Ha] | [H1 Ha]].
    - rewrite H0, Ha. lia.
    - set (M := Z.max (max o) ov). set (m := Z.min (min o) ov).
      assert (mov_average o * n_samples o <= M * n_samples o)
        by (apply Z.mul_le_mono_nonneg_r; lia).
      assert (m * n_samples o <= mov_average o * n_samples o)
        by (apply Z.mul_le_mono_nonneg_r; lia).
      assert (0 <= mov_average o * n_samples o) by (apply Z.mul_nonneg_nonneg; lia).
      lia. }
  destruct Hsum as (Hs0 & Hup & Hlo).
  rewrite (u32_small (mov_average o * n_samples o)) by lia.
  rewrite (u32_small (mov_average o * n_samples o + ov)) by lia.
  unfold settled. cbn [n_samples max min mov_average].
  split; [lia |]. split; [lia |].
  split; [apply Z.div_pos; lia |]. right. split; [lia |]. split.
  - apply Z.div_le_lower_bound; lia.
  - apply Z.div_le_upper_bound; lia.
Qed.

Lemma settled_cycles :
  forall (samples : list (list Component * option command_output))
         (ec ec' : Ecounter_t),
    settled (overhead ec) ->
    overhead_cycles ec samples = Done ec' ->
    max (overhead ec') * n_samples (overhead ec') < 2 ^ 32 ->
    settled (overhead ec').
Proof.
  induction samples as [| [comps out] rest IH]; intros ec ec' Hs; cbn [overhead_cycles].
  - intros H. injection H as <-. auto.
  - destruct (compute_overhead _ out) as [ec1 | | |] eqn:Hstep; cbn [bind];
      try discriminate.
    intros Hrest Hfit.
    assert (Hs1 : settled (overhead (mkEcounter comps (interval ec) (overhead ec))))
      by exact Hs.
    assert (Hn1 : 0 <= n_samples (overhead ec1) < 2 ^ 32 /\ 0 <= max (overhead ec1)).
    { destruct Hs as (Hn & Hmax & _ & _).
      destruct (overhead_cycles_monotone [(comps, out)] ec ec1 Hn) as (H1 & _ & H2 & _).
      - cbn [overhead_cycles]. rewrite Hstep. reflexivity.
      - lia. }
    destruct (overhead_cycles_monotone rest ec1 ec' (proj1 Hn1) Hrest)
      as (Hn' & Hle & Hmax' & _).
    apply (IH ec1 ec'); trivial.
    apply (settled_step _ _ _ Hs1 Hstep). nia.
Qed.

(** X2. From [init] on, over any run of cycles: once a sample was taken,
    and as long as [max * n_samples] fits [uint32_t], the moving average
    lies between the minimum and the maximum. *)
Theorem overhead_average_between_extremes :
  forall (interval_arg : Z) (comps : list Component)
         (samples : list (list Component * option command_output))
         (ec' : Ecounter_t),
    overhead_cycles (init interval_arg comps) samples = Done ec' ->
    1 <= n_samples (overhead ec') ->
    max (overhead ec') * n_samples (overhead ec') < 2 ^ 32 ->
    min (overhead ec') <= mov_average (overhead ec') <= max (overhead ec').
Proof.
  intros interval_arg comps samples ec' Hrun Hn Hfit.
  assert (Hs : settled (overhead (init interval_arg comps))).
  { unfold settled. cbn. lia. }
  destruct (settled_cycles samples _ _ Hs Hrun Hfit) as (_ & _ & _ & [[H0 _] | [_ H]]);
    lia.
Qed.

(** Three cycles at 2500 J, 2600 J and 2400 J per 10 s against 300 W, 320 W
    and 290 W at the node: overheads of 50 W, 60 W and 50 W. *)
Lemma overhead_average_between_extremes_witness :
  exists ec',
    overhead_cycles (init 10 [])
      [(one_cpu 2500, printed 300); (one_cpu 2600, printed 320);
       (one_cpu 2400, printed 290)]
    = Done ec' /\
    overhead ec' = mkOverhead 50 60 53 3 /\
    min (overhead ec') <= mov_average (overhead ec') <= max (overhead ec').
Proof.
  assert (exists ec',
            overhead_cycles (init 10 [])
              [(one_cpu 2500, printed 300); (one_cpu 2600, printed 320);
               (one_cpu 2400, printed 290)] = Done ec' /\
            overhead ec' = mkOverhead 50 60 53 3) as (ec' & Hrun & Ho)
    by (eexists; vm_compute; split; reflexivity).
  exists ec'. split; [exact Hrun |]. split; [exact Ho |].
  apply (overhead_average_between_extremes 10 [] _ ec' Hrun); rewrite Ho; cbn; lia.
Defined.

(** X3. The product of the moving average by the number of samples is
    computed on [uint32_t]: after every sample that counts, the average is
    at most [UINT32_MAX / n_samples], whatever the overheads were. *)
Theorem overhead_average_capped :
  forall (ec ec' : Ecounter_t) (cmd_output : option command_output),
    compute_overhead ec cmd_output = Done ec' ->
    power_interval ec <> 0 ->
    0 < n_samples (overhead ec') /\
    mov_average (overhead ec') * n_samples (overhead ec') <= UINT32_MAX /\
    (forall W, UINT32_MAX < W * n_samples (overhead ec') ->
               mov_average (overhead ec') < W).
Proof.
  intros ec ec' cmd_output Hstep HP.
  destruct (compute_overhead_cases _ _ _ Hstep) as (node & _ & _ & Hcase).
  destruct Hcase as [[H0 _] | (_ & Hnz & ->)]; [contradiction |].
  cbn [overhead n_samples mov_average].
  set (N := u32 (n_samples (overhead ec) + 1)) in *.
  set (X := u32 (u32 (mov_average (overhead ec) * n_samples (overhead ec))
                 + overhead_interval ec node)).
  pose proof (u32_range (n_samples (overhead ec) + 1)) as HN. fold N in HN.
  pose proof (u32_range (u32 (mov_average (overhead ec) * n_samples (overhead ec))
                         + overhead_interval ec node)) as HX. fold X in HX.
  assert (HN0 : 0 < N) by lia.
  pose proof (Z.mul_div_le X N HN0) as Hle.
  assert (Hq : 0 <= X / N) by (apply Z.div_pos; lia).
  unfold UINT32_MAX. split; [exact HN0 |]. split; [lia |].
  intros W HW. nia.
Qed.

Definition long_run : Ecounter_t :=
  mkEcounter (one_cpu 2500) 10 (mkOverhead 5000 5000 5000 1000000).

(** A million samples of 5000 W, then one more: the average drops to
    705 W, below the minimum. *)
Lemma overhead_average_capped_witness :
  exists ec',
    compute_overhead long_run (printed 5250) = Done ec' /\
    overhead ec' = mkOverhead 5000 5000 705 1000001 /\
    mov_average (overhead ec') < min (overhead ec').
Proof.
  assert (exists ec',
            compute_overhead long_run (printed 5250) = Done ec' /\
            overhead ec' = mkOverhead 5000 5000 705 1000001) as (ec' & Hrun & Ho)
    by (eexists; vm_compute; split; reflexivity).
  exists ec'. split; [exact Hrun |]. split; [exact Ho |].
  destruct (overhead_average_capped long_run ec' (printed 5250) Hrun) as (_ & _ & Hcap).
  - vm_compute. discriminate.
  - replace (min (overhead ec')) with 5000 by (rewrite Ho; reflexivity).
    apply Hcap. rewrite Ho. cbn. unfold UINT32_MAX. lia.
Defined.

(** ** ecounter.c: the command line *)

Definition INTERVAL_DEFAULT : Z := 10.
Definition DIR_PATH_DEFAULT : String.string := "/tmp/ecounter"%string.
Definition PATH_MAX : Z := 4096.

Definition ARG_CPU : Z := 0x200.
Definition ARG_DRAM : Z := 0x300.
Definition ARG_GPU_AMD : Z := 0x400.
Definition ARG_GPU_INTEL : Z := 0x500.
Definition ARG_GPU_NVIDIA : Z := 0x600.
(** argp.h *)
Definition ARGP_KEY_END : Z := 0x1000001.
Definition ARGP_ERR_UNKNOWN : Z := 7.

(** The settings of [struct Ecounter], which [parse_opt] fills.
    [is_disabled] is indexed by [enum interface]; [mock_watts] has
    [N_SIBLINGS_MAX] entries. *)
Record Settings : Type := mkSettings {
  is_disabled : interface -> bool;
  cli_interval : Z;
  cli_is_verbose : bool;
  n_mocks : Z;
  mock_watts : list Z;
  dir_path : String.string;
  power_cmd : String.string
}.

Definition interface_eqb (a b : interface) : bool :=
  match a, b with
  | AMD_GPUS, AMD_GPUS | INTEL_GPUS, INTEL_GPUS | NVIDIA_GPUS, NVIDIA_GPUS
  | CPUS, CPUS | DRAMS, DRAMS | MOCKS, MOCKS => true
  | _, _ => false
  end.

Definition disable (i : interface) (ec : Settings) : Settings :=
  mkSettings (fun j => if interface_eqb i j then true else is_disabled ec j)
             (cli_interval ec) (cli_is_verbose ec) (n_mocks ec) (mock_watts ec)
             (dir_path ec) (power_cmd ec).

Definition set_cli_interval (v : Z) (ec : Settings) : Settings :=
  mkSettings (is_disabled ec) v (cli_is_verbose ec) (n_mocks ec) (mock_watts ec)
             (dir_path ec) (power_cmd ec).

Definition set_cli_is_verbose (v : bool) (ec : Settings) : Settings :=
  mkSettings (is_disabled ec) (cli_interval ec) v (n_mocks ec) (mock_watts ec)
             (dir_path ec) (power_cmd ec).

Definition set_n_mocks (v : Z) (ec : Settings) : Settings :=
  mkSettings (is_disabled ec) (cli_interval ec) (cli_is_verbose ec) v (mock_watts ec)
             (dir_path ec) (power_cmd ec).

Definition set_mock_watts (v : list Z) (ec : Settings) : Settings :=
  mkSettings (is_disabled ec) (cli_interval ec) (cli_is_verbose ec) (n_mocks ec) v
             (dir_path ec) (power_cmd ec).

Definition set_dir_path (v : String.string) (ec : Settings) : Settings :=
  mkSettings (is_disabled ec) (cli_interval ec) (cli_is_verbose ec) (n_mocks ec)
             (mock_watts ec) v (power_cmd ec).

Definition set_power_cmd (v : String.string) (ec : Settings) : Settings :=
  mkSettings (is_disabled ec) (cli_interval ec) (cli_is_verbose ec) (n_mocks ec)
             (mock_watts ec) (dir_path ec) v.

(** Writing entry [i] of an array of numbers. *)
Fixpoint store_Z (i : nat) (v : Z) (l : list Z) : list Z :=
  match l, i with
  | [], _ => []
  | _ :: t, O => v :: t
  | h :: t, S i' => h :: store_Z i' v t
  end.

(** The argument of an option as [parse_opt] uses it: the string, the
    [long] that [strtol(arg, NULL, 10)] returns for it, and whether [errno]
    reads [EINVAL] or [ERANGE] after that call (nothing clears it
    before). *)
Record argument : Type := mkArg {
  arg_text : String.string;
  arg_strtol : Z;
  arg_errno : bool
}.

(** [strncpy(dst, arg, PATH_MAX - 1)] into a buffer whose last byte is
    zero. *)
Definition strncpy_path (arg : String.string) : String.string :=
  String.substring 0 (Z.to_nat (PATH_MAX - 1)) arg.

(** [parse_opt]: the error code returned with the settings, the key being
    a character or one of the [ARG_] numbers. *)
Definition parse_opt (key : Z) (arg : argument) (ec : Settings)
    : outcome (Z * Settings) :=
  if key =? ARG_CPU then Done (0, disable CPUS ec)
  else if key =? ARG_DRAM then Done (0, disable DRAMS ec)
  else if key =? ARG_GPU_AMD then Done (0, disable AMD_GPUS ec)
  else if key =? ARG_GPU_INTEL then Done (0, disable INTEL_GPUS ec)
  else if key =? ARG_GPU_NVIDIA then Done (0, disable NVIDIA_GPUS ec)
  else if key =? Z.of_nat (Ascii.nat_of_ascii "d"%char) then
    Done (0, set_dir_path (strncpy_path (arg_text arg)) ec)
  else if key =? Z.of_nat (Ascii.nat_of_ascii "i"%char) then
    let ec := set_cli_interval (u32 (arg_strtol arg)) ec in
    if arg_errno arg || (cli_interval ec <? 0) then Exit_failure
    else Done (0, ec)
  else if key =? Z.of_nat (Ascii.nat_of_ascii "m"%char) then
    if (0 <=? n_mocks ec) && (n_mocks ec <? N_SIBLINGS_MAX) then
      let ec := set_mock_watts (store_Z (Z.to_nat (n_mocks ec)) (u32 (arg_strtol arg))
                                        (mock_watts ec)) ec in
      if arg_errno arg || (nth (Z.to_nat (n_mocks ec)) (mock_watts ec) 0 <? 0)
      then Exit_failure
      else Done (0, set_n_mocks (u32 (n_mocks ec + 1)) ec)
    else Undefined
  else if key =? Z.of_nat (Ascii.nat_of_ascii "o"%char) then
    Done (0, set_power_cmd (strncpy_path (arg_text arg)) ec)
  else if key =? Z.of_nat (Ascii.nat_of_ascii "v"%char) then
    Done (0, set_cli_is_verbose true ec)
  else if key =? ARGP_KEY_END then Done (0, ec)
  else Done (ARGP_ERR_UNKNOWN, ec).

(** The settings when [init] calls [argp_parse]: zeroed, then the two
    defaults. *)
Definition default_settings : Settings :=
  mkSettings (fun _ => false) INTERVAL_DEFAULT false 0
             (repeat 0 (Z.to_nat N_SIBLINGS_MAX))
             (strncpy_path DIR_PATH_DEFAULT) String.EmptyString.

(** The options of a command line, in order, each one handed to
    [parse_opt]. *)
Fixpoint parse_opts (opts : list (Z * argument)) (ec : Settings) : outcome Settings :=
  match opts with
  | [] => Done ec
  | (key, arg) :: rest =>
      '(_, ec) <- parse_opt key arg ec ;;
      parse_opts rest ec
  end.

Definition key_i : Z := Z.of_nat (Ascii.nat_of_ascii "i"%char).
Definition key_m : Z := Z.of_nat (Ascii.nat_of_ascii "m"%char).

(** X4. [--interval] takes whatever [strtol] returns, reduced to
    [uint32_t]: the test for a negative value is made on the unsigned field
    and never fires, so zero and negative numbers are accepted. With an
    interval of zero the estimator divides by zero, as soon as the
    node-power command prints a positive number, [errno] clear. *)
Theorem interval_option_unchecked :
  forall (arg : argument) (ec : Settings),
    arg_errno arg = false ->
    exists ec',
      parse_opt key_i arg ec = Done (0, ec') /\
      cli_interval ec' = arg_strtol arg mod 2 ^ 32 /\
      (cli_interval ec' = 0 ->
       forall comps o output,
         output_errno output = false -> 0 < output_strtol output ->
         compute_overhead (mkEcounter comps (cli_interval ec') o) (Some output)
         = Undefined).
Proof.
  intros arg ec Herr. unfold parse_opt.
  change (key_i =? ARG_CPU) with false. change (key_i =? ARG_DRAM) with false.
  change (key_i =? ARG_GPU_AMD) with false. change (key_i =? ARG_GPU_INTEL) with false.
  change (key_i =? ARG_GPU_NVIDIA) with false.
  change (key_i =? Z.of_nat (Ascii.nat_of_ascii "d"%char)) with false.
  change (key_i =? Z.of_nat (Ascii.nat_of_ascii "i"%char)) with true. cbv iota.
  rewrite Herr. cbn [cli_interval set_cli_interval orb].
  pose proof (u32_range (arg_strtol arg)) as Hr.
  destruct (Z.ltb_spec (u32 (arg_strtol arg)) 0); [lia |].
  eexists. split; [reflexivity |]. cbn [cli_interval]. split; [reflexivity |].
  intros H0 comps o output Hclear Hp. fold (u32 (arg_strtol arg)). rewrite H0.
  unfold compute_overhead, fetch_node_power. rewrite Hclear.
  destruct (Z.leb_spec (output_strtol output) 0); [lia |]. reflexivity.
Qed.

Lemma interval_option_unchecked_witness :
  (exists ec', parse_opt key_i (mkArg "-1"%string (-1) false) default_settings = Done (0, ec')
               /\ cli_interval ec' = 4294967295) /\
  (exists ec', parse_opt key_i (mkArg "0"%string 0 false) default_settings = Done (0, ec')
               /\ compute_overhead (mkEcounter (one_cpu 2500) (cli_interval ec')
                                               init_overhead) (printed 300) = Undefined).
Proof.
  split.
  - destruct (interval_option_unchecked (mkArg "-1"%string (-1) false) default_settings eq_refl)
      as (ec' & Hp & Hi & _).
    exists ec'. split; [exact Hp |]. rewrite Hi. reflexivity.
  - destruct (interval_option_unchecked (mkArg "0"%string 0 false) default_settings eq_refl)
      as (ec' & Hp & Hi & Hz).
    exists ec'. split; [exact Hp |].
    apply Hz; [rewrite Hi; reflexivity | reflexivity | cbn; lia].
Defined.

Lemma store_Z_length (i : nat) (v : Z) (l : list Z) :
  length (store_Z i v l) = length l.
Proof.
  revert i. induction l as [| h t IH]; intros [| i]; cbn; try reflexivity.
  rewrite IH. reflexivity.
Qed.

Lemma store_Z_app (pre post : list Z) (old v : Z) :
  store_Z (length pre) v (pre ++ old :: post) = pre ++ v :: post.
Proof.
  induction pre as [| h t IH]; cbn; [reflexivity |]. rewrite IH. reflexivity.
Qed.

Lemma nth_middle_Z (pre post : list Z) (v d : Z) :
  nth (length pre) (pre ++ v :: post) d = v.
Proof. induction pre as [| h t IH]; cbn; [reflexivity | exact IH]. Qed.

(** One [--mock] option on settings with room left. *)
Lemma parse_opt_mock (arg : argument) (ec : Settings) (pre post : list Z) (old : Z) :
  arg_errno arg = false ->
  n_mocks ec = Z.of_nat (length pre) -> (length pre < 16)%nat ->
  mock_watts ec = pre ++ old :: post ->
  parse_opt key_m arg ec
  = Done (0, set_n_mocks (Z.of_nat (length pre) + 1)
               (set_mock_watts (pre ++ u32 (arg_strtol arg) :: post) ec)).
Proof.
  intros Herr Hn Hlt Hw. unfold parse_opt.
  change (key_m =? ARG_CPU) with false. change (key_m =? ARG_DRAM) with false.
  change (key_m =? ARG_GPU_AMD) with false. change (key_m =? ARG_GPU_INTEL) with false.
  change (key_m =? ARG_GPU_NVIDIA) with false.
  change (key_m =? Z.of_nat (Ascii.nat_of_ascii "d"%char)) with false.
  change (key_m =? Z.of_nat (Ascii.nat_of_ascii "i"%char)) with false.
  change (key_m =? Z.of_nat (Ascii.nat_of_ascii "m"%char)) with true. cbv iota.
  rewrite Hn, Hw, Herr. unfold N_SIBLINGS_MAX.
  destruct (Z.leb_spec 0 (Z.of_nat (length pre))); [| lia].
  destruct (Z.ltb_spec (Z.of_nat (length pre)) 16); [| lia].
  cbn [andb orb n_mocks mock_watts set_mock_watts]. rewrite Nat2Z.id.
  rewrite Hn, Nat2Z.id, store_Z_app, nth_middle_Z.
  pose proof (u32_range (arg_strtol arg)) as Hr.
  destruct (Z.ltb_spec (u32 (arg_strtol arg)) 0); [lia |].
  rewrite u32_small by lia. reflexivity.
Qed.

Lemma parse_opt_mock_full (arg : argument) (ec : Settings) :
  N_SIBLINGS_MAX <= n_mocks ec -> parse_opt key_m arg ec = Undefined.
Proof.
  intros Hn. unfold parse_opt.
  change (key_m =? ARG_CPU) with false. change (key_m =? ARG_DRAM) with false.
  change (key_m =? ARG_GPU_AMD) with false. change (key_m =? ARG_GPU_INTEL) with false.
  change (key_m =? ARG_GPU_NVIDIA) with false.
  change (key_m =? Z.of_nat (Ascii.nat_of_ascii "d"%char)) with false.
  change (key_m =? Z.of_nat (Ascii.nat_of_ascii "i"%char)) with false.
  change (key_m =? Z.of_nat (Ascii.nat_of_ascii "m"%char)) with true. cbv iota.
  destruct (Z.ltb_spec (n_mocks ec) N_SIBLINGS_MAX); [lia |].
  rewrite Bool.andb_false_r. reflexivity.
Qed.

Definition mock_options (args : list argument) : list (Z * argument) :=
  map (pair key_m) args.

Lemma mock_options_from (args : list argument) :
  forall (ec : Settings) (pre post : list Z),
    Forall (fun a => arg_errno a = false) args ->
    n_mocks ec = Z.of_nat (length pre) ->
    mock_watts ec = pre ++ post ->
    (length pre + length post = 16)%nat ->
    if (length args <=? length post)%nat then
      parse_opts (mock_options args) ec
      = Done (set_n_mocks (Z.of_nat (length pre + length args))
                (set_mock_watts (pre ++ map (fun a => u32 (arg_strtol a)) args
                                     ++ skipn (length args) post) ec))
    else parse_opts (mock_options args) ec = Undefined.
Proof.
  induction args as [| a args IH]; intros ec pre post Herr Hn Hw Hlen.
  - cbn. rewrite Nat.add_0_r, <- Hn, <- Hw. destruct ec; reflexivity.
  - inversion Herr as [| ? ? Ha Herr']; subst.
    cbn [mock_options map parse_opts length].
    destruct post as [| old post].
    + cbn [Nat.leb]. rewrite parse_opt_mock_full; [reflexivity |].
      rewrite Hn. cbn [length] in Hlen. unfold N_SIBLINGS_MAX. lia.
    + cbn [length] in Hlen.
      rewrite (parse_opt_mock a ec pre post old) by (trivial; lia). cbn [bind].
      specialize (IH (set_n_mocks (Z.of_nat (length pre) + 1)
                        (set_mock_watts (pre ++ u32 (arg_strtol a) :: post) ec))
                     (pre ++ [u32 (arg_strtol a)]) post Herr').
      rewrite length_app in IH. cbn [length] in IH.
      assert (H1 : n_mocks (set_n_mocks (Z.of_nat (length pre) + 1)
                     (set_mock_watts (pre ++ u32 (arg_strtol a) :: post) ec))
                   = Z.of_nat (length pre + 1)) by (cbn; lia).
      assert (H2 : mock_watts (set_n_mocks (Z.of_nat (length pre) + 1)
                     (set_mock_watts (pre ++ u32 (arg_strtol a) :: post) ec))
                   = (pre ++ [u32 (arg_strtol a)]) ++ post)
        by (cbn; rewrite <- app_assoc; reflexivity).
      specialize (IH H1 H2 ltac:(lia)).
      cbn [length Nat.leb]. fold (mock_options args).
      destruct (length args <=? length post)%nat; [| exact IH].
      rewrite IH. cbn [set_n_mocks set_mock_watts is_disabled cli_interval
                       cli_is_verbose n_mocks mock_watts dir_path power_cmd].
      cbn [map skipn]. rewrite <- app_assoc. cbn [app].
      replace (length pre + 1 + length args)%nat
        with (length pre + S (length args))%nat by lia.
      reflexivity.
Qed.

(** X5. From the default settings, [--mock] options whose numbers [strtol]
    reads without error are all accepted, negative numbers included: up to
    16 of them fill [mock_watts] in the order of the command line, the
    entries after them staying zero, and [n_mocks] counts them; nothing
    else changes: no interface is disabled, the interval, the verbosity,
    the directory and the command are the defaults. A 17th is written past
    the end of the array. *)
Theorem mock_options_fill_in_order :
  forall args : list argument,
    Forall (fun a => arg_errno a = false) args ->
    ((length args <= 16)%nat ->
     exists ec',
       parse_opts (mock_options args) default_settings = Done ec' /\
       n_mocks ec' = Z.of_nat (length args) /\
       mock_watts ec'
       = map (fun a => arg_strtol a mod 2 ^ 32) args
         ++ repeat 0 (16 - length args) /\
       length (mock_watts ec') = 16%nat /\
       is_disabled ec' = is_disabled default_settings /\
       cli_interval ec' = INTERVAL_DEFAULT /\
       cli_is_verbose ec' = false /\
       dir_path ec' = dir_path default_settings /\
       power_cmd ec' = String.EmptyString) /\
    ((16 < length args)%nat ->
     parse_opts (mock_options args) default_settings = Undefined).
Proof.
  intros args Herr.
  pose proof (mock_options_from args default_settings [] (repeat 0 16%nat) Herr
                eq_refl eq_refl eq_refl) as H.
  rewrite repeat_length in H. cbn [length Nat.add app] in H. split.
  - intros Hle. apply Nat.leb_le in Hle. rewrite Hle in H.
    eexists. split; [exact H |].
    cbn [n_mocks mock_watts set_n_mocks set_mock_watts is_disabled cli_interval
         cli_is_verbose dir_path power_cmd default_settings].
    apply Nat.leb_le in Hle.
    assert (Hrest : skipn (length args) (repeat 0 16%nat) = repeat 0 (16 - length args)).
    { replace 16%nat with (length args + (16 - length args))%nat at 1 by lia.
      rewrite repeat_app, skipn_app, repeat_length, Nat.sub_diag, skipn_O.
      rewrite skipn_all2 by (rewrite repeat_length; lia). reflexivity. }
    rewrite Hrest.
    split; [reflexivity |]. split; [reflexivity |]. split.
    + rewrite length_app, length_map, repeat_length. lia.
    + repeat split; reflexivity.
  - intros Hgt. destruct (Nat.leb_spec (length args) 16); [lia | exact H].
Qed.

Lemma mock_options_fill_in_order_witness :
  exists ec',
    parse_opts (mock_options [mkArg "150"%string 150 false; mkArg "-5"%string (-5) false])
               default_settings = Done ec' /\
    n_mocks ec' = 2 /\
    mock_watts ec' = [150; 4294967291] ++ repeat 0 14 /\
    cli_interval ec' = 10 /\ cli_is_verbose ec' = false.
Proof.
  destruct (mock_options_fill_in_order
              [mkArg "150"%string 150 false; mkArg "-5"%string (-5) false]) as [Hfill _].
  - repeat constructor.
  - destruct Hfill as (ec' & Hrun & Hn & Hw & _ & _ & Hi & Hv & _); [cbn; lia |].
    exists ec'. split; [exact Hrun |]. split; [exact Hn |].
    split; [exact Hw |]. split; [exact Hi | exact Hv].
Defined.

(** ** The loops over the siblings *)

(** [for (i = ..; i < n_siblings; ++i) f(&siblings[i])], for an [f] that
    touches its own unit only; reading past the array is undefined. *)
Fixpoint update_from (f : Unit -> outcome Unit) (n i : nat) (sibs : list Unit)
    : outcome (list Unit) :=
  match n with
  | O => Done sibs
  | S n' =>
      match nth_error sibs i with
      | None => Undefined
      | Some u =>
          u' <- f u ;;
          update_from f n' (S i) (store i u' sibs)
      end
  end.

(** The units one after the other, stopping at the first that fails. *)
Fixpoint each (f : Unit -> outcome Unit) (us : list Unit) : outcome (list Unit) :=
  match us with
  | [] => Done []
  | u :: rest =>
      u' <- f u ;;
      rest' <- each f rest ;;
      Done (u' :: rest')
  end.

Lemma store_app (pre post : list Unit) (old u : Unit) :
  store (length pre) u (pre ++ old :: post) = pre ++ u :: post.
Proof.
  induction pre as [| h t IH]; cbn; [reflexivity |]. rewrite IH. reflexivity.
Qed.

Lemma nth_error_middle (pre post : list Unit) (u : Unit) :
  nth_error (pre ++ u :: post) (length pre) = Some u.
Proof. induction pre as [| h t IH]; cbn; [reflexivity | exact IH]. Qed.

Lemma update_from_each (f : Unit -> outcome Unit) (us : list Unit) :
  forall pre post : list Unit,
    update_from f (length us) (length pre) (pre ++ us ++ post)
    = (us' <- each f us ;; Done (pre ++ us' ++ post)).
Proof.
  induction us as [| u rest IH]; intros pre post; cbn [update_from each length app].
  - reflexivity.
  - rewrite nth_error_middle. destruct (f u) as [u' | | |]; cbn [bind]; try reflexivity.
    rewrite store_app.
    replace (pre ++ u' :: rest ++ post) with ((pre ++ [u']) ++ rest ++ post)
      by (rewrite <- app_assoc; reflexivity).
    replace (S (length pre)) with (length (pre ++ [u']))
      by (rewrite length_app; cbn; lia).
    rewrite IH. destruct (each f rest) as [rest' | | |]; cbn [bind]; try reflexivity.
    rewrite <- app_assoc. reflexivity.
Qed.

Lemma each_total (f : Unit -> outcome Unit) (g : Unit -> Unit) (us : list Unit) :
  (forall u, f u = Done (g u)) -> each f us = Done (map g us).
Proof.
  intros Hf. induction us as [| u rest IH]; cbn [each map]; [reflexivity |].
  rewrite Hf, IH. reflexivity.
Qed.

(** ** mock.c: [mock_init] and [mock_update] *)

(** The loop of [mock_init]: [dest_opens i] tells whether the file of unit
    [i] could be opened. *)
Fixpoint mock_init_from (dest_opens : Z -> bool) (mock_watts : list Z) (interval : Z)
    (n i : nat) (sibs : list Unit) : outcome (list Unit) :=
  match n with
  | O => Done sibs
  | S n' =>
      match nth_error mock_watts i with
      | None => Undefined
      | Some watts =>
          let sibs := store i (mock_init_unit (Z.of_nat i) watts interval) sibs in
          if dest_opens (Z.of_nat i) then
            mock_init_from dest_opens mock_watts interval n' (S i) sibs
          else Exit_failure
      end
  end.

(** [mock_init]: the component is zeroed (its [vendor] stays 0, [AMD]),
    then filled. *)
Definition mock_init (dest_opens : Z -> bool) (is_verbose : bool) (n_mocks : Z)
    (mock_watts : list Z) (interval : Z) : outcome Component :=
  _ <- assert (n_mocks <? N_SIBLINGS_MAX) ;;
  sibs <- mock_init_from dest_opens mock_watts interval (Z.to_nat n_mocks) 0
            (repeat Unit_zero (Z.to_nat N_SIBLINGS_MAX)) ;;
  Done (mkComponent sibs MOCK AMD n_mocks is_verbose).

Definition mock_update (mocks : Component) : outcome Component :=
  sibs <- update_from _mock_update_files (Z.to_nat (n_siblings mocks)) 0
            (siblings mocks) ;;
  Done (mkComponent sibs (c_type mocks) (c_vendor mocks) (n_siblings mocks)
                    (is_verbose mocks)).

(** [k] sampling cycles of the mock component. *)
Fixpoint mock_cycles (k : nat) (mocks : Component) : outcome Component :=
  match k with
  | O => Done mocks
  | S k' => mocks <- mock_update mocks ;; mock_cycles k' mocks
  end.

(** A mock unit after [k] cycles. *)
Definition mock_after (k : nat) (i watts interval : Z) : Unit :=
  let joules := u32 (watts * interval) in
  let u := set_energy_acc (u64 (Z.of_nat k * joules)) (mock_init_unit i watts interval) in
  match k with
  | O => u
  | S _ => write_file u
  end.

Definition mock_units (k : nat) (interval : Z) (from : nat) (watts : list Z) : list Unit :=
  map (fun p => mock_after k (Z.of_nat (fst p)) (snd p) interval)
      (combine (seq from (length watts)) watts).

Lemma mock_init_from_spec (dest_opens : Z -> bool) (interval : Z) (post : list Unit)
    (ws : list Z) :
  forall (done rest : list Z) (pre mid : list Unit),
    length pre = length done -> length mid = length ws ->
    (forall i, (length done <= i < length done + length ws)%nat ->
               dest_opens (Z.of_nat i) = true) ->
    mock_init_from dest_opens (done ++ ws ++ rest) interval (length ws) (length done)
                   (pre ++ mid ++ post)
    = Done (pre ++ mock_units 0 interval (length done) ws ++ post).
Proof.
  induction ws as [| w ws IH]; intros done rest pre mid Hpre Hmid Ho.
  - destruct mid; [| discriminate]. reflexivity.
  - destruct mid as [| old mid]; [discriminate |].
    cbn [mock_init_from length app].
    assert (Hnth : nth_error (done ++ w :: ws ++ rest) (length done) = Some w).
    { clear. induction done; cbn; auto. }
    rewrite Hnth, <- Hpre, store_app, Hpre.
    rewrite Ho by (cbn [length]; lia).
    specialize (IH (done ++ [w]) rest
                   (pre ++ [mock_init_unit (Z.of_nat (length done)) w interval]) mid).
    rewrite !length_app in IH. cbn [length] in IH.
    rewrite <- !app_assoc in IH. cbn [app] in IH.
    replace (length done + 1)%nat with (S (length done)) in IH by lia.
    rewrite IH; [reflexivity | lia | cbn [length] in Hmid; lia |].
    intros i Hi. apply Ho. cbn [length]. lia.
Qed.

Lemma mock_after_next (k : nat) (i watts interval : Z) :
  write_file (accumulate (mock_after k i watts interval))
  = mock_after (S k) i watts interval.
Proof.
  assert (Hacc : u64 (u64 (Z.of_nat k * u32 (watts * interval)) + u32 (watts * interval))
                 = u64 (Z.of_nat (S k) * u32 (watts * interval))).
  { unfold u64. rewrite Zplus_mod_idemp_l. f_equal. lia. }
  unfold mock_after, write_file, accumulate, mock_init_unit.
  destruct k as [| k]; cbn -[u64 u32 Z.of_nat Z.mul]; rewrite Hacc; reflexivity.
Qed.

Lemma mock_update_units (k : nat) (interval : Z) (ws : list Z) (post : list Unit)
    (t : type) (v : vendor) (verbose : bool) :
  mock_update (mkComponent (mock_units k interval 0 ws ++ post) t v
                           (Z.of_nat (length ws)) verbose)
  = Done (mkComponent (mock_units (S k) interval 0 ws ++ post) t v
                      (Z.of_nat (length ws)) verbose).
Proof.
  unfold mock_update. cbn [n_siblings siblings c_type c_vendor is_verbose].
  rewrite Nat2Z.id.
  assert (Hlen : length ws = length (mock_units k interval 0 ws)).
  { unfold mock_units. rewrite length_map, length_combine, length_seq. lia. }
  pose proof (update_from_each _mock_update_files (mock_units k interval 0 ws) [] post)
    as Hloop.
  cbn [length app] in Hloop. rewrite <- Hlen in Hloop. rewrite Hloop.
  rewrite (each_total _ (fun u => write_file (accumulate u))) by reflexivity.
  cbn [bind app]. do 2 f_equal. unfold mock_units. rewrite map_map.
  f_equal. apply map_ext. intros [i w]. apply mock_after_next.
Qed.

Lemma mock_cycles_units (k : nat) :
  forall (j : nat) (interval : Z) (ws : list Z) (post : list Unit)
         (t : type) (v : vendor) (verbose : bool),
    mock_cycles k (mkComponent (mock_units j interval 0 ws ++ post) t v
                               (Z.of_nat (length ws)) verbose)
    = Done (mkComponent (mock_units (k + j) interval 0 ws ++ post) t v
                        (Z.of_nat (length ws)) verbose).
Proof.
  induction k as [| k IH]; intros j interval ws post t v verbose; cbn [mock_cycles].
  - reflexivity.
  - rewrite mock_update_units. cbn [bind]. rewrite IH. do 4 f_equal. lia.
Qed.

Lemma mock_units_nth (k : nat) (interval : Z) (ws : list Z) (post : list Unit) :
  forall (from i : nat) (w : Z),
    nth_error ws i = Some w ->
    nth_error (mock_units k interval from ws ++ post) i
    = Some (mock_after k (Z.of_nat (from + i)) w interval).
Proof.
  induction ws as [| w0 ws IH]; intros from [| i] w H; try discriminate.
  - injection H as <-. cbn. rewrite Nat.add_0_r. reflexivity.
  - unfold mock_units. cbn [length seq combine map app nth_error].
    fold (mock_units k interval (S from) ws).
    rewrite (IH (S from) i w H). do 3 f_equal. lia.
Qed.

Lemma mock_init_units (dest_opens : Z -> bool) (is_verbose : bool)
    (watts rest : list Z) (interval : Z) :
  (length watts < 16)%nat -> (length (watts ++ rest) = 16)%nat ->
  (forall i, (i < length watts)%nat -> dest_opens (Z.of_nat i) = true) ->
  mock_init dest_opens is_verbose (Z.of_nat (length watts)) (watts ++ rest) interval
  = Done (mkComponent (mock_units 0 interval 0 watts
                       ++ repeat Unit_zero (16 - length watts))
                      MOCK AMD (Z.of_nat (length watts)) is_verbose).
Proof.
  intros Hlt Hlen Hopen. unfold mock_init, assert, N_SIBLINGS_MAX.
  destruct (Z.ltb_spec (Z.of_nat (length watts)) 16); [| lia]. cbn [bind].
  rewrite Nat2Z.id.
  set (post := repeat Unit_zero (16 - length watts)).
  assert (Hsplit : repeat Unit_zero (Z.to_nat 16)
                   = repeat Unit_zero (length watts) ++ post).
  { unfold post. rewrite <- repeat_app. f_equal. lia. }
  rewrite Hsplit.
  pose proof (mock_init_from_spec dest_opens interval post watts [] rest []
                (repeat Unit_zero (length watts)) eq_refl (repeat_length _ _)) as Hinit.
  cbn [length app Nat.add] in Hinit.
  rewrite Hinit; [reflexivity |]. intros i Hi. apply Hopen. lia.
Qed.

(** X6. [mock_init] with fewer than 16 mock units whose files open
    succeeds, and so does every [mock_update]: after [k] cycles, unit [i]
    still carries its number, its watts, and the energy of one interval,
    [watts * interval] on [uint32_t]; its accumulator, which its file
    shows, is [k] times that energy, on [uint64_t]. *)
Theorem mock_energy_is_linear :
  forall (dest_opens : Z -> bool) (is_verbose : bool) (watts rest : list Z)
         (interval : Z) (k : nat),
    (length watts < 16)%nat -> (length (watts ++ rest) = 16)%nat ->
    (forall i, (i < length watts)%nat -> dest_opens (Z.of_nat i) = true) ->
    exists mocks mocks',
      mock_init dest_opens is_verbose (Z.of_nat (length watts)) (watts ++ rest) interval
      = Done mocks /\
      mock_cycles k mocks = Done mocks' /\
      n_siblings mocks' = Z.of_nat (length watts) /\
      forall (i : nat) (w : Z),
        nth_error watts i = Some w ->
        exists u,
          nth_error (siblings mocks') i = Some u /\
          id u = Z.of_nat i /\ fixed_watts u = w /\
          energy_interval u = u32 (w * interval) /\
          energy_acc u = u64 (Z.of_nat k * u32 (w * interval)) /\
          energy_fd u = match k with O => None | S _ => Some (energy_acc u) end.
Proof.
  intros dest_opens is_verbose watts rest interval k Hlt Hlen Hopen.
  rewrite (mock_init_units _ _ _ _ _ Hlt Hlen Hopen).
  eexists. eexists. split; [reflexivity |].
  rewrite mock_cycles_units. split; [reflexivity |].
  cbn [n_siblings siblings]. split; [reflexivity |].
  intros i w Hw. rewrite Nat.add_0_r.
  rewrite (mock_units_nth k interval watts _ 0 i w Hw). cbn [Nat.add].
  eexists. split; [reflexivity |].
  unfold mock_after, mock_init_unit. destruct k; cbn -[u64 u32 Z.of_nat Z.mul];
    repeat split; reflexivity.
Qed.

(** Two mock units of 150 W and 200 W sampled every 10 s: after three
    cycles the second file shows 6000 Joules. *)
Lemma mock_energy_is_linear_witness :
  exists mocks mocks' u,
    mock_init (fun _ => true) false 2 ([150; 200] ++ repeat 0 14%nat) 10 = Done mocks /\
    mock_cycles 3 mocks = Done mocks' /\
    nth_error (siblings mocks') 1 = Some u /\
    energy_acc u = 6000 /\ energy_fd u = Some 6000.
Proof.
  destruct (mock_energy_is_linear (fun _ => true) false [150; 200] (repeat 0 14%nat)
              10 3) as (mocks & mocks' & Hinit & Hrun & _ & Hunits);
    [cbn; lia | reflexivity | reflexivity |].
  destruct (Hunits 1%nat 200 eq_refl) as (u & Hu & _ & _ & _ & Hacc & Hfd).
  exists mocks, mocks', u. split; [exact Hinit |]. split; [exact Hrun |].
  split; [exact Hu |]. rewrite Hfd, Hacc. split; reflexivity.
Defined.

(** X7. Sixteen [--mock] options are parsed without complaint, and then
    [mock_init] stops on its assertion: the array has 16 entries, the
    assertion allows 15 units. *)
Theorem sixteen_mocks_abort :
  forall args : list argument,
    Forall (fun a => arg_errno a = false) args ->
    length args = 16%nat ->
    exists ec',
      parse_opts (mock_options args) default_settings = Done ec' /\
      n_mocks ec' = N_SIBLINGS_MAX /\
      forall dest_opens,
        mock_init dest_opens (cli_is_verbose ec') (n_mocks ec') (mock_watts ec')
                  (cli_interval ec') = Assert_failure.
Proof.
  intros args Herr Hlen.
  pose proof (mock_options_from args default_settings [] (repeat 0 16%nat) Herr
                eq_refl eq_refl eq_refl) as H.
  rewrite repeat_length, Hlen in H. cbn [Nat.leb length Nat.add app] in H.
  eexists. split; [exact H |]. cbn [n_mocks set_n_mocks]. split; [reflexivity |].
  intros dest_opens. reflexivity.
Qed.

Lemma sixteen_mocks_abort_witness :
  exists ec',
    parse_opts (mock_options (repeat (mkArg "100"%string 100 false) 16)) default_settings
    = Done ec' /\
    mock_init (fun _ => true) false (n_mocks ec') (mock_watts ec') 10 = Assert_failure.
Proof.
  destruct (sixteen_mocks_abort (repeat (mkArg "100"%string 100 false) 16))
    as (ec' & Hrun & Hn & Hinit).
  - repeat constructor.
  - reflexivity.
  - exists ec'. split; [exact Hrun |].
    assert (Hv : cli_is_verbose ec' = false /\ cli_interval ec' = 10).
    { vm_compute in Hrun. injection Hrun as <-. split; reflexivity. }
    destruct Hv as [Hv Hi]. rewrite <- Hv, <- Hi. apply Hinit.
Defined.

(** ** The estimator on mock units *)

Lemma mock_units_intervals (k : nat) (interval : Z) (ws : list Z) :
  forall from : nat,
    map energy_interval (mock_units k interval from ws)
    = map (fun w => u32 (w * interval)) ws.
Proof.
  induction ws as [| w ws IH]; intros from; [reflexivity |].
  unfold mock_units. cbn [length seq combine map fst snd].
  fold (mock_units k interval (S from) ws). rewrite IH. f_equal.
  unfold mock_after, mock_init_unit. destruct k; reflexivity.
Qed.

Lemma mock_units_length (k : nat) (interval : Z) (ws : list Z) (from : nat) :
  length (mock_units k interval from ws) = length ws.
Proof. unfold mock_units. rewrite length_map, length_combine, length_seq. lia. Qed.

Lemma scaled_sum (interval : Z) (ws : list Z) :
  0 < interval -> Forall (fun w => 0 <= w) ws ->
  plain_sum ws * interval < 2 ^ 32 ->
  0 <= plain_sum ws /\
  plain_sum (map (fun w => u32 (w * interval)) ws) = plain_sum ws * interval.
Proof.
  intros Hi Hpos. induction Hpos as [| w ws Hw Hpos IH]; cbn [plain_sum fold_right map].
  - lia.
  - fold (plain_sum ws). fold (plain_sum (map (fun w => u32 (w * interval)) ws)).
    intros Hfit.
    assert (H0 : 0 <= plain_sum ws).
    { clear - Hpos. induction Hpos; cbn; [lia |]. fold (plain_sum l). lia. }
    destruct IH as [_ IH]; [nia |]. rewrite IH, u32_small by nia. lia.
Qed.

Lemma no_siblings_intervals (others : list Component) :
  Forall (fun c => n_siblings c = 0) others ->
  flat_map (fun c => map energy_interval
                         (firstn (Z.to_nat (n_siblings c)) (siblings c))) others = [].
Proof.
  induction 1 as [| c cs Hc _ IH]; [reflexivity |].
  cbn [flat_map]. rewrite Hc, IH. reflexivity.
Qed.

(** X8. With no other unit than mock units (fewer than 16, of watts that
    are not negative, with [sum of watts * interval] below 2^32 and an
    interval that is not zero), after any number of cycles the estimator
    measures the sum of the watts, and the overhead of a sample is the node
    power less that sum, or zero. *)
Theorem mock_power_is_measured :
  forall (dest_opens : Z -> bool) (is_verbose : bool) (watts rest : list Z)
         (seconds : Z) (k : nat) (others : list Component) (o : Overhead_t)
         (node_power : Z),
    (length watts < 16)%nat -> (length (watts ++ rest) = 16)%nat ->
    (forall i, (i < length watts)%nat -> dest_opens (Z.of_nat i) = true) ->
    length others = 5%nat -> Forall (fun c => n_siblings c = 0) others ->
    0 < seconds -> Forall (fun w => 0 <= w) watts ->
    plain_sum watts * seconds < 2 ^ 32 ->
    exists mocks mocks',
      mock_init dest_opens is_verbose (Z.of_nat (length watts)) (watts ++ rest) seconds
      = Done mocks /\
      mock_cycles k mocks = Done mocks' /\
      let ec := mkEcounter (others ++ [mocks']) seconds o in
      power_interval ec = plain_sum watts /\
      overhead_interval ec node_power = Z.max (node_power - plain_sum watts) 0 mod 2 ^ 32.
Proof.
  intros dest_opens is_verbose watts rest seconds k others o node_power
         Hlt Hlen Hopen Hothers Hnone Hi Hpos Hfit.
  rewrite (mock_init_units _ _ _ _ _ Hlt Hlen Hopen).
  eexists. eexists. split; [reflexivity |].
  rewrite mock_cycles_units. split; [reflexivity |].
  rewrite Nat.add_0_r. cbv zeta.
  set (ec := mkEcounter _ seconds o).
  destruct (scaled_sum seconds watts Hi Hpos Hfit) as [H0 Hsum].
  assert (HP : power_interval ec = plain_sum watts).
  { unfold power_interval. rewrite sum_energy_interval_spec.
    unfold unit_intervals, ec. cbn [components interval].
    rewrite firstn_all2 by (rewrite length_app, Hothers; cbn; lia).
    rewrite flat_map_app, (no_siblings_intervals others Hnone).
    cbn [flat_map app n_siblings siblings]. rewrite app_nil_r, Nat2Z.id.
    rewrite <- (mock_units_length k seconds watts 0) at 1.
    rewrite firstn_app, Nat.sub_diag, firstn_O, app_nil_r, firstn_all.
    rewrite mock_units_intervals, Hsum, u32_small by nia.
    apply Z.div_mul. lia. }
  split; [exact HP |].
  unfold overhead_interval. rewrite HP.
  destruct (Z.ltb_spec (plain_sum watts) node_power).
  - unfold u32. f_equal. lia.
  - rewrite Z.max_r by lia. reflexivity.
Qed.

Lemma mock_power_is_measured_witness :
  exists mocks mocks',
    mock_init (fun _ => true) false 2 ([150; 200] ++ repeat 0 14%nat) 10 = Done mocks /\
    mock_cycles 3 mocks = Done mocks' /\
    power_interval (mkEcounter (repeat (mkComponent [] GPU AMD 0 false) 5 ++ [mocks'])
                               10 init_overhead) = 350.
Proof.
  destruct (mock_power_is_measured (fun _ => true) false [150; 200] (repeat 0 14%nat)
              10 3 (repeat (mkComponent [] GPU AMD 0 false) 5) init_overhead 400)
    as (mocks & mocks' & Hinit & Hrun & HP & _);
    try reflexivity; try (cbn; lia); try (repeat constructor; lia).
  exists mocks, mocks'. split; [exact Hinit |]. split; [exact Hrun |]. exact HP.
Defined.

(** ** cpu.c, dram.c: a 32-bit counter followed over a run *)

(** The energy-status register of a counter that stands at [T] counts in
    all: its low 32 bits (the high half of the register reads zero). *)
Definition rapl_msr (T : Z) : msr_device := fun _ _ => Some (T mod 2 ^ 32).

(** Successive values of a counter, each one related to the one before. *)
Fixpoint chain (next : Z -> Z -> Prop) (T0 : Z) (Ts : list Z) : Prop :=
  match Ts with
  | [] => True
  | T :: rest => next T0 T /\ chain next T rest
  end.

(** None more than one turn of the 32-bit register after the one
    before. *)
Definition within_one_turn : Z -> list Z -> Prop :=
  chain (fun T T' => T <= T' < T + 2 ^ 32).

Lemma wraparound_delta_true_counter (T T' : Z) :
  T <= T' < T + 2 ^ 32 ->
  wraparound_delta (T mod 2 ^ 32) (T' mod 2 ^ 32) = T' - T.
Proof.
  intros H. unfold wraparound_delta.
  pose proof (Z.mod_pos_bound T (2 ^ 32) ltac:(lia)) as Hl.
  pose proof (Z.mod_pos_bound T' (2 ^ 32) ltac:(lia)) as Hr.
  pose proof (Z.div_mod T (2 ^ 32) ltac:(lia)) as HT.
  pose proof (Z.div_mod T' (2 ^ 32) ltac:(lia)) as HT'.
  assert (Hq : T' / 2 ^ 32 = T / 2 ^ 32 \/ T' / 2 ^ 32 = T / 2 ^ 32 + 1) by nia.
  destruct (Z.geb_spec (T' mod 2 ^ 32) (T mod 2 ^ 32)); nia.
Qed.

(** One cycle of a package on a counter that moved from [T] to [T']. *)
Lemma cpu_step_counter (to_core : Z -> Z) (v : vendor) (k : Z) (package : Unit)
    (T T' : Z) :
  v = INTEL \/ v = AMD -> 0 <= k <= 31 ->
  energy_resolution package = B64.pow_half k ->
  energy_raw package = T mod 2 ^ 32 -> T <= T' < T + 2 ^ 32 ->
  exists package',
    cpu_step to_core v package (rapl_msr T') = Done package' /\
    energy_resolution package' = B64.pow_half k /\
    energy_raw package' = T' mod 2 ^ 32 /\
    energy_interval package' = (T' - T) / 2 ^ k /\
    energy_acc package' = u64 (energy_acc package + energy_interval package').
Proof.
  intros Hv Hk Hres Hraw HT.
  pose proof (Z.mod_pos_bound T (2 ^ 32) ltac:(lia)) as Hl.
  pose proof (Z.mod_pos_bound T' (2 ^ 32) ltac:(lia)) as Hr.
  destruct (package_update_tail k package (T' mod 2 ^ 32) [] Hk Hres
              ltac:(rewrite Hraw; lia) Hr) as (p' & Hrun & Hup).
  assert (Hpos : B64.gt (energy_resolution package) B64.zero = true)
    by (rewrite Hres; apply pow_half_positive; lia).
  exists p'. split.
  - unfold cpu_step, _cpu_package_update_files, _cpu_package_fetch_energy, read_msr,
      rapl_msr.
    rewrite (u64_small (T' mod 2 ^ 32)) by lia.
    destruct Hv as [-> | ->]; cbn [bind]; cbn [energy_resolution set_energy_raw];
      rewrite Hpos; cbn [bind];
      (destruct (to_uint64_t _) as [iv | | |]; cbn [bind] in *; try discriminate;
       injection Hrun as <-; reflexivity).
  - destruct Hup as (_ & Hr' & Hres' & _ & Hitv & _ & Hacc).
    rewrite Hraw, wraparound_delta_true_counter in Hitv by lia.
    repeat split; trivial. congruence.
Qed.

Lemma dram_step_counter (to_core : Z -> Z) (k : Z) (package : Unit) (T T' : Z) :
  0 <= k <= 31 ->
  energy_resolution package = B64.pow_half k ->
  energy_raw package = T mod 2 ^ 32 -> T <= T' < T + 2 ^ 32 ->
  exists package',
    dram_step to_core INTEL package (rapl_msr T') = Done package' /\
    energy_resolution package' = B64.pow_half k /\
    energy_raw package' = T' mod 2 ^ 32 /\
    energy_interval package' = (T' - T) / 2 ^ k /\
    energy_acc package' = u64 (energy_acc package + energy_interval package').
Proof.
  intros Hk Hres Hraw HT.
  pose proof (Z.mod_pos_bound T (2 ^ 32) ltac:(lia)) as Hl.
  pose proof (Z.mod_pos_bound T' (2 ^ 32) ltac:(lia)) as Hr.
  destruct (package_update_tail k package (T' mod 2 ^ 32) [] Hk Hres
              ltac:(rewrite Hraw; lia) Hr) as (p' & Hrun & Hup).
  assert (Hpos : B64.gt (energy_resolution package) B64.zero = true)
    by (rewrite Hres; apply pow_half_positive; lia).
  exists p'. split.
  - unfold dram_step, _dram_package_update_files, _dram_package_fetch_energy, read_msr,
      rapl_msr.
    rewrite (u64_small (T' mod 2 ^ 32)) by lia.
    cbn [bind]; cbn [energy_resolution set_energy_raw]; rewrite Hpos; cbn [bind].
    destruct (to_uint64_t _) as [iv | | |]; cbn [bind] in *; try discriminate.
    injection Hrun as <-. reflexivity.
  - destruct Hup as (_ & Hr' & Hres' & _ & Hitv & _ & Hacc).
    rewrite Hraw, wraparound_delta_true_counter in Hitv by lia.
    repeat split; trivial. congruence.
Qed.

(** What a run of cycles on the counter values [Ts] leaves, [c] counts
    being one Joule: as many states, and a total of interval energies that
    is never above the energy of the counts, [(last - T0) / c] Joules, and
    falls short of it by less than one Joule per cycle ([c - 1] counts at
    most). *)
Definition tracks_counter (c : Z) (u : Unit) (T0 : Z) (Ts : list Z)
    (trace : list Unit) : Prop :=
  length trace = length Ts /\
  c * total energy_interval trace <= last Ts T0 - T0
    <= c * (total energy_interval trace + Z.of_nat (length Ts))
       - Z.of_nat (length Ts) /\
  energy_acc (last trace u) = u64 (energy_acc u + total energy_interval trace).

Section Tracking.

Context {I : Type}.
Variable step : Unit -> I -> outcome Unit.
Variable input_of : Z -> I.
Variable c : Z.
Variable holds : Unit -> Z -> Prop.
Variable next : Z -> Z -> Prop.

Hypothesis c_pos : 0 < c.
Hypothesis step_counter :
  forall u T T',
    holds u T -> next T T' ->
    exists u',
      step u (input_of T') = Done u' /\
      holds u' T' /\
      energy_interval u' = (T' - T) / c /\
      energy_acc u' = u64 (energy_acc u + energy_interval u').

Lemma cycles_track_counter :
  forall (Ts : list Z) (T0 : Z) (u : Unit),
    holds u T0 -> 0 <= energy_acc u < 2 ^ 64 -> chain next T0 Ts ->
    exists trace,
      cycles step u (map input_of Ts) = Done trace /\
      holds (last trace u) (last Ts T0) /\
      tracks_counter c u T0 Ts trace.
Proof.
  induction Ts as [| T Ts IH]; intros T0 u Hu Hacc Hchain.
  - exists []. split; [reflexivity |]. split; [exact Hu |].
    unfold tracks_counter, total. cbn [length last map fold_right].
    rewrite Z.add_0_r, u64_small by lia. repeat split; lia.
  - destruct Hchain as [HT Hchain].
    destruct (step_counter u T0 T Hu HT) as (u1 & Hstep & Hu1 & Hitv1 & Hacc1).
    assert (Hr1 : 0 <= energy_acc u1 < 2 ^ 64) by (rewrite Hacc1; apply u64_range).
    destruct (IH T u1 Hu1 Hr1 Hchain) as (trace & Hrun & Hlast & Hlen & Hsum & Hacc').
    exists (u1 :: trace). split.
    + cbn [map cycles]. rewrite Hstep. cbn [bind]. rewrite Hrun. reflexivity.
    + rewrite !last_cons_default. split; [exact Hlast |].
      unfold tracks_counter. rewrite !last_cons_default.
      unfold total in *. cbn [map fold_right length].
      split; [lia |]. split.
      * pose proof (Z.mul_div_le (T - T0) c c_pos) as H1.
        pose proof (Z.mul_succ_div_gt (T - T0) c c_pos) as H2.
        rewrite Hitv1. lia.
      * rewrite Hacc', Hacc1. unfold u64. rewrite Zplus_mod_idemp_l. f_equal. lia.
Qed.

End Tracking.

(** X9. A CPU package (Intel or AMD) or a DRAM package (Intel) with a
    known resolution 0.5^k is sampled while its counter, 32 bits wide in the
    register, goes through the values [Ts], each less than 2^32 counts
    after the one before: every cycle returns, whatever the number of
    wraparounds, and the interval energies add up to the energy of the
    counts passed, [(last - T0) / 2^k] Joules, less what the conversions
    to whole Joules dropped, which is under one Joule per cycle. *)
Theorem package_tracks_counter :
  forall (to_core : Z -> Z) (k : Z) (package : Unit) (T0 : Z) (Ts : list Z),
    0 <= k <= 31 ->
    energy_resolution package = B64.pow_half k ->
    energy_raw package = T0 mod 2 ^ 32 ->
    0 <= energy_acc package < 2 ^ 64 ->
    within_one_turn T0 Ts ->
    (forall v, v = INTEL \/ v = AMD ->
       exists trace,
         cycles (cpu_step to_core v) package (map rapl_msr Ts) = Done trace /\
         energy_raw (last trace package) = last Ts T0 mod 2 ^ 32 /\
         tracks_counter (2 ^ k) package T0 Ts trace) /\
    (exists trace,
       cycles (dram_step to_core INTEL) package (map rapl_msr Ts) = Done trace /\
       energy_raw (last trace package) = last Ts T0 mod 2 ^ 32 /\
       tracks_counter (2 ^ k) package T0 Ts trace).
Proof.
  intros to_core k package T0 Ts Hk Hres Hraw Hacc Hturn.
  assert (Hp : 0 < 2 ^ k) by (apply Z.pow_pos_nonneg; lia).
  set (holds := fun (u : Unit) (T : Z) =>
                  energy_resolution u = B64.pow_half k /\ energy_raw u = T mod 2 ^ 32).
  split.
  - intros v Hv.
    destruct (cycles_track_counter (cpu_step to_core v) rapl_msr (2 ^ k) holds
                (fun T T' => T <= T' < T + 2 ^ 32) Hp) with (Ts := Ts) (T0 := T0)
                (u := package) as (trace & Hrun & [_ Hlast] & Htrack); trivial.
    + intros u T T' [Hr Hw] HT.
      destruct (cpu_step_counter to_core v k u T T' Hv Hk Hr Hw HT)
        as (u' & H1 & H2 & H3 & H4 & H5).
      exists u'. unfold holds. auto.
    + split; trivial.
    + exists trace. auto.
  - destruct (cycles_track_counter (dram_step to_core INTEL) rapl_msr (2 ^ k) holds
                (fun T T' => T <= T' < T + 2 ^ 32) Hp) with (Ts := Ts) (T0 := T0)
                (u := package) as (trace & Hrun & [_ Hlast] & Htrack); trivial.
    + intros u T T' [Hr Hw] HT.
      destruct (dram_step_counter to_core k u T T' Hk Hr Hw HT)
        as (u' & H1 & H2 & H3 & H4 & H5).
      exists u'. unfold holds. auto.
    + split; trivial.
    + exists trace. auto.
Qed.

Definition wrapping_package : Unit :=
  set_energy_raw 4294960000 (set_energy_resolution (B64.pow_half 10) Unit_zero).

(** Resolution 2^-10 J; the counter stands at 4294960000, then passes
    2^32 and reaches 4295000000, then 4295500000: 39 J and 488 J, and 527 J
    in all where the counts are worth 527.3 J. *)
Lemma package_tracks_counter_witness :
  exists trace,
    cycles (cpu_step (fun _ => 0) INTEL) wrapping_package
           (map rapl_msr [4295000000; 4295500000]) = Done trace /\
    map energy_raw trace = [32704; 532704] /\
    map energy_interval trace = [39; 488] /\
    2 ^ 10 * total energy_interval trace <= 4295500000 - 4294960000
      <= 2 ^ 10 * (total energy_interval trace + 2) - 2.
Proof.
  destruct (package_tracks_counter (fun _ => 0) 10 wrapping_package 4294960000
              [4295000000; 4295500000]) as [Hcpu _];
    try reflexivity; try (cbn; lia).
  destruct (Hcpu INTEL (or_introl eq_refl)) as (trace & Hrun & _ & _ & Hsum & _).
  exists trace. split; [exact Hrun |].
  assert (Hv : map energy_raw trace = [32704; 532704] /\
               map energy_interval trace = [39; 488]).
  { vm_compute in Hrun. injection Hrun as <-. split; reflexivity. }
  destruct Hv as [Hraws Hitvs]. split; [exact Hraws |]. split; [exact Hitvs |].
  exact Hsum.
Defined.

(** ** nvidia_gpu.c, intel_gpu.c: a counter followed over a run *)

(** Millijoules to Joules, as [microjoules_to_joules]. *)
Lemma millijoules_to_joules (delta : Z) :
  0 <= delta < 2 ^ 52 ->
  B64.to_u64 (B64.div (B64.of_uint delta) B64.c_1E3) = Some (delta / 1000).
Proof.
  intros Hd. destruct (Z.eq_dec delta 0) as [-> | Hnz]; [reflexivity |].
  destruct (of_uint_exact delta ltac:(lia)) as [Hx Hxv].
  destruct (of_uint_exact 1000 ltac:(lia)) as [Hy Hyv].
  fold B64.c_1E3 in Hy, Hyv.
  pose proof (div_rounds _ _ _ _ _ _ Hx Hy ltac:(lia) ltac:(lia))
    as (Hfin & Herr & Hlow & _).
  rewrite Hxv, Hyv in Herr, Hlow.
  set (q := B64.div (B64.of_uint delta) B64.c_1E3) in *.
  set (n := delta / 1000).
  pose proof (Z.mul_div_le delta 1000 ltac:(lia)) as H1.
  pose proof (Z.mul_succ_div_gt delta 1000 ltac:(lia)) as H2.
  fold n in H1, H2.
  assert (Hn : 0 <= n) by (apply Z.div_pos; lia).
  assert (H1R : (1000 * IZR n <= IZR delta)%R).
  { rewrite <- mult_IZR. apply IZR_le. lia. }
  assert (H2R : (IZR delta + 1 <= 1000 * (IZR n + 1))%R).
  { rewrite <- (plus_IZR n 1), <- mult_IZR, <- plus_IZR. apply IZR_le. lia. }
  assert (HdR : (IZR delta < 4503599627370496)%R).
  { rewrite <- IZR_pow2_52. apply IZR_lt. lia. }
  assert (HdR0 : (0 < IZR delta)%R) by (apply IZR_lt; lia).
  apply (to_u64_floor q _ _ n Hfin); [| lia].
  split.
  - apply Hlow; [lia | lra].
  - rewrite IZR_pow2_52 in Herr.
    pose proof (Rle_abs (B64.B2R q - IZR delta / 1000)) as Habs. lra.
Qed.

(** A counter that only grows, by less than 2^52 counts a cycle. *)
Definition grows : Z -> Z -> Prop :=
  fun T T' => T <= T' < 2 ^ 64 /\ T' - T < 2 ^ 52.

Lemma nvidia_step_counter (u : Unit) (T T' : Z) :
  energy_raw u = T -> 0 < T -> grows T T' ->
  exists u',
    nvidia_step u (fun _ => T') = Done u' /\
    energy_raw u' = T' /\
    energy_interval u' = (T' - T) / 1000 /\
    energy_acc u' = u64 (energy_acc u + energy_interval u') /\
    energy_fd u' = Some (energy_acc u').
Proof.
  intros Hraw HT [Hle Hlt].
  unfold nvidia_step, _nvidia_device_update_files.
  cbn [energy_raw set_energy_raw]. rewrite Hraw, (u64_small T') by lia.
  destruct (Z.eqb_spec T 0); [lia |].
  unfold assert. destruct (Z.geb_spec T' T); [| lia]. cbn [bind].
  rewrite (u64_small (T' - T)) by lia.
  unfold to_uint64_t. rewrite millijoules_to_joules by lia. cbn [bind].
  eexists. split; [reflexivity |]. cbn -[u64 Z.div]. repeat split; reflexivity.
Qed.

Lemma intel_step_counter (u : Unit) (T T' : Z) :
  energy_raw u = T -> 0 < T -> grows T T' ->
  exists u',
    intel_step u (fun _ => T') = Done u' /\
    energy_raw u' = T' /\ model u' = model u /\
    energy_interval u'
    = (T' - T) / (if model u =? MAX1550 then 2000000 else 1000000) /\
    energy_acc u' = u64 (energy_acc u + energy_interval u') /\
    energy_fd u' = Some (energy_acc u').
Proof.
  intros Hraw HT [Hle Hlt].
  unfold intel_step, _intel_device_update_files.
  cbn [energy_raw set_energy_raw]. rewrite Hraw, (u64_small T') by lia.
  destruct (Z.eqb_spec T 0); [lia |].
  unfold assert. destruct (Z.geb_spec T' T); [| lia]. cbn [bind].
  rewrite (u64_small (T' - T)) by lia.
  unfold to_uint64_t. rewrite microjoules_to_joules by lia. cbn [bind].
  cbn [model set_energy_interval set_energy_raw energy_interval].
  eexists. split; [reflexivity |].
  destruct (model u =? MAX1550); cbn -[u64 Z.div]; repeat split; try reflexivity.
  rewrite Z.div_div by lia. reflexivity.
Qed.

(** X10. An NVIDIA or Intel GPU with a baseline is sampled while its
    counter (mJ for NVIDIA, uJ for Intel) takes the values [Ts], never
    going back and moving by less than 2^52 counts a cycle: every cycle
    returns, the last raw value is the last reading, and the interval
    energies add up to the Joules of the counts passed (half of them for
    an Intel Max 1550), less what the conversions to whole Joules dropped,
    under one Joule per cycle. *)
Theorem gpu_tracks_counter :
  forall (dev : Unit) (T0 : Z) (Ts : list Z),
    energy_raw dev = T0 -> 0 < T0 ->
    0 <= energy_acc dev < 2 ^ 64 ->
    chain grows T0 Ts ->
    (exists trace,
       cycles nvidia_step dev (map (fun T _ => T) Ts) = Done trace /\
       energy_raw (last trace dev) = last Ts T0 /\
       tracks_counter 1000 dev T0 Ts trace) /\
    (exists trace,
       cycles intel_step dev (map (fun T _ => T) Ts) = Done trace /\
       energy_raw (last trace dev) = last Ts T0 /\
       tracks_counter (if model dev =? MAX1550 then 2000000 else 1000000)
                      dev T0 Ts trace).
Proof.
  intros dev T0 Ts Hraw HT0 Hacc Hchain. split.
  - destruct (cycles_track_counter nvidia_step (fun T _ => T) 1000
                (fun u T => energy_raw u = T /\ 0 < T) grows ltac:(lia))
      with (Ts := Ts) (T0 := T0) (u := dev) as (trace & Hrun & [Hlast _] & Htrack);
      trivial.
    + intros u T T' [Hr HT] Hg.
      destruct (nvidia_step_counter u T T' Hr HT Hg) as (u' & H1 & H2 & H3 & H4 & _).
      exists u'. repeat split; trivial. destruct Hg as [Hg _]. lia.
    + split; trivial.
    + exists trace. auto.
  - set (c := if model dev =? MAX1550 then 2000000 else 1000000).
    assert (Hc : 0 < c) by (unfold c; destruct (model dev =? MAX1550); lia).
    destruct (cycles_track_counter intel_step (fun T _ => T) c
                (fun u T => energy_raw u = T /\ 0 < T /\ model u = model dev) grows Hc)
      with (Ts := Ts) (T0 := T0) (u := dev) as (trace & Hrun & [Hlast _] & Htrack);
      trivial.
    + intros u T T' (Hr & HT & Hm) Hg.
      destruct (intel_step_counter u T T' Hr HT Hg) as (u' & H1 & H2 & H3 & H4 & H5 & _).
      exists u'. rewrite Hm in H4. fold c in H4.
      repeat split; trivial; try congruence. destruct Hg as [Hg _]. lia.
    + repeat split; trivial.
    + exists trace. auto.
Qed.

(** An NVIDIA GPU whose counter reads 5000 mJ at its baseline, then 8500,
    12000 and 12999: 3 J, 3 J and 0 J where the counts are worth 7.999 J. *)
Lemma gpu_tracks_counter_witness :
  exists trace,
    cycles nvidia_step (set_energy_raw 5000 Unit_zero)
           (map (fun T _ => T) [8500; 12000; 12999]) = Done trace /\
    map energy_interval trace = [3; 3; 0] /\
    1000 * total energy_interval trace <= 12999 - 5000
      <= 1000 * (total energy_interval trace + 3) - 3.
Proof.
  destruct (gpu_tracks_counter (set_energy_raw 5000 Unit_zero) 5000 [8500; 12000; 12999])
    as [Hnv _]; try reflexivity; try (cbn; unfold grows; lia).
  destruct Hnv as (trace & Hrun & _ & _ & Hsum & _).
  exists trace. split; [exact Hrun |].
  assert (Hv : map energy_interval trace = [3; 3; 0]).
  { vm_compute in Hrun. injection Hrun as <-. reflexivity. }
  split; [exact Hv | exact Hsum].
Defined.

(** ** cpu.c, dram.c: the packages and their cores *)

(** The first loop of [cpu_init] and [dram_init]. [topology] holds, for
    CPU 0, 1, ... as long as the file [physical_package_id] of the CPU can be
    opened, the number read from it. [to_core] is the static array
    [_cpu_package_to_core]: writing past its end is undefined. *)
Fixpoint scan_topology (topology : list Z) (i n_siblings : Z) (to_core : list Z)
    : outcome (Z * list Z) :=
  match topology with
  | [] => Done (n_siblings, to_core)
  | package_id :: rest =>
      let n_siblings := MAX n_siblings (u32 (package_id + 1)) in
      if (0 <=? package_id) && (package_id <? N_SIBLINGS_MAX) then
        scan_topology rest (u32 (i + 1)) n_siblings
                      (store_Z (Z.to_nat package_id) i to_core)
      else Undefined
  end.

Lemma store_Z_same (l : list Z) :
  forall (i : nat) (v d : Z), (i < length l)%nat -> nth i (store_Z i v l) d = v.
Proof.
  induction l as [| h t IH]; intros i v d H; [cbn in H; lia |].
  destruct i as [| i]; [reflexivity |]. cbn in *. apply IH. lia.
Qed.

Lemma store_Z_other (l : list Z) :
  forall (i j : nat) (v d : Z), i <> j -> nth j (store_Z i v l) d = nth j l d.
Proof.
  induction l as [| h t IH]; intros i j v d H.
  - destruct i; reflexivity.
  - destruct i as [| i], j as [| j]; cbn; try reflexivity; try lia.
    apply IH. lia.
Qed.

(** What the scan leaves, for identifiers that all fit the array. *)
Lemma scan_topology_spec (rest : list Z) :
  forall (i n : Z) (tc : list Z),
    Forall (fun p => 0 <= p < N_SIBLINGS_MAX) rest ->
    length tc = 16%nat -> 0 <= i -> i + Z.of_nat (length rest) < 2 ^ 32 ->
    0 <= n <= N_SIBLINGS_MAX ->
    exists n' tc',
      scan_topology rest i n tc = Done (n', tc') /\
      length tc' = 16%nat /\ n <= n' <= N_SIBLINGS_MAX /\
      (forall p, In p rest -> p < n') /\
      (n' = n \/ In (n' - 1) rest) /\
      (forall p, 0 <= p -> ~ In p rest ->
                 nth (Z.to_nat p) tc' 0 = nth (Z.to_nat p) tc 0) /\
      (forall p j, nth_error rest j = Some p ->
                   (forall j', (j < j')%nat -> nth_error rest j' <> Some p) ->
                   nth (Z.to_nat p) tc' 0 = i + Z.of_nat j).
Proof.
  unfold N_SIBLINGS_MAX.
  induction rest as [| q rest IH]; intros i n tc Hall Htc Hi Hlen Hn.
  - exists n, tc. split; [reflexivity |]. split; [exact Htc |]. split; [lia |].
    split; [intros p [] |]. split; [left; reflexivity |].
    split; [reflexivity |]. intros p [| j]; discriminate.
  - inversion Hall as [| ? ? Hq Hall']; subst. cbn [length] in Hlen.
    cbn [scan_topology]. unfold N_SIBLINGS_MAX.
    destruct (Z.leb_spec 0 q); [| lia]. destruct (Z.ltb_spec q 16); [| lia].
    cbn [andb]. rewrite (u32_small (q + 1)), (u32_small (i + 1)) by lia.
    rewrite MAX_max.
    destruct (IH (i + 1) (Z.max (q + 1) n) (store_Z (Z.to_nat q) i tc) Hall'
                 ltac:(rewrite store_Z_length; exact Htc) ltac:(lia) ltac:(lia)
                 ltac:(lia))
      as (n' & tc' & Hrun & Hlen' & Hn' & Hlt & Hmax & Hout & Hin).
    exists n', tc'. split; [exact Hrun |]. split; [exact Hlen' |].
    split; [lia |]. split; [| split; [| split]].
    + intros p [<- | Hp]; [lia | exact (Hlt p Hp)].
    + destruct Hmax as [-> | Hmax].
      * destruct (Z.max_spec (q + 1) n) as [[_ ->] | [_ ->]]; [left; reflexivity |].
        right. left. lia.
      * right. right. exact Hmax.
    + intros p Hp Hnot. rewrite Hout by (trivial; intros H'; apply Hnot; right; exact H').
      apply store_Z_other. intros E. apply Hnot. left. lia.
    + intros p [| j] Hj Hlast.
      * injection Hj as ->.
        rewrite Hout.
        -- rewrite store_Z_same by lia. lia.
        -- lia.
        -- intros Hp. apply In_nth_error in Hp. destruct Hp as [j' Hj'].
           apply (Hlast (S j')); [lia | exact Hj'].
      * cbn [nth_error] in Hj. rewrite (Hin p j Hj).
        -- lia.
        -- intros j' Hlt' Hj'. apply (Hlast (S j')); [lia | exact Hj'].
Qed.

(** X11. The scan of the CPU topology, for package identifiers below 16:
    [n_siblings] is the largest identifier plus one (zero without any CPU),
    the core kept for a package is the last CPU that reported it, and a
    number below [n_siblings] that no CPU reported is sent to CPU 0. An
    identifier of 16 or more is written past the end of the table. *)
Theorem topology_scan_keeps_last_cpu :
  forall topology : list Z,
    Z.of_nat (length topology) < 2 ^ 32 ->
    (Forall (fun p => 0 <= p < N_SIBLINGS_MAX) topology ->
     exists n_siblings to_core,
       scan_topology topology 0 0 (repeat 0 16%nat) = Done (n_siblings, to_core) /\
       (forall p, In p topology -> p < n_siblings) /\
       (topology = [] /\ n_siblings = 0 \/ In (n_siblings - 1) topology) /\
       (forall p cpu, nth_error topology cpu = Some p ->
                      (forall later, (cpu < later)%nat ->
                                     nth_error topology later <> Some p) ->
                      nth (Z.to_nat p) to_core 0 = Z.of_nat cpu) /\
       (forall p, 0 <= p -> ~ In p topology -> nth (Z.to_nat p) to_core 0 = 0)) /\
    (forall before p after,
       topology = before ++ p :: after ->
       Forall (fun q => 0 <= q < N_SIBLINGS_MAX) before ->
       N_SIBLINGS_MAX <= p ->
       scan_topology topology 0 0 (repeat 0 16%nat) = Undefined).
Proof.
  intros topology Hlen. split.
  - intros Hall.
    destruct (scan_topology_spec topology 0 0 (repeat 0 16%nat) Hall eq_refl
                ltac:(lia) ltac:(lia) ltac:(unfold N_SIBLINGS_MAX; lia))
      as (n' & tc' & Hrun & _ & Hn & Hlt & Hmax & Hout & Hin).
    exists n', tc'. split; [exact Hrun |]. split; [exact Hlt |].
    split; [| split].
    + destruct Hmax as [-> | Hmax]; [| right; exact Hmax].
      destruct topology as [| q rest]; [left; split; reflexivity |].
      specialize (Hlt q (or_introl eq_refl)). inversion Hall; subst. lia.
    + intros p cpu Hp Hlast. rewrite (Hin p cpu Hp Hlast). lia.
    + intros p Hp Hnot. rewrite (Hout p Hp Hnot).
      destruct (Z.to_nat p) as [| [| [| [| [| [| [| [| [| [| [| [| [| [| [| [| m]]]]]]]]]]]]]]]];
        try reflexivity. cbn. destruct m; reflexivity.
  - intros before p after -> Hbefore Hp.
    assert (G : forall (l : list Z) i n tc,
               Forall (fun q => 0 <= q < N_SIBLINGS_MAX) l ->
               scan_topology (l ++ p :: after) i n tc = Undefined).
    { induction l as [| q l IH]; intros i n tc Hl; cbn [app scan_topology].
      - destruct (Z.ltb_spec p N_SIBLINGS_MAX); [lia |].
        rewrite Bool.andb_false_r. reflexivity.
      - inversion Hl as [| ? ? Hq Hl']; subst.
        destruct (Z.leb_spec 0 q); [| lia].
        destruct (Z.ltb_spec q N_SIBLINGS_MAX); [| lia]. cbn [andb].
        apply IH. exact Hl'. }
    apply G. exact Hbefore.
Qed.

(** Two packages numbered 0 and 2, two CPUs each: three siblings, and the
    package 1 that does not exist reads the registers of CPU 0. *)
Lemma topology_scan_keeps_last_cpu_witness :
  exists to_core,
    scan_topology [0; 0; 2; 2] 0 0 (repeat 0 16%nat) = Done (3, to_core) /\
    nth 0 to_core 0 = 1 /\ nth 1 to_core 0 = 0 /\ nth 2 to_core 0 = 3.
Proof.
  destruct (topology_scan_keeps_last_cpu [0; 0; 2; 2]) as [Hscan _]; [cbn; lia |].
  destruct Hscan as (n & to_core & Hrun & _ & _ & Hlast & Hnone).
  { repeat constructor; unfold N_SIBLINGS_MAX; lia. }
  assert (Hn : n = 3) by (vm_compute in Hrun; congruence). subst n.
  exists to_core. split; [exact Hrun |]. split; [| split].
  - apply (Hlast 0 1%nat eq_refl). intros later Hlt H.
    do 4 (destruct later as [| later]; [try lia; discriminate |]).
    destruct later; discriminate.
  - apply (Hnone 1); [lia |]. cbn. intuition lia.
  - apply (Hlast 2 3%nat eq_refl). intros later Hlt H.
    do 4 (destruct later as [| later]; [try lia; discriminate |]).
    destruct later; discriminate.
Defined.

(** ** cpu.c: [cpu_init] and [cpu_update] *)

(** The static array as the function the unit functions read. *)
Definition table (to_core : list Z) : Z -> Z :=
  fun package_id => nth (Z.to_nat package_id) to_core 0.

(** The second loop of [cpu_init]. *)
Fixpoint cpu_init_from (to_core : Z -> Z) (hw : msr_device) (v : vendor)
    (dest_opens : Z -> bool) (n i : nat) (sibs : list Unit) : outcome (list Unit) :=
  match n with
  | O => Done sibs
  | S n' =>
      '(package, _) <- cpu_init_package to_core hw (Z.of_nat i) v
                                        (dest_opens (Z.of_nat i)) ;;
      cpu_init_from to_core hw v dest_opens n' (S i) (store i package sibs)
  end.

(** [cpu_init], returned with the table of cores it filled. [vendor_id] is
    what [get_vendor] answered, [topology] what the scan reads. *)
Definition cpu_init (vendor_id : vendor) (topology : list Z) (hw : msr_device)
    (dest_opens : Z -> bool) (is_verbose is_disabled : bool)
    : outcome (Component * list Z) :=
  let zeroed := repeat Unit_zero (Z.to_nat N_SIBLINGS_MAX) in
  let no_cores := repeat 0 (Z.to_nat N_SIBLINGS_MAX) in
  let untouched := Done (mkComponent zeroed CPU vendor_id 0 is_verbose, no_cores) in
  match vendor_id with
  | INTEL | AMD =>
      if is_disabled then untouched
      else
        '(n_siblings, to_core) <- scan_topology topology 0 0 no_cores ;;
        _ <- assert (n_siblings <? N_SIBLINGS_MAX) ;;
        sibs <- cpu_init_from (table to_core) hw vendor_id dest_opens
                              (Z.to_nat n_siblings) 0 zeroed ;;
        Done (mkComponent sibs CPU vendor_id n_siblings is_verbose, to_core)
  | _ => untouched
  end.

Definition cpu_update (to_core : list Z) (hw : msr_device) (cpus : Component)
    : outcome Component :=
  sibs <- update_from (fun package => cpu_step (table to_core) (c_vendor cpus) package hw)
                      (Z.to_nat (n_siblings cpus)) 0 (siblings cpus) ;;
  Done (mkComponent sibs (c_type cpus) (c_vendor cpus) (n_siblings cpus)
                    (is_verbose cpus)).

(** A package as [cpu_init] leaves it when every register can be read. *)
Definition package_register (v : vendor) : Z :=
  match v with
  | INTEL => MSR_INTEL_PACKAGE_ENERGY
  | _ => MSR_AMD_PACKAGE_ENERGY
  end.

Definition unit_register (v : vendor) : Z :=
  match v with
  | INTEL => MSR_INTEL_POWER_UNIT
  | _ => MSR_AMD_POWER_UNIT
  end.

Lemma cpu_init_package_readable (to_core : Z -> Z) (hw : msr_device) (i : Z)
    (v : vendor) (raw msr_unit : Z) :
  v = INTEL \/ v = AMD ->
  hw (to_core i) (package_register v) = Some raw ->
  hw (to_core i) (unit_register v) = Some msr_unit ->
  cpu_init_package to_core hw i v true
  = Done (set_energy_resolution
            (B64.pow_half (Z.land (Z.shiftr (u64 msr_unit) 8) MSR_ENERGY_UNIT_MASK))
            (set_energy_raw (u64 raw) (set_id i Unit_zero)),
          [package_register v; unit_register v]).
Proof.
  intros Hv Hraw Hunit.
  unfold cpu_init_package, _cpu_package_fetch_energy, read_msr.
  cbn [id set_id Unit_zero].
  destruct Hv as [-> | ->]; cbn [bind package_register unit_register] in *;
    rewrite Hraw; cbn [bind energy_resolution set_energy_raw set_id];
    change (B64.gt (S754_zero false) B64.zero) with false; cbv iota;
    rewrite Hunit; reflexivity.
Qed.

Definition reading (hw : msr_device) (core reg : Z) : Z :=
  match hw core reg with
  | Some data => u64 data
  | None => 0
  end.

(** Package [i] after its first fetch. *)
Definition first_fetch (to_core : Z -> Z) (hw : msr_device) (v : vendor) (i : nat) : Unit :=
  set_energy_resolution
    (B64.pow_half (Z.land (Z.shiftr (reading hw (to_core (Z.of_nat i)) (unit_register v)) 8)
                          MSR_ENERGY_UNIT_MASK))
    (set_energy_raw (reading hw (to_core (Z.of_nat i)) (package_register v))
                    (set_id (Z.of_nat i) Unit_zero)).

Lemma cpu_init_from_spec (to_core : Z -> Z) (hw : msr_device) (v : vendor)
    (dest_opens : Z -> bool) (post : list Unit) :
  v = INTEL \/ v = AMD ->
  (forall core reg, hw core reg <> None) ->
  (forall i, dest_opens i = true) ->
  forall (n : nat) (pre mid : list Unit),
    length mid = n ->
    cpu_init_from to_core hw v dest_opens n (length pre) (pre ++ mid ++ post)
    = Done (pre ++ map (first_fetch to_core hw v) (seq (length pre) n) ++ post).
Proof.
  intros Hv Hhw Hopen.
  induction n as [| n IH]; intros pre mid Hmid.
  - destruct mid; [| discriminate]. reflexivity.
  - destruct mid as [| old mid]; [discriminate |].
    cbn [cpu_init_from seq map app]. rewrite Hopen.
    destruct (hw (to_core (Z.of_nat (length pre))) (package_register v))
      as [raw |] eqn:Hraw; [| contradiction (Hhw _ _ Hraw)].
    destruct (hw (to_core (Z.of_nat (length pre))) (unit_register v))
      as [msr_unit |] eqn:Hunit; [| contradiction (Hhw _ _ Hunit)].
    rewrite (cpu_init_package_readable _ _ _ _ raw msr_unit Hv Hraw Hunit).
    assert (Hff : set_energy_resolution
                    (B64.pow_half (Z.land (Z.shiftr (u64 msr_unit) 8) MSR_ENERGY_UNIT_MASK))
                    (set_energy_raw (u64 raw) (set_id (Z.of_nat (length pre)) Unit_zero))
                  = first_fetch to_core hw v (length pre)).
    { unfold first_fetch, reading. rewrite Hraw, Hunit. reflexivity. }
    rewrite Hff. cbn [bind]. rewrite store_app.
    specialize (IH (pre ++ [first_fetch to_core hw v (length pre)]) mid).
    rewrite length_app in IH. cbn [length] in IH.
    replace (length pre + 1)%nat with (S (length pre)) in IH by lia.
    rewrite <- !app_assoc in IH. cbn [app] in IH.
    rewrite IH by (cbn [length] in Hmid; lia). reflexivity.
Qed.

Lemma nth_error_map_seq {A : Type} (f : nat -> A) (n i : nat) (post : list A) :
  (i < n)%nat -> nth_error (map f (seq 0 n) ++ post) i = Some (f i).
Proof.
  intros Hi. rewrite nth_error_app1 by (rewrite length_map, length_seq; exact Hi).
  rewrite nth_error_map, nth_error_seq.
  destruct (Nat.ltb_spec i n); [reflexivity | lia].
Qed.

(** X12. [cpu_init] on an Intel or AMD machine whose package identifiers
    are below 16. With a package numbered 15 it stops on its assertion: 15
    packages at most. Otherwise, when the registers can be read and the
    files opened, it returns with one unit per number below [n_siblings],
    numbered, nothing accumulated yet, its raw value read through the core
    kept for that number, and its resolution decoded. Disabled, or on
    another vendor, it looks at nothing and leaves no unit. *)
Theorem cpu_init_outcome :
  forall (vendor_id : vendor) (topology : list Z) (hw : msr_device)
         (dest_opens : Z -> bool) (is_verbose : bool),
    (vendor_id = INTEL \/ vendor_id = AMD ->
     Z.of_nat (length topology) < 2 ^ 32 ->
     Forall (fun p => 0 <= p < N_SIBLINGS_MAX) topology ->
     (In 15 topology ->
      cpu_init vendor_id topology hw dest_opens is_verbose false = Assert_failure) /\
     (~ In 15 topology ->
      (forall core reg, hw core reg <> None) -> (forall i, dest_opens i = true) ->
      exists cpus to_core,
        cpu_init vendor_id topology hw dest_opens is_verbose false
        = Done (cpus, to_core) /\
        scan_topology topology 0 0 (repeat 0 16%nat) = Done (n_siblings cpus, to_core) /\
        n_siblings cpus < N_SIBLINGS_MAX /\
        forall i : nat,
          Z.of_nat i < n_siblings cpus ->
          exists package,
            nth_error (siblings cpus) i = Some package /\
            id package = Z.of_nat i /\
            energy_acc package = 0 /\ energy_interval package = 0 /\
            energy_raw package
            = reading hw (table to_core (Z.of_nat i)) (package_register vendor_id) /\
            known_resolution package)) /\
    (forall is_disabled,
       is_disabled = true \/ vendor_id = NVIDIA \/ vendor_id = VENDOR_UNKNOWN ->
       exists cpus to_core,
         cpu_init vendor_id topology hw dest_opens is_verbose is_disabled
         = Done (cpus, to_core) /\
         n_siblings cpus = 0 /\
         forall hw', cpu_update to_core hw' cpus = Done cpus).
Proof.
  intros vendor_id topology hw dest_opens is_verbose. split.
  - intros Hv Hlen Hall.
    destruct (scan_topology_spec topology 0 0 (repeat 0 16%nat) Hall eq_refl
                ltac:(lia) ltac:(lia) ltac:(unfold N_SIBLINGS_MAX; lia))
      as (n & tc & Hscan & Htc & Hn & Hlt & Hmax & _ & _).
    unfold N_SIBLINGS_MAX in *.
    assert (Hinit : cpu_init vendor_id topology hw dest_opens is_verbose false
                    = (_ <- assert (n <? 16) ;;
                       sibs <- cpu_init_from (table tc) hw vendor_id dest_opens
                                             (Z.to_nat n) 0 (repeat Unit_zero 16) ;;
                       Done (mkComponent sibs CPU vendor_id n is_verbose, tc))).
    { unfold cpu_init. change (Z.to_nat N_SIBLINGS_MAX) with 16%nat.
      destruct Hv as [-> | ->]; rewrite Hscan; reflexivity. }
    rewrite Hinit. split.
    + intros H15. specialize (Hlt 15 H15).
      destruct (Z.ltb_spec n 16); [lia |]. reflexivity.
    + intros H15 Hhw Hopen.
      assert (Hn16 : n < 16).
      { destruct Hmax as [-> | Hin]; [lia |].
        destruct (Z.eq_dec n 16) as [-> | ]; [contradiction | lia]. }
      destruct (Z.ltb_spec n 16); [| lia]. cbn [assert bind].
      pose proof (cpu_init_from_spec (table tc) hw vendor_id dest_opens
                    (repeat Unit_zero (16 - Z.to_nat n)) Hv Hhw Hopen (Z.to_nat n) []
                    (repeat Unit_zero (Z.to_nat n)) (repeat_length _ _)) as Hloop.
      cbn [length app] in Hloop. rewrite <- repeat_app in Hloop.
      replace (Z.to_nat n + (16 - Z.to_nat n))%nat with 16%nat in Hloop by lia.
      rewrite Hloop. cbn [bind].
      eexists. eexists. split; [reflexivity |]. cbn [n_siblings siblings].
      split; [exact Hscan |]. split; [exact Hn16 |].
      intros i Hi. rewrite nth_error_map_seq by lia.
      eexists. split; [reflexivity |]. unfold first_fetch.
      cbn [id energy_acc energy_interval energy_raw set_energy_resolution set_energy_raw
           set_id Unit_zero].
      repeat split; try reflexivity.
      eexists. split; [apply energy_unit_field | reflexivity].
  - intros is_disabled Hoff.
    assert (Hinit : cpu_init vendor_id topology hw dest_opens is_verbose is_disabled
                    = Done (mkComponent (repeat Unit_zero 16) CPU vendor_id 0 is_verbose,
                            repeat 0 16%nat)).
    { unfold cpu_init. destruct Hoff as [-> | [-> | ->]]; [| reflexivity | reflexivity].
      destruct vendor_id; reflexivity. }
    rewrite Hinit. eexists. eexists. split; [reflexivity |].
    split; [reflexivity |]. intros hw'. reflexivity.
Qed.

Definition two_sockets : msr_device :=
  fun core reg =>
    if is_power_unit reg then Some 0x0A00
    else if core =? 1 then Some 1000 else Some 2000.

(** Two packages of two CPUs each: package 0 is read through CPU 1, package
    1 through CPU 3. *)
Lemma cpu_init_outcome_witness :
  exists cpus to_core,
    cpu_init INTEL [0; 0; 1; 1] two_sockets (fun _ => true) false false
    = Done (cpus, to_core) /\
    n_siblings cpus = 2 /\
    map energy_raw (firstn 2 (siblings cpus)) = [1000; 2000] /\
    map energy_acc (firstn 2 (siblings cpus)) = [0; 0].
Proof.
  destruct (cpu_init_outcome INTEL [0; 0; 1; 1] two_sockets (fun _ => true) false)
    as [Hon _].
  destruct Hon as [_ Hok]; [left; reflexivity | cbn; lia | |].
  { repeat constructor; unfold N_SIBLINGS_MAX; lia. }
  destruct Hok as (cpus & to_core & Hrun & _ & _ & _).
  - cbn. intuition lia.
  - intros core reg. unfold two_sockets.
    destruct (is_power_unit reg); [discriminate |]. destruct (core =? 1); discriminate.
  - reflexivity.
  - exists cpus, to_core. split; [exact Hrun |].
    vm_compute in Hrun. injection Hrun as <- <-. repeat split; reflexivity.
Defined.

(** ** The GPU counters are never expected to go back *)

(** X13. A GPU counter that reads less than the raw value kept from the
    cycle before stops the program on an assertion, for AMD (alone or as
    the holder of an MI250 pair), NVIDIA and Intel: nothing is written,
    where the CPU and DRAM paths take a lower value for a wraparound. *)
Theorem backward_counter_aborts :
  forall dev : Unit,
    (forall smi,
       ec_success (rsmi_dev_energy_count_get smi (id dev)) = true ->
       u64 (ec_power (rsmi_dev_energy_count_get smi (id dev))) < energy_raw dev ->
       _amd_device_fetch_energy smi dev = Assert_failure) /\
    (forall smi p,
       bp_success (rsmi_dev_busy_percent_get smi (id dev)) = true ->
       bp_success (rsmi_dev_busy_percent_get smi (id p)) = true ->
       ec_success (rsmi_dev_energy_count_get smi (id dev)) = true ->
       u64 (ec_power (rsmi_dev_energy_count_get smi (id dev))) < energy_raw dev ->
       _amd_device_fetch_energy_mi250 smi dev (Some p) = Assert_failure) /\
    (forall dcgm,
       u64 (dcgm (id dev)) < energy_raw dev ->
       _nvidia_device_update_files dcgm dev = Assert_failure) /\
    (forall zes,
       u64 (zes (id dev)) < energy_raw dev ->
       _intel_device_update_files zes dev = Assert_failure).
Proof.
  intros dev. split; [| split; [| split]].
  - intros smi Hok Hlt. unfold _amd_device_fetch_energy. rewrite Hok.
    cbn [negb energy_raw set_timestamp set_energy_raw]. unfold assert.
    destruct (Z.geb_spec (u64 (ec_power (rsmi_dev_energy_count_get smi (id dev))))
                         (energy_raw dev)); [lia | reflexivity].
  - intros smi p Hb1 Hb2 Hok Hlt.
    unfold _amd_device_fetch_energy_mi250, _amd_device_fetch_activity.
    rewrite Hb1, Hb2. cbn [negb bind]. cbn [id set_busy_percent]. rewrite Hok.
    cbn [negb energy_raw set_timestamp set_energy_raw set_energy_resolution
         set_busy_percent]. unfold assert.
    destruct (Z.geb_spec (u64 (ec_power (rsmi_dev_energy_count_get smi (id dev))))
                         (energy_raw dev)); [lia | reflexivity].
  - intros dcgm Hlt. pose proof (u64_range (dcgm (id dev))) as Hr.
    unfold _nvidia_device_update_files. cbn [energy_raw set_energy_raw].
    destruct (Z.eqb_spec (energy_raw dev) 0); [lia |]. unfold assert.
    destruct (Z.geb_spec (u64 (dcgm (id dev))) (energy_raw dev)); [lia | reflexivity].
  - intros zes Hlt. pose proof (u64_range (zes (id dev))) as Hr.
    unfold _intel_device_update_files. cbn [energy_raw set_energy_raw].
    destruct (Z.eqb_spec (energy_raw dev) 0); [lia |]. unfold assert.
    destruct (Z.geb_spec (u64 (zes (id dev))) (energy_raw dev)); [lia | reflexivity].
Qed.

(** A unit whose raw value is 1000 and whose counter now reads 900: the AMD
    and the NVIDIA updates stop on the assertion. *)
Lemma backward_counter_aborts_witness :
  _amd_device_fetch_energy
    (mkSmi (fun _ => mkEnergyCount true 900 B64.one 0) (fun _ => mkBusy true 0))
    (set_energy_raw 1000 Unit_zero) = Assert_failure /\
  _nvidia_device_update_files (fun _ => 900) (set_energy_raw 1000 Unit_zero)
  = Assert_failure.
Proof.
  destruct (backward_counter_aborts (set_energy_raw 1000 Unit_zero))
    as (Hamd & _ & Hnvidia & _).
  split.
  - apply Hamd; [reflexivity | vm_compute; reflexivity].
  - apply Hnvidia. vm_compute. reflexivity.
Defined.

(** ** amd_gpu.c: the two units of a board in [amd_gpu_update] *)

(** X14. A component made of the two units of one MI250 board, the first
    holding the link to the second: [amd_gpu_update] does what the holder
    computes for both and writes both files with the totals of this cycle;
    the turn of the second unit asks ROCm SMI nothing. *)
Theorem board_update_is_holder_computation :
  forall (smi : rocm_smi) (dev p : Unit) (t : type) (v : vendor) (verbose : bool),
    model dev = MI250 -> model p = MI250 ->
    peer dev = Some 1%nat -> peer p = None ->
    amd_gpu_update smi (mkComponent [dev; p] t v 2 verbose)
    = ('(dev', p') <- mi250_step (dev, p) smi ;;
       Done (mkComponent [dev'; p'] t v 2 verbose)).
Proof.
  intros smi dev p t v verbose Hmd Hmp Hpd Hpp.
  unfold amd_gpu_update, mi250_step. cbn [n_siblings siblings c_type c_vendor is_verbose].
  change (Z.to_nat 2) with 2%nat. cbn [amd_gpu_update_from].
  unfold _amd_device_update_files at 1. cbn [nth_error fst snd].
  rewrite Hmd, Z.eqb_refl, Hpd. cbn [nth_error].
  destruct (_amd_device_fetch_energy_mi250 smi dev (Some p)) as [[dev' p'] | | |] eqn:Hf;
    cbn [bind]; try reflexivity.
  assert (Hp' : exists q, p' = Some q /\ model q = MI250 /\ peer q = None).
  { revert Hf. unfold _amd_device_fetch_energy_mi250, _amd_device_fetch_activity.
    destruct (negb (bp_success (rsmi_dev_busy_percent_get smi (id dev))));
      cbn [bind]; try discriminate.
    destruct (negb (bp_success (rsmi_dev_busy_percent_get smi (id p))));
      cbn [bind]; try discriminate.
    cbn [id set_busy_percent].
    destruct (negb (ec_success (rsmi_dev_energy_count_get smi (id dev))));
      try discriminate.
    destruct (assert _) as [[] | | |]; cbn [bind]; try discriminate.
    destruct (energy_raw dev =? 0).
    - intros H. injection H as <- <-. eexists. split; [reflexivity |].
      cbn. auto.
    - destruct (mi250_energy _ _ _) as [e | | |]; cbn [bind]; try discriminate.
      destruct (mi250_elapsed_s _ _) as [s | | |]; cbn [bind]; try discriminate.
      destruct (mi250_share _ _ _) as [iv | | |]; cbn [bind]; try discriminate.
      destruct (mi250_share _ _ _) as [ivp | | |]; cbn [bind]; try discriminate.
      intros H. injection H as <- <-. eexists. split; [reflexivity |].
      cbn. auto. }
  destruct Hp' as (q & -> & Hmq & Hpq).
  cbn [store]. unfold _amd_device_update_files. cbn [nth_error].
  rewrite Hmq, Z.eqb_refl, Hpq. cbn [_amd_device_fetch_energy_mi250 bind store].
  reflexivity.
Qed.

Lemma board_update_is_holder_computation_witness :
  exists gpus,
    amd_gpu_update (pair_smi 1000 60 40)
                   (mkComponent [pair_holder; pair_peer] GPU AMD 2 false) = Done gpus /\
    map energy_fd (siblings gpus) = [Some 520; Some 480].
Proof.
  eexists. split.
  - rewrite (board_update_is_holder_computation (pair_smi 1000 60 40) pair_holder
               pair_peer GPU AMD false eq_refl eq_refl eq_refl eq_refl).
    vm_compute. reflexivity.
  - reflexivity.
Defined.

(** ** amd_gpu.c: an MI250 unit that no link reaches *)

Lemma store_length (l : list Unit) : forall (i : nat) (u : Unit),
  length (store i u l) = length l.
Proof.
  induction l as [| h t IH]; intros [| i] u; cbn; try reflexivity.
  rewrite IH. reflexivity.
Qed.

Lemma nth_error_store_same (l : list Unit) : forall (i : nat) (u old : Unit),
  nth_error l i = Some old -> nth_error (store i u l) i = Some u.
Proof.
  induction l as [| h t IH]; intros [| i] u old H; cbn in *; try discriminate.
  - reflexivity.
  - exact (IH i u old H).
Qed.

Lemma nth_error_store_other (l : list Unit) : forall (i j : nat) (u : Unit),
  i <> j -> nth_error (store i u l) j = nth_error l j.
Proof.
  induction l as [| h t IH]; intros i j u H.
  - destruct i; reflexivity.
  - destruct i as [| i], j as [| j]; cbn; try reflexivity; try lia.
    apply IH. lia.
Qed.

(** What the holder's computation keeps of the two units. *)
Lemma mi250_fetch_keeps (smi : rocm_smi) (dev p dev' : Unit) (p' : option Unit) :
  _amd_device_fetch_energy_mi250 smi dev (Some p) = Done (dev', p') ->
  peer dev' = peer dev /\ model dev' = model dev /\
  exists q, p' = Some q /\ peer q = peer p /\ model q = model p.
Proof.
  unfold _amd_device_fetch_energy_mi250, _amd_device_fetch_activity.
  destruct (negb (bp_success (rsmi_dev_busy_percent_get smi (id dev))));
    cbn [bind]; try discriminate.
  destruct (negb (bp_success (rsmi_dev_busy_percent_get smi (id p))));
    cbn [bind]; try discriminate.
  cbn [id set_busy_percent].
  destruct (negb (ec_success (rsmi_dev_energy_count_get smi (id dev))));
    try discriminate.
  destruct (assert _) as [[] | | |]; cbn [bind]; try discriminate.
  destruct (energy_raw dev =? 0).
  - intros H. injection H as <- <-. cbn. split; [reflexivity |].
    split; [reflexivity |]. eexists. split; [reflexivity |]. cbn. auto.
  - destruct (mi250_energy _ _ _) as [e | | |]; cbn [bind]; try discriminate.
    destruct (mi250_elapsed_s _ _) as [s | | |]; cbn [bind]; try discriminate.
    destruct (mi250_share _ _ _) as [iv | | |]; cbn [bind]; try discriminate.
    destruct (mi250_share _ _ _) as [ivp | | |]; cbn [bind]; try discriminate.
    intros H. injection H as <- <-. cbn. split; [reflexivity |].
    split; [reflexivity |]. eexists. split; [reflexivity |]. cbn. auto.
Qed.

Lemma amd_fetch_keeps (smi : rocm_smi) (dev dev' : Unit) :
  _amd_device_fetch_energy smi dev = Done dev' ->
  peer dev' = peer dev /\ model dev' = model dev.
Proof.
  unfold _amd_device_fetch_energy.
  destruct (negb (ec_success (rsmi_dev_energy_count_get smi (id dev))));
    try discriminate.
  destruct (assert _) as [[] | | |]; cbn [bind]; try discriminate.
  destruct (energy_raw dev =? 0).
  - intros H. injection H as <-. cbn. auto.
  - destruct (to_uint64_t _) as [iv | | |]; cbn [bind]; try discriminate.
    intros H. injection H as <-. cbn. auto.
Qed.

(** The links and models of the units, which no update changes. *)
Definition same_shape (sibs sibs' : list Unit) : Prop :=
  length sibs' = length sibs /\
  forall j u, nth_error sibs j = Some u ->
              exists u', nth_error sibs' j = Some u' /\
                         peer u' = peer u /\ model u' = model u.

(** The turn of sibling [k]: unit [i], an MI250 unit without link that the
    link of no unit reaches, keeps its energy fields. *)
Definition unreached (sibs : list Unit) (i : nat) : Prop :=
  forall j u, nth_error sibs j = Some u -> peer u <> Some i.

Definition energy_fields (u : Unit) : Z * Z * Z * Z :=
  (energy_raw u, energy_acc u, energy_interval u, timestamp u).

Lemma update_files_frame (smi : rocm_smi) (sibs sibs' : list Unit) (k i : nat)
    (orphan : Unit) :
  _amd_device_update_files smi sibs k = Done sibs' ->
  nth_error sibs i = Some orphan ->
  model orphan = MI250 -> peer orphan = None -> unreached sibs i ->
  same_shape sibs sibs' /\
  exists orphan',
    nth_error sibs' i = Some orphan' /\
    energy_fields orphan' = energy_fields orphan /\
    (k = i -> energy_fd orphan' = Some (energy_acc orphan)) /\
    (k <> i -> energy_fd orphan' = energy_fd orphan).
Proof.
  intros Hrun Hi Hm Hp Hun. unfold _amd_device_update_files in Hrun.
  destruct (nth_error sibs k) as [dev |] eqn:Hk; [| discriminate].
  destruct (Nat.eq_dec k i) as [-> | Hne].
  - (* its own turn: the file only *)
    rewrite Hi in Hk. injection Hk as <-.
    rewrite Hm, Z.eqb_refl, Hp in Hrun. cbn [_amd_device_fetch_energy_mi250 bind] in Hrun.
    injection Hrun as <-. split.
    + split; [apply store_length |]. intros j u Hj.
      destruct (Nat.eq_dec i j) as [<- | Hij].
      * rewrite (nth_error_store_same _ _ _ _ Hi). rewrite Hi in Hj. injection Hj as <-.
        eexists. split; [reflexivity |]. cbn. auto.
      * rewrite nth_error_store_other by exact Hij. eauto.
    + rewrite (nth_error_store_same _ _ _ _ Hi). eexists. split; [reflexivity |].
      split; [reflexivity |]. split; [reflexivity | intros H; contradiction].
  - (* the turn of another unit *)
    assert (Hshape_one : forall dev', peer dev' = peer dev -> model dev' = model dev ->
                           same_shape sibs (store k (write_file dev') sibs)).
    { intros dev' H1 H2. split; [apply store_length |]. intros j u Hj.
      destruct (Nat.eq_dec k j) as [<- | Hkj].
      - rewrite (nth_error_store_same _ _ _ _ Hk). rewrite Hk in Hj. injection Hj as <-.
        eexists. split; [reflexivity |]. cbn. auto.
      - rewrite nth_error_store_other by exact Hkj. eauto. }
    assert (Hkeep : forall l, nth_error l i = Some orphan ->
                      forall dev', nth_error (store k (write_file dev') l) i = Some orphan).
    { intros l Hl dev'. rewrite nth_error_store_other by exact Hne. exact Hl. }
    destruct (model dev =? MI250).
    + destruct (peer dev) as [j |] eqn:Hpeer.
      * destruct (nth_error sibs j) as [p |] eqn:Hj; [| discriminate].
        destruct (_amd_device_fetch_energy_mi250 smi dev (Some p))
          as [[dev' p'] | | |] eqn:Hf; cbn [bind] in Hrun; try discriminate.
        injection Hrun as <-.
        destruct (mi250_fetch_keeps _ _ _ _ _ Hf) as (H1 & H2 & q & -> & H3 & H4).
        assert (Hji : j <> i).
        { intros ->. apply (Hun k dev Hk). exact Hpeer. }
        split.
        -- split; [rewrite !store_length; reflexivity |]. intros j' u Hj'.
           destruct (Nat.eq_dec k j') as [<- | Hkj].
           ++ assert (Hk' : nth_error (store j q sibs) k = Some dev
                            \/ nth_error (store j q sibs) k = Some q).
              { destruct (Nat.eq_dec j k) as [-> | Hjk].
                - right. apply (nth_error_store_same _ _ _ _ Hj).
                - left. rewrite nth_error_store_other by exact Hjk. exact Hk. }
              rewrite Hk in Hj'. injection Hj' as <-.
              destruct Hk' as [Hk' | Hk'];
                rewrite (nth_error_store_same _ _ _ _ Hk');
                eexists; (split; [reflexivity |]); cbn; auto.
           ++ rewrite nth_error_store_other by exact Hkj.
              destruct (Nat.eq_dec j j') as [<- | Hjj].
              ** rewrite (nth_error_store_same _ _ _ _ Hj). rewrite Hj in Hj'.
                 injection Hj' as <-. eexists. split; [reflexivity |]. auto.
              ** rewrite nth_error_store_other by exact Hjj. eauto.
        -- exists orphan. rewrite nth_error_store_other by exact Hne.
           rewrite nth_error_store_other by exact Hji.
           split; [exact Hi |]. split; [reflexivity |].
           split; [intros H; contradiction | reflexivity].
      * cbn [_amd_device_fetch_energy_mi250 bind] in Hrun. injection Hrun as <-.
        split; [apply Hshape_one; [exact Hpeer | reflexivity] |].
        exists orphan. rewrite (Hkeep sibs Hi).
        split; [reflexivity |]. split; [reflexivity |].
        split; [intros H; contradiction | reflexivity].
    + destruct (_amd_device_fetch_energy smi dev) as [dev' | | |] eqn:Hf;
        cbn [bind] in Hrun; try discriminate.
      injection Hrun as <-. destruct (amd_fetch_keeps _ _ _ Hf) as [H1 H2].
      split; [apply Hshape_one; trivial |].
      exists orphan. rewrite (Hkeep sibs Hi).
      split; [reflexivity |]. split; [reflexivity |].
      split; [intros H; contradiction | reflexivity].
Qed.

Lemma same_shape_refl (sibs : list Unit) : same_shape sibs sibs.
Proof. split; [reflexivity |]. intros j u Hj. eauto. Qed.

Lemma same_shape_trans (a b c : list Unit) :
  same_shape a b -> same_shape b c -> same_shape a c.
Proof.
  intros [Hl1 H1] [Hl2 H2]. split; [congruence |].
  intros j u Hj. destruct (H1 j u Hj) as (u1 & Hj1 & Hp1 & Hm1).
  destruct (H2 j u1 Hj1) as (u2 & Hj2 & Hp2 & Hm2).
  exists u2. split; [exact Hj2 |]. split; congruence.
Qed.

Lemma same_shape_unreached (sibs sibs' : list Unit) (i : nat) :
  same_shape sibs sibs' -> unreached sibs i -> unreached sibs' i.
Proof.
  intros [Hlen Hs] Hun j u' Hj'.
  assert (Hlt : (j < length sibs)%nat).
  { rewrite <- Hlen. apply nth_error_Some. rewrite Hj'. discriminate. }
  destruct (nth_error sibs j) as [u |] eqn:Hj;
    [| apply nth_error_None in Hj; lia].
  destruct (Hs j u Hj) as (u'' & Hj'' & Hp & _).
  rewrite Hj' in Hj''. injection Hj'' as <-. rewrite Hp. exact (Hun j u Hj).
Qed.

Lemma update_from_frame (smi : rocm_smi) (i : nat) :
  forall (n k : nat) (sibs sibs' : list Unit) (orphan : Unit),
    amd_gpu_update_from smi n k sibs = Done sibs' ->
    nth_error sibs i = Some orphan ->
    model orphan = MI250 -> peer orphan = None -> unreached sibs i ->
    same_shape sibs sibs' /\
    exists orphan',
      nth_error sibs' i = Some orphan' /\
      energy_fields orphan' = energy_fields orphan /\
      ((k <= i < k + n)%nat -> energy_fd orphan' = Some (energy_acc orphan)).
Proof.
  induction n as [| n IH]; intros k sibs sibs' orphan Hrun Hi Hm Hp Hun.
  - cbn in Hrun. injection Hrun as <-. split; [apply same_shape_refl |].
    exists orphan. split; [exact Hi |]. split; [reflexivity | lia].
  - cbn [amd_gpu_update_from] in Hrun.
    destruct (_amd_device_update_files smi sibs k) as [sibs1 | | |] eqn:Hstep;
      cbn [bind] in Hrun; try discriminate.
    destruct (update_files_frame smi sibs sibs1 k i orphan Hstep Hi Hm Hp Hun)
      as (Hshape1 & o1 & Ho1 & Hf1 & Hfd_eq & Hfd_ne).
    destruct Hshape1 as [Hlen1 Hs1].
    destruct (Hs1 i orphan Hi) as (o1' & Ho1' & Hp1 & Hm1).
    rewrite Ho1 in Ho1'. injection Ho1' as <-.
    destruct (IH (S k) sibs1 sibs' o1 Hrun Ho1 ltac:(congruence) ltac:(congruence)
                 (same_shape_unreached _ _ _ (conj Hlen1 Hs1) Hun))
      as (Hshape2 & o2 & Ho2 & Hf2 & Hfd2).
    split; [exact (same_shape_trans _ _ _ (conj Hlen1 Hs1) Hshape2) |].
    exists o2. split; [exact Ho2 |]. split; [congruence |].
    intros Hrange.
    assert (Hacc : energy_acc o1 = energy_acc orphan).
    { unfold energy_fields in Hf1. congruence. }
    destruct (Nat.eq_dec k i) as [Heq | Hne].
    + (* written at its own turn, then left alone *)
      destruct n as [| n'].
      * cbn in Hrun. injection Hrun as <-. rewrite Ho1 in Ho2. injection Ho2 as <-.
        exact (Hfd_eq Heq).
      * destruct (lt_dec i (S k)) as [Hlt | Hge]; [| lia].
        clear Hfd2.
        assert (G : forall m j l l' o,
                   amd_gpu_update_from smi m j l = Done l' ->
                   nth_error l i = Some o -> model o = MI250 -> peer o = None ->
                   unreached l i -> (i < j)%nat ->
                   exists o', nth_error l' i = Some o' /\ energy_fd o' = energy_fd o).
        { induction m as [| m IHm]; intros j l l' o Hr Hl Hmo Hpo Hu Hij.
          - cbn in Hr. injection Hr as <-. eauto.
          - cbn [amd_gpu_update_from] in Hr.
            destruct (_amd_device_update_files smi l j) as [l1 | | |] eqn:Hs;
              cbn [bind] in Hr; try discriminate.
            destruct (update_files_frame smi l l1 j i o Hs Hl Hmo Hpo Hu)
              as (Hsh & o' & Ho' & _ & _ & Hne').
            destruct Hsh as [Hl1 Hsh].
            destruct (Hsh i o Hl) as (o'' & Ho'' & Hp'' & Hm'').
            rewrite Ho' in Ho''. injection Ho'' as <-.
            destruct (IHm (S j) l1 l' o' Hr Ho' ltac:(congruence) ltac:(congruence)
                          (same_shape_unreached _ _ _ (conj Hl1 Hsh) Hu) ltac:(lia))
              as (o3 & Ho3 & Hfd3).
            exists o3. split; [exact Ho3 |]. rewrite Hfd3. apply Hne'. lia. }
        destruct (G (S n') (S k) sibs1 sibs' o1 Hrun Ho1 ltac:(congruence)
                    ltac:(congruence)
                    (same_shape_unreached _ _ _ (conj Hlen1 Hs1) Hun) ltac:(lia))
          as (o3 & Ho3 & Hfd3).
        rewrite Ho2 in Ho3. injection Ho3 as <-. rewrite Hfd3. exact (Hfd_eq Heq).
    + rewrite Hfd2 by lia. rewrite Hacc. reflexivity.
Qed.

(** Sampling cycles of the AMD component, with what ROCm SMI answers in
    each. *)
Fixpoint amd_cycles (smis : list rocm_smi) (gpus : Component) : outcome Component :=
  match smis with
  | [] => Done gpus
  | smi :: rest => gpus <- amd_gpu_update smi gpus ;; amd_cycles rest gpus
  end.

Lemma amd_cycles_frame (i : nat) :
  forall (smis : list rocm_smi) (gpus gpus' : Component) (orphan : Unit),
    amd_cycles smis gpus = Done gpus' ->
    nth_error (siblings gpus) i = Some orphan ->
    model orphan = MI250 -> peer orphan = None -> unreached (siblings gpus) i ->
    n_siblings gpus' = n_siblings gpus /\
    exists orphan',
      nth_error (siblings gpus') i = Some orphan' /\
      energy_fields orphan' = energy_fields orphan /\
      (smis <> [] -> (i < Z.to_nat (n_siblings gpus))%nat ->
       energy_fd orphan' = Some (energy_acc orphan)).
Proof.
  induction smis as [| smi rest IH]; intros gpus gpus' orphan Hrun Hi Hm Hp Hun.
  - cbn in Hrun. injection Hrun as <-. split; [reflexivity |].
    exists orphan. split; [exact Hi |]. split; [reflexivity |].
    intros H. contradiction H. reflexivity.
  - cbn [amd_cycles] in Hrun. unfold amd_gpu_update in Hrun at 1.
    destruct (amd_gpu_update_from smi _ 0 (siblings gpus)) as [sibs1 | | |] eqn:Hup;
      cbn [bind] in Hrun; try discriminate.
    destruct (update_from_frame smi i _ _ _ _ orphan Hup Hi Hm Hp Hun)
      as (Hshape & o1 & Ho1 & Hf1 & Hfd1).
    pose proof Hshape as [Hlen Hs].
    destruct (Hs i orphan Hi) as (o1' & Ho1' & Hp1 & Hm1).
    rewrite Ho1 in Ho1'. injection Ho1' as <-.
    destruct (IH _ gpus' o1 Hrun Ho1 ltac:(congruence) ltac:(congruence)
                 (same_shape_unreached _ _ _ Hshape Hun))
      as (Hn & o2 & Ho2 & Hf2 & Hfd2).
    cbn [n_siblings siblings] in *.
    split; [exact Hn |]. exists o2. split; [exact Ho2 |]. split; [congruence |].
    intros _ Hlt.
    assert (Hacc : energy_acc o1 = energy_acc orphan).
    { unfold energy_fields in Hf1. congruence. }
    destruct rest as [| smi' rest'].
    + cbn in Hrun. injection Hrun as <-. cbn [siblings] in Ho2.
      rewrite Ho1 in Ho2. injection Ho2 as <-. apply Hfd1. lia.
    + rewrite Hfd2; [congruence | discriminate | exact Hlt].
Qed.

(** X15. An MI250 unit that holds no link and that the link of no unit
    reaches (a lone die, or dies whose serial numbers differ) is never
    measured: whatever ROCm SMI answers, cycle after cycle, its raw value,
    its interval energy and its accumulator stay what they were, and its
    file shows that same total. *)
Theorem unlinked_mi250_is_never_measured :
  forall (smis : list rocm_smi) (gpus gpus' : Component) (i : nat) (orphan : Unit),
    nth_error (siblings gpus) i = Some orphan ->
    model orphan = MI250 -> peer orphan = None ->
    (forall j u, nth_error (siblings gpus) j = Some u -> peer u <> Some i) ->
    amd_cycles smis gpus = Done gpus' ->
    exists orphan',
      nth_error (siblings gpus') i = Some orphan' /\
      energy_raw orphan' = energy_raw orphan /\
      energy_acc orphan' = energy_acc orphan /\
      energy_interval orphan' = energy_interval orphan /\
      (smis <> [] -> Z.of_nat i < n_siblings gpus ->
       energy_fd orphan' = Some (energy_acc orphan)).
Proof.
  intros smis gpus gpus' i orphan Hi Hm Hp Hun Hrun.
  destruct (amd_cycles_frame i smis gpus gpus' orphan Hrun Hi Hm Hp Hun)
    as (_ & o' & Ho' & Hf & Hfd).
  exists o'. split; [exact Ho' |]. unfold energy_fields in Hf.
  injection Hf as H1 H2 H3 H4. repeat split; trivial.
  intros Hne Hlt. apply Hfd; [exact Hne | lia].
Qed.

Definition lone_die : Unit := set_energy_raw 123456 (set_model MI250 Unit_zero).

Definition smi_count (counts : Z) : rocm_smi :=
  mkSmi (fun _ => mkEnergyCount true counts B64.c_1E6 0) (fun _ => mkBusy true 100).

(** A single MI250 die: three cycles, a counter that moves by 1000 J and
    more, and a file that still shows 0 Joules. *)
Lemma unlinked_mi250_is_never_measured_witness :
  exists gpus' orphan',
    amd_cycles [smi_count 124456; smi_count 125456; smi_count 999999]
               (mkComponent [lone_die] GPU AMD 1 false) = Done gpus' /\
    nth_error (siblings gpus') 0 = Some orphan' /\
    energy_acc orphan' = 0 /\ energy_fd orphan' = Some 0.
Proof.
  assert (exists gpus',
            amd_cycles [smi_count 124456; smi_count 125456; smi_count 999999]
                       (mkComponent [lone_die] GPU AMD 1 false) = Done gpus')
    as (gpus' & Hrun) by (eexists; vm_compute; reflexivity).
  destruct (unlinked_mi250_is_never_measured
              [smi_count 124456; smi_count 125456; smi_count 999999]
              (mkComponent [lone_die] GPU AMD 1 false) gpus' 0%nat lone_die
              eq_refl eq_refl eq_refl) as (o' & Ho' & _ & Hacc & _ & Hfd).
  - intros [| j] u Hj; cbn in Hj.
    + injection Hj as <-. discriminate.
    + destruct j; discriminate.
  - exact Hrun.
  - exists gpus', o'. split; [exact Hrun |]. split; [exact Ho' |].
    split; [exact Hacc |]. apply Hfd; [discriminate | cbn; lia].
Defined.

(** ** amd_gpu.c: two cases of the split *)

(** A sample of a pair that has a baseline, down to the two shares. *)
Lemma mi250_fetch_shares (smi : rocm_smi) (dev p : Unit) (energy elapsed_s zA zB : Z) :
  let r := rsmi_dev_energy_count_get smi (id dev) in
  let busy := u32 (bp_percent (rsmi_dev_busy_percent_get smi (id dev))) in
  let busy_peer := u32 (bp_percent (rsmi_dev_busy_percent_get smi (id p))) in
  let energy_idle := mi250_energy_idle elapsed_s in
  let energy_min_idle := mi250_energy_min_idle energy energy_idle in
  let energy_ratio := mi250_energy_ratio busy busy_peer in
  bp_success (rsmi_dev_busy_percent_get smi (id dev)) = true ->
  bp_success (rsmi_dev_busy_percent_get smi (id p)) = true ->
  ec_success r = true ->
  energy_raw dev <> 0 -> energy_raw dev <= u64 (ec_power r) ->
  mi250_energy (ec_counter_resolution r) (energy_raw dev) (u64 (ec_power r))
  = Done energy ->
  mi250_elapsed_s (timestamp dev) (u64 (ec_timestamp r)) = Done elapsed_s ->
  mi250_share energy_idle energy_ratio energy_min_idle = Done zA ->
  mi250_share energy_idle (B64.sub B64.one energy_ratio) energy_min_idle = Done zB ->
  exists dev' p',
    _amd_device_fetch_energy_mi250 smi dev (Some p) = Done (dev', Some p') /\
    energy_interval dev' = zA /\ energy_interval p' = zB /\
    energy_acc dev' = u64 (energy_acc dev + zA) /\
    energy_acc p' = u64 (energy_acc p + zB).
Proof.
  intros r busy busy_peer energy_idle energy_min_idle energy_ratio
         Hb1 Hb2 Hok Hlast Hle Henergy Helapsed HzA HzB.
  unfold _amd_device_fetch_energy_mi250, _amd_device_fetch_activity.
  rewrite Hb1, Hb2. cbn [negb bind]. cbn [id set_busy_percent].
  fold r. rewrite Hok. cbn [negb].
  cbn [energy_raw timestamp energy_resolution busy_percent
       set_timestamp set_energy_raw set_energy_resolution set_busy_percent].
  unfold assert. destruct (Z.geb_spec (u64 (ec_power r)) (energy_raw dev)); [| lia].
  cbn [bind]. destruct (Z.eqb_spec (energy_raw dev) 0); [contradiction |].
  rewrite Henergy, Helapsed. cbn [bind].
  fold energy_idle. fold energy_min_idle. fold busy busy_peer. fold energy_ratio.
  rewrite HzA. cbn [bind]. rewrite HzB. cbn [bind].
  eexists _, _. split; [reflexivity |].
  cbn [energy_interval energy_acc accumulate set_energy_interval set_energy_acc].
  repeat split; reflexivity.
Qed.

(** X16. When the energy measured for the board over the interval does
    not exceed the two idle floors, each die is credited [energy_idle]
    exactly, whatever the utilizations: the pair shows twice the idle
    floor, which is at least the energy measured. *)
Theorem below_idle_floor_credits_idle :
  forall (smi : rocm_smi) (dev p : Unit) (energy elapsed_s : Z),
    let r := rsmi_dev_energy_count_get smi (id dev) in
    let busy := u32 (bp_percent (rsmi_dev_busy_percent_get smi (id dev))) in
    let busy_peer := u32 (bp_percent (rsmi_dev_busy_percent_get smi (id p))) in
    let energy_idle := gcd_idle_power * elapsed_s in
    bp_success (rsmi_dev_busy_percent_get smi (id dev)) = true ->
    bp_success (rsmi_dev_busy_percent_get smi (id p)) = true ->
    ec_success r = true ->
    energy_raw dev <> 0 -> energy_raw dev <= u64 (ec_power r) ->
    mi250_energy (ec_counter_resolution r) (energy_raw dev) (u64 (ec_power r))
    = Done energy ->
    mi250_elapsed_s (timestamp dev) (u64 (ec_timestamp r)) = Done elapsed_s ->
    energy_idle < 2 ^ 48 -> busy <= 100 -> busy_peer <= 100 ->
    energy <= 2 * energy_idle ->
    exists dev' p',
      _amd_device_fetch_energy_mi250 smi dev (Some p) = Done (dev', Some p') /\
      energy_interval dev' = energy_idle /\ energy_interval p' = energy_idle /\
      energy <= energy_interval dev' + energy_interval p'.
Proof.
  intros smi dev p energy elapsed_s r busy busy_peer energy_idle
         Hb1 Hb2 Hok Hlast Hle Henergy Helapsed Hidle Hbusy Hbusy' Hlow.
  pose proof (to_uint64_t_range _ _ Henergy) as HE0.
  pose proof (to_uint64_t_range _ _ Helapsed) as Hel0.
  assert (Hidle0 : 0 <= energy_idle < 2 ^ 48)
    by (unfold energy_idle, gcd_idle_power in *; lia).
  pose proof (u32_range (bp_percent (rsmi_dev_busy_percent_get smi (id dev)))) as Hbr.
  pose proof (u32_range (bp_percent (rsmi_dev_busy_percent_get smi (id p)))) as Hbr'.
  fold busy in Hbr. fold busy_peer in Hbr'.
  destruct (ratio_facts busy busy_peer ltac:(lia) ltac:(lia))
    as (Hs & Hs' & Hr & Hr' & _ & _).
  assert (Hidle_eq : mi250_energy_idle elapsed_s = energy_idle).
  { unfold mi250_energy_idle. apply u64_small. fold energy_idle. lia. }
  assert (Hmin : mi250_energy_min_idle energy energy_idle = 0).
  { rewrite mi250_energy_min_idle_max by lia. lia. }
  destruct (share_bounds energy_idle 0 (mi250_energy_ratio busy busy_peer) Hidle0
              ltac:(lia) Hs Hr) as (zA & HzA & HgeA & HbA).
  destruct (share_bounds energy_idle 0 (B64.sub B64.one (mi250_energy_ratio busy busy_peer))
              Hidle0 ltac:(lia) Hs' Hr') as (zB & HzB & HgeB & HbB).
  assert (HA : zA = energy_idle).
  { destruct HbA as [_ HbA]. rewrite Rmult_0_r, Rplus_0_r in HbA.
    assert (H : (IZR zA < IZR (energy_idle + 1))%R) by (rewrite plus_IZR; lra).
    apply lt_IZR in H. lia. }
  assert (HB : zB = energy_idle).
  { destruct HbB as [_ HbB]. rewrite Rmult_0_r, Rplus_0_r in HbB.
    assert (H : (IZR zB < IZR (energy_idle + 1))%R) by (rewrite plus_IZR; lra).
    apply lt_IZR in H. lia. }
  subst zA zB.
  destruct (mi250_fetch_shares smi dev p energy elapsed_s energy_idle energy_idle)
    as (dev' & p' & Hrun & HiA & HiB & _); trivial;
    try (fold busy busy_peer; rewrite Hidle_eq, Hmin; assumption).
  exists dev', p'. split; [exact Hrun |]. rewrite HiA, HiB.
  split; [reflexivity |]. split; [reflexivity | lia].
Qed.

(** 100 J over 10 s, at utilizations 90 and 10: 400 J for each die. *)
Lemma below_idle_floor_credits_idle_witness :
  exists dev' p',
    _amd_device_fetch_energy_mi250 (pair_smi 100 90 10) pair_holder (Some pair_peer)
    = Done (dev', Some p') /\
    energy_interval dev' = 400 /\ energy_interval p' = 400.
Proof.
  destruct (below_idle_floor_credits_idle (pair_smi 100 90 10) pair_holder pair_peer
              100 10) as (dev' & p' & Hrun & HA & HB & _);
    try (vm_compute; intuition congruence).
  exists dev', p'. split; [exact Hrun |]. split; [exact HA | exact HB].
Defined.

Definition is_half (x : double) : bool :=
  match x with
  | S754_finite false m e => (Zpos m =? 2 ^ 52) && (e =? -53)
  | _ => false
  end.

Lemma is_half_eq (x : double) : is_half x = true -> x = B64.half.
Proof.
  destruct x as [s | s | | [|] m e]; cbn [is_half]; try discriminate.
  rewrite Bool.andb_true_iff, !Z.eqb_eq. intros [Hm He].
  rewrite half_bits. f_equal; [| exact He].
  apply Pos2Z.inj. exact Hm.
Qed.

Lemma even_ratio_table :
  forallb (fun a => is_half (mi250_energy_ratio a a)) percent_range = true.
Proof. vm_compute. reflexivity. Qed.

Lemma even_ratio (a : Z) :
  0 <= a <= 100 -> mi250_energy_ratio a a = B64.half.
Proof.
  intros Ha. pose proof even_ratio_table as H. rewrite forallb_forall in H.
  apply is_half_eq. apply H. apply percent_range_In. exact Ha.
Qed.

Lemma one_minus_half : B64.sub B64.one B64.half = B64.half.
Proof. vm_compute. reflexivity. Qed.

(** Half of the energy above the floors, added to the floor and converted:
    the halving is exact, the conversion drops the half Joule of an odd
    number. *)
Lemma half_share (idle above : Z) :
  0 <= idle < 2 ^ 48 -> 0 <= above < 2 ^ 48 ->
  mi250_share idle B64.half above = Done (idle + above / 2).
Proof.
  intros Hidle Habove. unfold mi250_share, to_uint64_t.
  assert (Hhalf : finite_pos B64.half (-53) (-53)).
  { rewrite half_bits. exists 4503599627370496%positive, (-53). repeat split; lia. }
  assert (HhalfR : B64.B2R B64.half = (1 / 2)%R).
  { rewrite half_bits. cbn [B64.B2R cond_Zopp]. rewrite bpow_m53. lra. }
  assert (HiR : (0 <= IZR idle <= 281474976710655)%R).
  { split; [apply (IZR_le 0) | apply (IZR_le _ 281474976710655)]; lia. }
  assert (HaR : (0 <= IZR above <= 281474976710655)%R).
  { split; [apply (IZR_le 0) | apply (IZR_le _ 281474976710655)]; lia. }
  destruct (Z.eq_dec above 0) as [-> | Hanz].
  { change (B64.mul B64.half (B64.of_uint 0)) with (S754_zero false).
    change (0 / 2) with 0. rewrite Z.add_0_r.
    destruct (Z.eq_dec idle 0) as [-> | Hnz]; [reflexivity |].
    destruct (of_uint_exact idle ltac:(lia)) as [(m & e & Hx & _) _].
    assert (Hadd : B64.add (B64.of_uint idle) (S754_zero false) = B64.of_uint idle)
      by (rewrite Hx; reflexivity).
    rewrite Hadd, to_u64_of_uint by lia. reflexivity. }
  set (h := above / 2).
  pose proof (Z.mul_div_le above 2 ltac:(lia)) as H1.
  pose proof (Z.mul_succ_div_gt above 2 ltac:(lia)) as H2. fold h in H1, H2.
  assert (Hh1 : (IZR h <= IZR above / 2)%R).
  { assert (2 * IZR h <= IZR above)%R by (rewrite <- mult_IZR; apply IZR_le; lia). lra. }
  assert (Hh2 : (IZR above / 2 <= IZR h + 1 / 2)%R).
  { assert (IZR above <= 2 * IZR h + 1)%R
      by (rewrite <- mult_IZR, <- plus_IZR; apply IZR_le; lia). lra. }
  destruct (of_uint_exact above ltac:(lia)) as [Hafin Hav].
  pose proof (mul_rounds _ _ _ _ _ _ Hhalf Hafin ltac:(lia) ltac:(lia))
    as (Hxfin & Hxerr & Hxlow & _).
  rewrite HhalfR, Hav, IZR_pow2_52 in Hxerr. rewrite HhalfR, Hav in Hxlow.
  set (x := B64.mul B64.half (B64.of_uint above)) in *.
  assert (Hxerr' : (Rabs (B64.B2R x - 1 / 2 * IZR above)
                    <= (1 / 2 * IZR above) / 4503599627370496)%R) by lra.
  apply Rabs_bound in Hxerr'.
  assert (Hxge : (IZR h <= B64.B2R x)%R) by (apply Hxlow; [lia | lra]).
  assert (Hxle : (B64.B2R x <= IZR h + 1 / 2 + 1 / 32)%R) by lra.
  assert (Hh0 : 0 <= h) by (unfold h; apply Z.div_pos; lia).
  destruct (Z.eq_dec idle 0) as [-> | Hinz].
  - assert (Hadd : B64.add (B64.of_uint 0) x = x).
    { destruct Hxfin as (m & e & Hx & _). rewrite Hx. reflexivity. }
    rewrite Hadd, Z.add_0_l.
    rewrite (to_u64_floor x _ _ h Hxfin); [reflexivity | lra | lia].
  - destruct (of_uint_exact idle ltac:(lia)) as [Hifin Hiv].
    pose proof (add_rounds _ _ _ _ _ _ Hifin Hxfin ltac:(lia) ltac:(lia))
      as (Hsfin & Hserr & Hslow & _).
    rewrite Hiv, IZR_pow2_52 in Hserr. rewrite Hiv in Hslow.
    set (s := B64.add (B64.of_uint idle) x) in *.
    assert (Hserr' : (Rabs (B64.B2R s - (IZR idle + B64.B2R x))
                      <= (IZR idle + B64.B2R x) / 4503599627370496)%R) by lra.
    apply Rabs_bound in Hserr'.
    assert (Hge : (IZR (idle + h) <= B64.B2R s)%R).
    { apply Hslow; [lia | rewrite plus_IZR; lra]. }
    rewrite (to_u64_floor s _ _ (idle + h) Hsfin); [reflexivity | | lia].
    split; [exact Hge |]. rewrite plus_IZR. lra.
Qed.

(** X17. At equal utilizations (in 0..100) the ratio is 0.5 exactly and
    the two dies get the same interval energy: the idle floor plus half of
    the energy above the floors, rounded down. An odd Joule above the
    floors is lost. *)
Theorem equal_utilization_splits_evenly :
  forall (smi : rocm_smi) (dev p : Unit) (energy elapsed_s : Z),
    let r := rsmi_dev_energy_count_get smi (id dev) in
    let busy := u32 (bp_percent (rsmi_dev_busy_percent_get smi (id dev))) in
    let busy_peer := u32 (bp_percent (rsmi_dev_busy_percent_get smi (id p))) in
    let energy_idle := gcd_idle_power * elapsed_s in
    let energy_above_idle := Z.max (energy - 2 * energy_idle) 0 in
    bp_success (rsmi_dev_busy_percent_get smi (id dev)) = true ->
    bp_success (rsmi_dev_busy_percent_get smi (id p)) = true ->
    ec_success r = true ->
    energy_raw dev <> 0 -> energy_raw dev <= u64 (ec_power r) ->
    mi250_energy (ec_counter_resolution r) (energy_raw dev) (u64 (ec_power r))
    = Done energy ->
    mi250_elapsed_s (timestamp dev) (u64 (ec_timestamp r)) = Done elapsed_s ->
    energy < 2 ^ 48 -> energy_idle < 2 ^ 48 ->
    busy = busy_peer -> busy <= 100 ->
    exists dev' p',
      _amd_device_fetch_energy_mi250 smi dev (Some p) = Done (dev', Some p') /\
      mi250_energy_ratio busy busy_peer = B64.half /\
      energy_interval dev' = energy_idle + energy_above_idle / 2 /\
      energy_interval p' = energy_idle + energy_above_idle / 2.
Proof.
  intros smi dev p energy elapsed_s r busy busy_peer energy_idle energy_above_idle
         Hb1 Hb2 Hok Hlast Hle Henergy Helapsed HE Hidle Heq Hbusy.
  pose proof (to_uint64_t_range _ _ Henergy) as HE0.
  pose proof (to_uint64_t_range _ _ Helapsed) as Hel0.
  assert (Hidle0 : 0 <= energy_idle < 2 ^ 48)
    by (unfold energy_idle, gcd_idle_power in *; lia).
  pose proof (u32_range (bp_percent (rsmi_dev_busy_percent_get smi (id dev)))) as Hbr.
  fold busy in Hbr.
  assert (Hratio : mi250_energy_ratio busy busy_peer = B64.half).
  { rewrite <- Heq. apply even_ratio. lia. }
  assert (Hidle_eq : mi250_energy_idle elapsed_s = energy_idle).
  { unfold mi250_energy_idle. apply u64_small. fold energy_idle. lia. }
  assert (Hmin : mi250_energy_min_idle energy energy_idle = energy_above_idle).
  { rewrite mi250_energy_min_idle_max by lia. reflexivity. }
  assert (Habove : 0 <= energy_above_idle < 2 ^ 48) by (unfold energy_above_idle; lia).
  pose proof (half_share energy_idle energy_above_idle Hidle0 Habove) as Hshare.
  destruct (mi250_fetch_shares smi dev p energy elapsed_s
              (energy_idle + energy_above_idle / 2) (energy_idle + energy_above_idle / 2))
    as (dev' & p' & Hrun & HiA & HiB & _); trivial;
    try (fold busy busy_peer; rewrite Hidle_eq, Hmin, Hratio, ?one_minus_half;
         exact Hshare).
  exists dev', p'. split; [exact Hrun |]. split; [exact Hratio |].
  split; [exact HiA | exact HiB].
Qed.

(** 1001 J over 10 s at equal utilizations: 201 J above the floors, 500 J
    for each die. *)
Lemma equal_utilization_splits_evenly_witness :
  exists dev' p',
    _amd_device_fetch_energy_mi250 (pair_smi 1001 70 70) pair_holder (Some pair_peer)
    = Done (dev', Some p') /\
    energy_interval dev' = 500 /\ energy_interval p' = 500.
Proof.
  destruct (equal_utilization_splits_evenly (pair_smi 1001 70 70) pair_holder pair_peer
              1001 10) as (dev' & p' & Hrun & _ & HA & HB);
    try (vm_compute; intuition congruence).
  exists dev', p'. split; [exact Hrun |]. split; [exact HA | exact HB].
Defined.

(** ** amd_gpu.c: [amd_gpu_init] *)

Definition set_bus_id (v : Z) (u : Unit) : Unit :=
  mkUnit (timestamp u) v (energy_resolution u) (energy_raw u) (energy_acc u)
         (energy_interval u) (energy_fd u) (id u) (model u) (busy_percent u)
         (fixed_watts u) (peer u).

(** What ROCm SMI answers while the devices are discovered; [None] stands
    for a status other than [RSMI_STATUS_SUCCESS]. *)
Record rocm_devices : Type := mkDevices {
  rsmi_init : bool;
  rsmi_num_monitor_devices : option Z;
  rsmi_dev_serial_number_get : Z -> option String.string;
  rsmi_dev_subsystem_id_get : Z -> option Z;
  rsmi_dev_pci_id_get : Z -> option Z
}.

(** [strncmp(a, b, sizeof(dev->serial)) == 0] on two serial strings. *)
Definition same_serial (a b : String.string) : bool :=
  String.eqb (String.substring 0 64 a) (String.substring 0 64 b).

(** The loop of [amd_gpu_init]; [prev_serial] is the serial string left in
    the unit before. *)
Fixpoint amd_gpu_init_from (rocm : rocm_devices) (smi : rocm_smi)
    (dest_opens : Z -> bool) (n i : nat) (prev_serial : option String.string)
    (sibs : list Unit) : outcome (list Unit) :=
  match n with
  | O => Done sibs
  | S n' =>
      let dev := set_id (Z.of_nat i) Unit_zero in
      match rsmi_dev_serial_number_get rocm (Z.of_nat i) with
      | None => Exit_failure
      | Some serial =>
          (* Check if 2 consecutive GCDs belong to the same board *)
          sibs <- match i, prev_serial with
                  | S i', Some prev =>
                      match nth_error sibs i' with
                      | None => Undefined
                      | Some prev_dev =>
                          if same_serial serial prev
                          then Done (store i' (set_peer (Some i) prev_dev) sibs)
                          else Done sibs
                      end
                  | _, _ => Done sibs
                  end ;;
          match rsmi_dev_subsystem_id_get rocm (Z.of_nat i) with
          | None => Exit_failure
          | Some model_id =>
              let dev := set_model (model_id mod 2 ^ 16) dev in
              match rsmi_dev_pci_id_get rocm (Z.of_nat i) with
              | None => Exit_failure
              | Some pci_id =>
                  (* Fixing PCIe address shifted by a byte *)
                  let dev := set_bus_id (Z.shiftr (u64 pci_id) 8) dev in
                  (* Fetching first raw value *)
                  dev <- _amd_device_fetch_energy smi dev ;;
                  if dest_opens (Z.of_nat i) then
                    amd_gpu_init_from rocm smi dest_opens n' (S i) (Some serial)
                                      (store i dev sibs)
                  else Exit_failure
              end
          end
      end
  end.

Definition amd_gpu_init (rocm : rocm_devices) (smi : rocm_smi) (dest_opens : Z -> bool)
    (is_verbose is_disabled : bool) : outcome Component :=
  let zeroed := repeat Unit_zero (Z.to_nat N_SIBLINGS_MAX) in
  if is_disabled then Done (mkComponent zeroed GPU AMD 0 is_verbose)
  else if negb (rsmi_init rocm) then Exit_failure
  else
    match rsmi_num_monitor_devices rocm with
    | None => Exit_failure
    | Some count =>
        let n_siblings := u32 count in
        _ <- assert (n_siblings <? N_SIBLINGS_MAX) ;;
        sibs <- amd_gpu_init_from rocm smi dest_opens (Z.to_nat n_siblings) 0 None
                                  zeroed ;;
        Done (mkComponent sibs GPU AMD n_siblings is_verbose)
    end.

(** Whether devices [i] and [i + 1] report the same serial number. *)
Definition same_board (rocm : rocm_devices) (i : nat) : bool :=
  match rsmi_dev_serial_number_get rocm (Z.of_nat i),
        rsmi_dev_serial_number_get rocm (Z.of_nat (S i)) with
  | Some a, Some b => same_serial b a
  | _, _ => false
  end.

(** A unit as the loop leaves it, its link apart. *)
Definition discovered (rocm : rocm_devices) (i : nat) (u : Unit) : Prop :=
  id u = Z.of_nat i /\ energy_acc u = 0 /\ energy_interval u = 0 /\
  energy_fd u = None /\
  (exists model_id, rsmi_dev_subsystem_id_get rocm (Z.of_nat i) = Some model_id /\
                    model u = model_id mod 2 ^ 16) /\
  (exists pci_id, rsmi_dev_pci_id_get rocm (Z.of_nat i) = Some pci_id /\
                  bus_id u = Z.shiftr (u64 pci_id) 8).

(** The first [m] units after [m] turns of the loop: the last one holds no
    link yet. *)
Definition linked_up_to (rocm : rocm_devices) (m : nat) (sibs : list Unit) : Prop :=
  forall j, (j < m)%nat ->
    exists u, nth_error sibs j = Some u /\ discovered rocm j u /\
              peer u = if (S j <? m)%nat && same_board rocm j then Some (S j) else None.

Lemma first_fetch_discovered (rocm : rocm_devices) (smi : rocm_smi) (i : nat)
    (model_id pci_id : Z) (dev : Unit) :
  rsmi_dev_subsystem_id_get rocm (Z.of_nat i) = Some model_id ->
  rsmi_dev_pci_id_get rocm (Z.of_nat i) = Some pci_id ->
  _amd_device_fetch_energy smi
    (set_bus_id (Z.shiftr (u64 pci_id) 8)
       (set_model (model_id mod 2 ^ 16) (set_id (Z.of_nat i) Unit_zero))) = Done dev ->
  discovered rocm i dev /\ peer dev = None.
Proof.
  intros Hm Hb. unfold _amd_device_fetch_energy.
  destruct (negb (ec_success _)); [discriminate |].
  destruct (assert _) as [[] | | |]; cbn [bind]; try discriminate.
  cbn [energy_raw set_bus_id set_model set_id Unit_zero Z.eqb].
  intros H. injection H as <-. unfold discovered. cbn.
  repeat split; eauto.
Qed.

Lemma amd_gpu_init_from_spec (rocm : rocm_devices) (smi : rocm_smi)
    (dest_opens : Z -> bool) :
  forall (n i : nat) (prev : option String.string) (sibs sibs' : list Unit),
    amd_gpu_init_from rocm smi dest_opens n i prev sibs = Done sibs' ->
    (i + n <= length sibs)%nat ->
    (match i with
     | O => True
     | S i' => prev = rsmi_dev_serial_number_get rocm (Z.of_nat i') /\ prev <> None
     end) ->
    linked_up_to rocm i sibs ->
    length sibs' = length sibs /\ linked_up_to rocm (i + n) sibs'.
Proof.
  induction n as [| n IH]; intros i prev sibs sibs' Hrun Hlen Hprev Hinv.
  - cbn in Hrun. injection Hrun as <-. rewrite Nat.add_0_r. auto.
  - cbn [amd_gpu_init_from] in Hrun.
    destruct (rsmi_dev_serial_number_get rocm (Z.of_nat i)) as [serial |] eqn:Hserial;
      [| discriminate].
    (* the link of the unit before *)
    assert (Hlink : exists sibs1,
               match i, prev with
               | S i', Some prev =>
                   match nth_error sibs i' with
                   | None => Undefined
                   | Some prev_dev =>
                       if same_serial serial prev
                       then Done (store i' (set_peer (Some i) prev_dev) sibs)
                       else Done sibs
                   end
               | _, _ => Done sibs
               end = Done sibs1 /\
               length sibs1 = length sibs /\
               forall j, (j < i)%nat ->
                 exists u, nth_error sibs1 j = Some u /\ discovered rocm j u /\
                           peer u = if (S j <? S i)%nat && same_board rocm j
                                    then Some (S j) else None).
    { destruct i as [| i'].
      - exists sibs. split; [reflexivity |]. split; [reflexivity |]. intros j Hj. lia.
      - destruct Hprev as [Hp Hpn].
        destruct prev as [prev |]; [| contradiction Hpn; reflexivity].
        destruct (Hinv i' ltac:(lia)) as (u & Hu & Hd & Hpeer).
        rewrite Hu.
        replace (S i' <? S i')%nat with false in Hpeer
          by (symmetry; apply Nat.ltb_ge; lia).
        cbn [andb] in Hpeer.
        assert (Hsb : same_board rocm i' = same_serial serial prev).
        { unfold same_board. rewrite <- Hp, Hserial. reflexivity. }
        destruct (same_serial serial prev) eqn:Hss.
        + eexists. split; [reflexivity |]. split; [apply store_length |].
          intros j Hj. destruct (Nat.eq_dec i' j) as [<- | Hne].
          * rewrite (nth_error_store_same _ _ _ _ Hu). eexists. split; [reflexivity |].
            split; [exact Hd |]. cbn [peer set_peer].
            replace (S i' <? S (S i'))%nat with true
              by (symmetry; apply Nat.ltb_lt; lia).
            rewrite Hsb. reflexivity.
          * rewrite nth_error_store_other by exact Hne.
            destruct (Hinv j ltac:(lia)) as (uj & Huj & Hdj & Hpj).
            exists uj. split; [exact Huj |]. split; [exact Hdj |]. rewrite Hpj.
            replace (S j <? S i')%nat with true by (symmetry; apply Nat.ltb_lt; lia).
            replace (S j <? S (S i'))%nat with true by (symmetry; apply Nat.ltb_lt; lia).
            reflexivity.
        + exists sibs. split; [reflexivity |]. split; [reflexivity |].
          intros j Hj. destruct (Nat.eq_dec i' j) as [<- | Hne].
          * exists u. split; [exact Hu |]. split; [exact Hd |]. rewrite Hpeer, Hsb.
            rewrite Bool.andb_false_r. reflexivity.
          * destruct (Hinv j ltac:(lia)) as (uj & Huj & Hdj & Hpj).
            exists uj. split; [exact Huj |]. split; [exact Hdj |]. rewrite Hpj.
            replace (S j <? S i')%nat with true by (symmetry; apply Nat.ltb_lt; lia).
            replace (S j <? S (S i'))%nat with true by (symmetry; apply Nat.ltb_lt; lia).
            reflexivity. }
    destruct Hlink as (sibs1 & Hlink & Hlen1 & Hinv1). rewrite Hlink in Hrun.
    cbn [bind] in Hrun.
    destruct (rsmi_dev_subsystem_id_get rocm (Z.of_nat i)) as [model_id |] eqn:Hmodel;
      [| discriminate].
    destruct (rsmi_dev_pci_id_get rocm (Z.of_nat i)) as [pci_id |] eqn:Hpci;
      [| discriminate].
    destruct (_amd_device_fetch_energy smi _) as [dev | | |] eqn:Hfetch;
      cbn [bind] in Hrun; try discriminate.
    destruct (dest_opens (Z.of_nat i)); [| discriminate].
    destruct (first_fetch_discovered rocm smi i model_id pci_id dev Hmodel Hpci Hfetch)
      as [Hd Hp].
    assert (Hi : exists old, nth_error sibs1 i = Some old).
    { destruct (nth_error sibs1 i) as [old |] eqn:Ho; [eauto |].
      apply nth_error_None in Ho. lia. }
    destruct Hi as (old & Hold).
    destruct (IH (S i) (Some serial) (store i dev sibs1) sibs' Hrun) as [Hlen' Hinv'].
    + rewrite store_length. lia.
    + split; [symmetry; exact Hserial | discriminate].
    + intros j Hj. destruct (Nat.eq_dec i j) as [<- | Hne].
      * rewrite (nth_error_store_same _ _ _ _ Hold). exists dev.
        split; [reflexivity |]. split; [exact Hd |]. rewrite Hp.
        replace (S i <? S i)%nat with false by (symmetry; apply Nat.ltb_ge; lia).
        reflexivity.
      * rewrite nth_error_store_other by exact Hne. apply Hinv1. lia.
    + rewrite store_length in Hlen'. split; [lia |].
      replace (i + S n)%nat with (S i + n)%nat by lia. exact Hinv'.
Qed.

(** X18. When [amd_gpu_init] returns, there are fewer than 16 units; unit
    [i] carries the number [i], the model and bus number read for device
    [i], and nothing accumulated; and it holds a link exactly when device
    [i + 1] exists and reports the same serial number, the link then going
    to unit [i + 1]: a link never goes back, never skips a unit, and the
    last unit holds none. *)
Theorem amd_gpu_init_links_next_die :
  forall (rocm : rocm_devices) (smi : rocm_smi) (dest_opens : Z -> bool)
         (is_verbose : bool) (gpus : Component),
    amd_gpu_init rocm smi dest_opens is_verbose false = Done gpus ->
    0 <= n_siblings gpus < N_SIBLINGS_MAX /\
    forall i : nat,
      Z.of_nat i < n_siblings gpus ->
      exists u,
        nth_error (siblings gpus) i = Some u /\
        discovered rocm i u /\
        peer u = if (Z.of_nat (S i) <? n_siblings gpus) && same_board rocm i
                 then Some (S i) else None.
Proof.
  intros rocm smi dest_opens is_verbose gpus. unfold amd_gpu_init.
  destruct (negb (rsmi_init rocm)); [discriminate |].
  destruct (rsmi_num_monitor_devices rocm) as [count |]; [| discriminate].
  pose proof (u32_range count) as Hc. unfold assert, N_SIBLINGS_MAX in *.
  destruct (Z.ltb_spec (u32 count) 16) as [Hlt | ]; [| discriminate]. cbn [bind].
  destruct (amd_gpu_init_from rocm smi dest_opens _ 0 None _) as [sibs | | |] eqn:Hloop;
    cbn [bind]; try discriminate.
  intros H. injection H as <-. cbn [n_siblings siblings]. split; [lia |].
  destruct (amd_gpu_init_from_spec rocm smi dest_opens _ 0 None _ sibs Hloop)
    as [_ Hinv].
  - rewrite repeat_length. cbn. lia.
  - exact I.
  - intros j Hj. lia.
  - intros i Hi. cbn [Nat.add] in Hinv.
    destruct (Hinv i ltac:(lia)) as (u & Hu & Hd & Hp).
    exists u. split; [exact Hu |]. split; [exact Hd |]. rewrite Hp.
    replace (S i <? Z.to_nat (u32 count))%nat with (Z.of_nat (S i) <? u32 count);
      [reflexivity |].
    destruct (Z.ltb_spec (Z.of_nat (S i)) (u32 count));
      symmetry; [apply Nat.ltb_lt | apply Nat.ltb_ge]; lia.
Qed.

Definition two_boards : rocm_devices :=
  mkDevices true (Some 3)
            (fun i => Some (if i <? 2 then "PCB052715-0071" else "PCB052715-0093")%string)
            (fun _ => Some MI250)
            (fun i => Some (0xC100 + 0x500 * i)).

(** Three dies, the first two of one board. *)
Lemma amd_gpu_init_links_next_die_witness :
  exists gpus,
    amd_gpu_init two_boards (smi_count 123456) (fun _ => true) false false = Done gpus /\
    map peer (firstn 3 (siblings gpus)) = [Some 1%nat; None; None] /\
    map bus_id (firstn 3 (siblings gpus)) = [0xC1; 0xC6; 0xCB].
Proof.
  assert (exists gpus,
            amd_gpu_init two_boards (smi_count 123456) (fun _ => true) false false
            = Done gpus) as (gpus & Hrun) by (eexists; vm_compute; reflexivity).
  exists gpus. split; [exact Hrun |].
  destruct (amd_gpu_init_links_next_die _ _ _ _ _ Hrun) as [_ Hunits].
  assert (Hn : n_siblings gpus = 3) by (vm_compute in Hrun; injection Hrun as <-; reflexivity).
  destruct (Hunits 0%nat ltac:(lia)) as (u0 & H0 & (_ & _ & _ & _ & _ & (b0 & Hb0 & Hbus0)) & Hp0).
  destruct (Hunits 1%nat ltac:(lia)) as (u1 & H1 & (_ & _ & _ & _ & _ & (b1 & Hb1 & Hbus1)) & Hp1).
  destruct (Hunits 2%nat ltac:(lia)) as (u2 & H2 & (_ & _ & _ & _ & _ & (b2 & Hb2 & Hbus2)) & Hp2).
  rewrite Hn in Hp0, Hp1, Hp2.
  destruct (siblings gpus) as [| v0 [| v1 [| v2 rest]]]; try discriminate.
  cbn in H0, H1, H2. injection H0 as ->. injection H1 as ->. injection H2 as ->.
  cbn [firstn map]. rewrite Hp0, Hp1, Hp2, Hbus0, Hbus1, Hbus2.
  cbn in Hb0, Hb1, Hb2. injection Hb0 as <-. injection Hb1 as <-. injection Hb2 as <-.
  split; reflexivity.
Defined.

(** ** dram.c, intel_gpu.c, nvidia_gpu.c: the update functions *)

Definition dram_update (to_core : list Z) (hw : msr_device) (drams : Component)
    : outcome Component :=
  sibs <- update_from (fun package => dram_step (table to_core) (c_vendor drams)
                                                package hw)
                      (Z.to_nat (n_siblings drams)) 0 (siblings drams) ;;
  Done (mkComponent sibs (c_type drams) (c_vendor drams) (n_siblings drams)
                    (is_verbose drams)).

Definition intel_gpu_update (zes_energy : Z -> Z) (gpus : Component) : outcome Component :=
  sibs <- update_from (fun dev => _intel_device_update_files zes_energy dev)
                      (Z.to_nat (n_siblings gpus)) 0 (siblings gpus) ;;
  Done (mkComponent sibs (c_type gpus) (c_vendor gpus) (n_siblings gpus)
                    (is_verbose gpus)).

(** What DCGM answers in one cycle: whether the watch could be set, and
    the energies the callback stored when the latest values could be
    retrieved. On an error the module is closed and the program exits. *)
Record dcgm_cycle : Type := mkDcgm {
  dcgmWatchFields : bool;
  dcgmGetLatestValues : option (Z -> Z)
}.

Definition nvidia_gpu_update (dcgm : dcgm_cycle) (gpus : Component) : outcome Component :=
  if negb (dcgmWatchFields dcgm) then Exit_failure
  else
    match dcgmGetLatestValues dcgm with
    | None => Exit_failure
    | Some _dcgm_energy =>
        sibs <- update_from (fun dev => _nvidia_device_update_files _dcgm_energy dev)
                            (Z.to_nat (n_siblings gpus)) 0 (siblings gpus) ;;
        Done (mkComponent sibs (c_type gpus) (c_vendor gpus) (n_siblings gpus)
                          (is_verbose gpus))
    end.

(** ** The units of a loop do not depend on each other *)

Section Loops.

Context {I : Type}.
Variable update : I -> Component -> outcome Component.
Variable step : vendor -> Unit -> I -> outcome Unit.

(** [update] is a loop over the siblings that calls [step] on each. *)
Hypothesis update_loop :
  forall i c,
    update i c
    = (sibs <- update_from (fun u => step (c_vendor c) u i)
                           (Z.to_nat (n_siblings c)) 0 (siblings c) ;;
       Done (mkComponent sibs (c_type c) (c_vendor c) (n_siblings c) (is_verbose c))).

Fixpoint component_cycles (inputs : list I) (c : Component) : outcome Component :=
  match inputs with
  | [] => Done c
  | i :: rest => c <- update i c ;; component_cycles rest c
  end.

(** Unit [u] ends as [u'] when its own cycles return. *)
Definition ends_as (v : vendor) (inputs : list I) (u u' : Unit) : Prop :=
  exists trace, cycles (step v) u inputs = Done trace /\ u' = last trace u.

Lemma each_Forall2 (f : Unit -> outcome Unit) (us us' : list Unit) :
  each f us = Done us' <-> Forall2 (fun u u' => f u = Done u') us us'.
Proof.
  revert us'. induction us as [| u us IH]; intros us'; cbn [each].
  - split.
    + intros H. injection H as <-. constructor.
    + intros H. inversion H. reflexivity.
  - split.
    + destruct (f u) as [u1 | | |] eqn:Hu; cbn [bind]; try discriminate.
      destruct (each f us) as [us1 | | |]; cbn [bind]; try discriminate.
      intros H. injection H as <-. constructor; [exact Hu |]. apply IH. reflexivity.
    + intros H. inversion H as [| ? u1 ? us1 Hu Hrest]; subst.
      rewrite Hu. cbn [bind]. apply IH in Hrest. rewrite Hrest. reflexivity.
Qed.

Lemma ends_as_cons (v : vendor) (i : I) (rest : list I) (us us' : list Unit) :
  Forall2 (ends_as v (i :: rest)) us us' <->
  exists us1, Forall2 (fun u u1 => step v u i = Done u1) us us1 /\
              Forall2 (ends_as v rest) us1 us'.
Proof.
  revert us'. induction us as [| u us IH]; intros us'.
  - split.
    + intros H. inversion H. exists []. split; constructor.
    + intros (us1 & H1 & H2). inversion H1; subst. inversion H2. constructor.
  - split.
    + intros H. inversion H as [| ? u' ? us'' Hu Hrest]; subst.
      apply IH in Hrest. destruct Hrest as (us1 & H1 & H2).
      destruct Hu as (trace & Hrun & ->). cbn [cycles] in Hrun.
      destruct (step v u i) as [u1 | | |] eqn:Hstep; cbn [bind] in Hrun; try discriminate.
      destruct (cycles (step v) u1 rest) as [t1 | | |] eqn:Hrest; cbn [bind] in Hrun;
        try discriminate.
      injection Hrun as <-. exists (u1 :: us1). split.
      * constructor; trivial.
      * constructor; [| exact H2]. exists t1. split; [exact Hrest |].
        apply last_cons_default.
    + intros (us1 & H1 & H2).
      inversion H1 as [| ? u1 ? us1' Hstep H1']; subst.
      inversion H2 as [| ? u' ? us'' Hu H2']; subst.
      constructor.
      * destruct Hu as (t1 & Hrest & ->). exists (u1 :: t1). split.
        -- cbn [cycles]. rewrite Hstep. cbn [bind]. rewrite Hrest. reflexivity.
        -- symmetry. apply last_cons_default.
      * apply IH. exists us1'. auto.
Qed.

Lemma component_cycles_units (inputs : list I) :
  forall (us post : list Unit) (t : type) (v : vendor) (verbose : bool) (c' : Component),
    component_cycles inputs (mkComponent (us ++ post) t v (Z.of_nat (length us)) verbose)
    = Done c' <->
    exists us', Forall2 (ends_as v inputs) us us' /\
                c' = mkComponent (us' ++ post) t v (Z.of_nat (length us)) verbose.
Proof.
  induction inputs as [| i rest IH]; intros us post t v verbose c'.
  - cbn [component_cycles]. split.
    + intros H. injection H as <-. exists us. split; [| reflexivity].
      clear. induction us; constructor; trivial. exists []. split; reflexivity.
    + intros (us' & H & ->). f_equal. f_equal. f_equal.
      clear - H. induction H as [| u u' us us' (trace & Hrun & ->) _ IH]; [reflexivity |].
      cbn in Hrun. injection Hrun as <-. cbn. f_equal. exact IH.
  - cbn [component_cycles]. rewrite update_loop.
    cbn [n_siblings siblings c_type c_vendor is_verbose]. rewrite Nat2Z.id.
    pose proof (update_from_each (fun u => step v u i) us [] post) as Hloop.
    cbn [length app] in Hloop. rewrite Hloop. split.
    + destruct (each (fun u => step v u i) us) as [us1 | | |] eqn:Heach; cbn [bind];
        try discriminate.
      apply each_Forall2 in Heach.
      assert (Hlen : length us1 = length us).
      { symmetry. eapply Forall2_length. exact Heach. }
      rewrite <- Hlen. intros Hrest. apply IH in Hrest.
      destruct Hrest as (us' & H2 & ->). exists us'. split; [| reflexivity].
      apply ends_as_cons. exists us1. auto.
    + intros (us' & H & ->). apply ends_as_cons in H. destruct H as (us1 & H1 & H2).
      pose proof (Forall2_length H1) as Hlen.
      apply each_Forall2 in H1. rewrite H1. cbn [bind].
      rewrite Hlen. apply IH. exists us'. rewrite <- Hlen. auto.
Qed.

End Loops.

(** X19. [cpu_update], [dram_update], [intel_gpu_update], [mock_update]
    and, as long as DCGM answers, [nvidia_gpu_update] treat the units one
    by one: a run of cycles of the component returns exactly when the run of
    each of its units does, and each unit then ends as in its own run; the
    units past [n_siblings] are not touched. [nvidia_gpu_update] asks DCGM
    before it looks at its units and exits when DCGM refuses, also with no
    unit at all. *)
Theorem update_loops_are_per_unit :
  forall (us post : list Unit) (t : type) (v : vendor) (verbose : bool),
    let c := mkComponent (us ++ post) t v (Z.of_nat (length us)) verbose in
    let ended (us' : list Unit) (c' : Component) :=
      c' = mkComponent (us' ++ post) t v (Z.of_nat (length us)) verbose in
    (forall to_core hws c',
       component_cycles (cpu_update to_core) hws c = Done c' <->
       exists us', Forall2 (ends_as (cpu_step (table to_core)) v hws) us us' /\
                   ended us' c') /\
    (forall to_core hws c',
       component_cycles (dram_update to_core) hws c = Done c' <->
       exists us', Forall2 (ends_as (dram_step (table to_core)) v hws) us us' /\
                   ended us' c') /\
    (forall zes c',
       component_cycles intel_gpu_update zes c = Done c' <->
       exists us', Forall2 (ends_as (fun _ => intel_step) v zes) us us' /\
                   ended us' c') /\
    (forall energies c',
       component_cycles (fun e => nvidia_gpu_update (mkDcgm true (Some e))) energies c
       = Done c' <->
       exists us', Forall2 (ends_as (fun _ => nvidia_step) v energies) us us' /\
                   ended us' c') /\
    (forall (k : nat) c',
       component_cycles (fun _ : unit => mock_update) (repeat tt k) c = Done c' <->
       exists us', Forall2 (ends_as (fun _ => mock_step) v (repeat tt k)) us us' /\
                   ended us' c') /\
    (forall dcgm gpus,
       dcgmWatchFields dcgm = false \/ dcgmGetLatestValues dcgm = None ->
       nvidia_gpu_update dcgm gpus = Exit_failure).
Proof.
  intros us post t v verbose c ended.
  split; [| split; [| split; [| split; [| split]]]].
  - intros to_core hws c'.
    apply (component_cycles_units (cpu_update to_core) (cpu_step (table to_core))).
    intros i c0. reflexivity.
  - intros to_core hws c'.
    apply (component_cycles_units (dram_update to_core) (dram_step (table to_core))).
    intros i c0. reflexivity.
  - intros zes c'.
    apply (component_cycles_units intel_gpu_update (fun _ => intel_step)).
    intros i c0. reflexivity.
  - intros energies c'.
    apply (component_cycles_units (fun e => nvidia_gpu_update (mkDcgm true (Some e)))
                                  (fun _ => nvidia_step)).
    intros i c0. reflexivity.
  - intros k c'.
    apply (component_cycles_units (fun _ : unit => mock_update) (fun _ => mock_step)).
    intros i c0. reflexivity.
  - intros dcgm gpus [H | H]; unfold nvidia_gpu_update; rewrite H; [reflexivity |].
    destruct (negb (dcgmWatchFields dcgm)); reflexivity.
Qed.

(** Two NVIDIA GPUs over two cycles: each ends as on its own. *)
Lemma update_loops_are_per_unit_witness :
  exists gpus',
    component_cycles (fun e => nvidia_gpu_update (mkDcgm true (Some e)))
      [(fun i => 8500 + 1000 * i); (fun i => 12000 + 3000 * i)]
      (mkComponent ([set_energy_raw 5000 Unit_zero;
                     set_energy_raw 7000 (set_id 1 Unit_zero)] ++ [Unit_zero])
                   GPU NVIDIA 2 false) = Done gpus' /\
    map energy_acc (siblings gpus') = [6; 7; 0].
Proof.
  destruct (update_loops_are_per_unit
              [set_energy_raw 5000 Unit_zero; set_energy_raw 7000 (set_id 1 Unit_zero)]
              [Unit_zero] GPU NVIDIA false) as (_ & _ & _ & Hnv & _).
  cbv zeta in Hnv. cbn [length Z.of_nat Pos.of_succ_nat Pos.succ] in Hnv.
  eexists. split.
  - apply Hnv. eexists. split; [| reflexivity].
    constructor; [| constructor; [| constructor]].
    + eexists. split; [vm_compute; reflexivity | reflexivity].
    + eexists. split; [vm_compute; reflexivity | reflexivity].
  - vm_compute. reflexivity.
Defined.

(** ** amd_gpu.c: the interval energy of a GPU that is not split *)

(** [resolution * delta / 1E6] on doubles, converted to [uint64_t], against
    the real number [t] it stands for: never above [t] by more than the
    rounding of the two operations, below it by less than one Joule
    more. *)
Lemma microjoule_counts_to_joules (resolution : double) (delta : Z) :
  finite_pos resolution (-100) (-4) -> 0 < delta < 2 ^ 53 ->
  (B64.B2R resolution * IZR delta / 1000000 < 4611686018427387904)%R ->
  exists z,
    to_uint64_t (B64.div (B64.mul resolution (B64.of_uint delta)) B64.c_1E6) = Done z /\
    0 <= z /\
    (B64.B2R resolution * IZR delta / 1000000 * (1 - / 1125899906842624) - 1 < IZR z
     <= B64.B2R resolution * IZR delta / 1000000 * (1 + / 1125899906842624))%R.
Proof.
  intros Hres Hd Hfit. unfold to_uint64_t.
  destruct (of_uint_exact delta Hd) as [Hdfin Hdv].
  destruct (of_uint_exact 1000000 ltac:(lia)) as [Hcfin Hcv]. fold B64.c_1E6 in Hcfin, Hcv.
  pose proof (finite_pos_B2R _ _ _ Hres) as [Hrpos _].
  pose proof (bpow_pos (-100)) as Hb.
  assert (Hr0 : (0 < B64.B2R resolution)%R).
  { rewrite IZR_pow2_52 in Hrpos. lra. }
  assert (Hd0 : (1 <= IZR delta)%R) by (apply (IZR_le 1); lia).
  pose proof (mul_rounds _ _ _ _ _ _ Hres Hdfin ltac:(lia) ltac:(lia))
    as (Hpfin & Hperr & _ & _).
  rewrite Hdv, IZR_pow2_52 in Hperr.
  set (p := B64.mul resolution (B64.of_uint delta)) in *.
  set (t0 := (B64.B2R resolution * IZR delta)%R) in *.
  assert (Ht0 : (0 < t0)%R) by (unfold t0; nra).
  assert (Hperr' : (Rabs (B64.B2R p - t0) <= t0 / 4503599627370496)%R) by lra.
  apply Rabs_bound in Hperr'.
  pose proof (div_rounds _ _ _ _ _ _ Hpfin Hcfin ltac:(lia) ltac:(lia))
    as (Hqfin & Hqerr & _ & _).
  rewrite Hcv, IZR_pow2_52 in Hqerr.
  set (q := B64.div p B64.c_1E6) in *.
  assert (Hqerr' : (Rabs (B64.B2R q - B64.B2R p / 1000000)
                    <= (B64.B2R p / 1000000) / 4503599627370496)%R) by lra.
  apply Rabs_bound in Hqerr'.
  destruct (to_u64_spec q _ _ Hqfin ltac:(lra)) as (z & Hz & Hz0 & Hfl).
  rewrite Hz. exists z. split; [reflexivity |]. split; [exact Hz0 |].
  fold t0. lra.
Qed.

(** X20. An AMD GPU that is not an MI250, with a baseline, a counter that
    moved forward by less than 2^53 counts and a resolution between 2^-48
    and 2^49 uJ per count: the interval energy is the energy of the counts,
    [resolution * delta / 10^6] Joules, rounded down, up to the rounding of
    the two operations on doubles (a relative 2^-50); it is added to the
    accumulator. *)
Theorem amd_interval_energy :
  forall (smi : rocm_smi) (dev : Unit),
    let r := rsmi_dev_energy_count_get smi (id dev) in
    let delta := u64 (ec_power r) - energy_raw dev in
    let joules := (B64.B2R (ec_counter_resolution r) * IZR delta / 1000000)%R in
    ec_success r = true ->
    0 < energy_raw dev -> 0 < delta < 2 ^ 53 ->
    finite_pos (ec_counter_resolution r) (-100) (-4) ->
    (joules < 4611686018427387904)%R ->
    exists dev',
      _amd_device_fetch_energy smi dev = Done dev' /\
      energy_raw dev' = u64 (ec_power r) /\
      (joules * (1 - / 1125899906842624) - 1 < IZR (energy_interval dev')
       <= joules * (1 + / 1125899906842624))%R /\
      energy_acc dev' = u64 (energy_acc dev + energy_interval dev').
Proof.
  intros smi dev r delta joules Hok Hraw Hd Hres Hfit.
  destruct (microjoule_counts_to_joules _ delta Hres Hd Hfit) as (z & Hz & Hz0 & Hb).
  unfold _amd_device_fetch_energy. fold r. rewrite Hok.
  cbn [negb energy_raw set_timestamp set_energy_raw]. unfold assert.
  destruct (Z.geb_spec (u64 (ec_power r)) (energy_raw dev)); [| lia]. cbn [bind].
  destruct (Z.eqb_spec (energy_raw dev) 0); [lia |].
  cbn [energy_resolution energy_raw set_energy_resolution set_timestamp set_energy_raw].
  fold delta. rewrite (u64_small delta) by lia. rewrite Hz. cbn [bind].
  eexists. split; [reflexivity |]. cbn -[u64]. repeat split; trivial; apply Hb.
Qed.

(** A resolution of 15.259 uJ per count, as ROCm SMI reports it for the
    MI series (the float 15.2587890625 = 2^-16 J), and 131072000 counts:
    2000 J. *)
Definition resolution_2m16 : double := S754_finite false 8589934592000000 (-49).

Lemma amd_interval_energy_witness :
  exists dev',
    _amd_device_fetch_energy
      (mkSmi (fun _ => mkEnergyCount true 131073000 resolution_2m16 0)
             (fun _ => mkBusy true 0))
      (set_energy_raw 1000 Unit_zero) = Done dev' /\
    energy_interval dev' = 2000.
Proof.
  destruct (amd_interval_energy
              (mkSmi (fun _ => mkEnergyCount true 131073000 resolution_2m16 0)
                     (fun _ => mkBusy true 0))
              (set_energy_raw 1000 Unit_zero)) as (dev' & Hrun & _).
  - reflexivity.
  - cbn. lia.
  - cbn. lia.
  - exists 8589934592000000%positive, (-49). repeat split; lia.
  - assert (Hb : bpow (-49) = (/ 562949953421312)%R)
      by exact (bpow_neg_inv 49 ltac:(lia)).
    cbn -[IZR Rmult Rdiv bpow]. rewrite Hb. lra.
  - exists dev'. split; [exact Hrun |].
    vm_compute in Hrun. injection Hrun as <-. reflexivity.
Defined.

(** ** common.h: [get_vendor] *)

(** The four bytes of a 32-bit register in memory (x86: lowest first). *)
Definition le_bytes (r : Z) : list Z :=
  [r mod 256; r / 256 mod 256; r / 65536 mod 256; r / 16777216 mod 256].

(** A string literal in memory, with its final zero. *)
Definition c_string (s : String.string) : list Z :=
  map (fun a => Z.of_nat (Ascii.nat_of_ascii a)) (String.list_ascii_of_string s) ++ [0].

(** [strcmp(a, b) == 0]: the same bytes up to and including the first
    zero. *)
Fixpoint strcmp_eq (a b : list Z) : bool :=
  match a, b with
  | x :: a', y :: b' =>
      if x =? y then (if x =? 0 then true else strcmp_eq a' b') else false
  | _, _ => false
  end.

(** [get_vendor], from the registers that [__cpuid(0, ..)] fills. *)
Definition get_vendor (ebx ecx edx : Z) : vendor :=
  let vendor := le_bytes ebx ++ le_bytes edx ++ le_bytes ecx ++ [0] in
  if strcmp_eq vendor (c_string "GenuineIntel"%string) then INTEL
  else if strcmp_eq vendor (c_string "AuthenticAMD"%string) then AMD
  else VENDOR_UNKNOWN.

Lemma le_bytes_inj (r b0 b1 b2 b3 : Z) :
  0 <= r < 2 ^ 32 -> le_bytes r = [b0; b1; b2; b3] ->
  r = b0 + 256 * b1 + 65536 * b2 + 16777216 * b3.
Proof.
  intros Hr H. unfold le_bytes in H. injection H as <- <- <- <-.
  Z.div_mod_to_equations. lia.
Qed.

Lemma strcmp_eq_cons (x y : Z) (a b : list Z) :
  y <> 0 -> strcmp_eq (x :: a) (y :: b) = true -> x = y /\ strcmp_eq a b = true.
Proof.
  intros Hy. cbn [strcmp_eq]. destruct (Z.eqb_spec x y) as [-> | ]; [| discriminate].
  destruct (Z.eqb_spec y 0); [contradiction |]. auto.
Qed.

Lemma twelve_bytes (ebx ecx edx : Z) (c0 c1 c2 c3 c4 c5 c6 c7 c8 c9 c10 c11 : Z) :
  0 <= ebx < 2 ^ 32 -> 0 <= ecx < 2 ^ 32 -> 0 <= edx < 2 ^ 32 ->
  c0 <> 0 -> c1 <> 0 -> c2 <> 0 -> c3 <> 0 -> c4 <> 0 -> c5 <> 0 ->
  c6 <> 0 -> c7 <> 0 -> c8 <> 0 -> c9 <> 0 -> c10 <> 0 -> c11 <> 0 ->
  strcmp_eq (le_bytes ebx ++ le_bytes edx ++ le_bytes ecx ++ [0])
            [c0; c1; c2; c3; c4; c5; c6; c7; c8; c9; c10; c11; 0] = true ->
  ebx = c0 + 256 * c1 + 65536 * c2 + 16777216 * c3 /\
  edx = c4 + 256 * c5 + 65536 * c6 + 16777216 * c7 /\
  ecx = c8 + 256 * c9 + 65536 * c10 + 16777216 * c11.
Proof.
  intros Hb Hc Hd N0 N1 N2 N3 N4 N5 N6 N7 N8 N9 N10 N11 H.
  unfold le_bytes at 1 2 3 in H. cbn [app] in H.
  apply strcmp_eq_cons in H; [destruct H as [E0 H] | trivial].
  apply strcmp_eq_cons in H; [destruct H as [E1 H] | trivial].
  apply strcmp_eq_cons in H; [destruct H as [E2 H] | trivial].
  apply strcmp_eq_cons in H; [destruct H as [E3 H] | trivial].
  apply strcmp_eq_cons in H; [destruct H as [E4 H] | trivial].
  apply strcmp_eq_cons in H; [destruct H as [E5 H] | trivial].
  apply strcmp_eq_cons in H; [destruct H as [E6 H] | trivial].
  apply strcmp_eq_cons in H; [destruct H as [E7 H] | trivial].
  apply strcmp_eq_cons in H; [destruct H as [E8 H] | trivial].
  apply strcmp_eq_cons in H; [destruct H as [E9 H] | trivial].
  apply strcmp_eq_cons in H; [destruct H as [E10 H] | trivial].
  apply strcmp_eq_cons in H; [destruct H as [E11 H] | trivial].
  split; [| split]; apply le_bytes_inj; trivial; unfold le_bytes; congruence.
Qed.

(** X21. [get_vendor] answers [INTEL] exactly when the three registers
    spell GenuineIntel, [AMD] exactly when they spell AuthenticAMD, and
    [VENDOR_UNKNOWN] for every other content. *)
Theorem get_vendor_decodes :
  forall ebx ecx edx : Z,
    0 <= ebx < 2 ^ 32 -> 0 <= ecx < 2 ^ 32 -> 0 <= edx < 2 ^ 32 ->
    (get_vendor ebx ecx edx = INTEL <->
     ebx = 0x756e6547 /\ edx = 0x49656e69 /\ ecx = 0x6c65746e) /\
    (get_vendor ebx ecx edx = AMD <->
     ebx = 0x68747541 /\ edx = 0x69746e65 /\ ecx = 0x444d4163) /\
    (get_vendor ebx ecx edx = INTEL \/ get_vendor ebx ecx edx = AMD \/
     get_vendor ebx ecx edx = VENDOR_UNKNOWN).
Proof.
  intros ebx ecx edx Hb Hc Hd.
  assert (Hintel : strcmp_eq (le_bytes ebx ++ le_bytes edx ++ le_bytes ecx ++ [0])
                             (c_string "GenuineIntel"%string) = true ->
                   ebx = 0x756e6547 /\ edx = 0x49656e69 /\ ecx = 0x6c65746e).
  { intros H. apply twelve_bytes in H; trivial; try discriminate. }
  assert (Hamd : strcmp_eq (le_bytes ebx ++ le_bytes edx ++ le_bytes ecx ++ [0])
                           (c_string "AuthenticAMD"%string) = true ->
                 ebx = 0x68747541 /\ edx = 0x69746e65 /\ ecx = 0x444d4163).
  { intros H. apply twelve_bytes in H; trivial; try discriminate. }
  unfold get_vendor. split; [| split].
  - split.
    + destruct (strcmp_eq _ (c_string "GenuineIntel"%string)); [auto |].
      destruct (strcmp_eq _ (c_string "AuthenticAMD"%string)); discriminate.
    + intros (-> & -> & ->). reflexivity.
  - split.
    + destruct (strcmp_eq _ (c_string "GenuineIntel"%string)); [discriminate |].
      destruct (strcmp_eq _ (c_string "AuthenticAMD"%string)); [auto | discriminate].
    + intros (-> & -> & ->). reflexivity.
  - destruct (strcmp_eq _ (c_string "GenuineIntel"%string)); [auto |].
    destruct (strcmp_eq _ (c_string "AuthenticAMD"%string)); auto.
Qed.

Lemma get_vendor_decodes_witness :
  get_vendor 0x68747541 0x444d4163 0x69746e65 = AMD /\
  get_vendor 0x756e6547 0x6c65746e 0x49656e69 = INTEL /\
  get_vendor 0x756e6547 0x6c65746e 0 = VENDOR_UNKNOWN.
Proof.
  destruct (get_vendor_decodes 0x68747541 0x444d4163 0x69746e65) as (_ & [_ Hamd] & _);
    try lia.
  destruct (get_vendor_decodes 0x756e6547 0x6c65746e 0x49656e69) as ([_ Hintel] & _ & _);
    try lia.
  split; [apply Hamd; repeat split |]. split; [apply Hintel; repeat split |].
  reflexivity.
Defined.

(** ** amd_gpu.c: the full swing of the ratio *)

Lemma full_swing_ratios :
  mi250_energy_ratio 100 0 = B64.one /\ B64.sub B64.one B64.one = S754_zero false /\
  mi250_energy_ratio 0 100 = S754_zero false /\
  B64.sub B64.one (S754_zero false) = B64.one.
Proof. vm_compute. repeat split; reflexivity. Qed.

(** A ratio of zero leaves the idle floor. *)
Lemma no_share (idle above : Z) :
  0 <= idle < 2 ^ 48 -> 0 <= above < 2 ^ 48 ->
  mi250_share idle (S754_zero false) above = Done idle.
Proof.
  intros Hidle Habove. unfold mi250_share, to_uint64_t.
  assert (Hmul : B64.mul (S754_zero false) (B64.of_uint above) = S754_zero false).
  { destruct (Z.eq_dec above 0) as [-> | Hnz]; [reflexivity |].
    destruct (of_uint_exact above ltac:(lia)) as [(m & e & Hx & _) _].
    rewrite Hx. reflexivity. }
  rewrite Hmul.
  destruct (Z.eq_dec idle 0) as [-> | Hnz]; [reflexivity |].
  destruct (of_uint_exact idle ltac:(lia)) as [(m & e & Hx & _) _].
  assert (Hadd : B64.add (B64.of_uint idle) (S754_zero false) = B64.of_uint idle)
    by (rewrite Hx; reflexivity).
  rewrite Hadd, to_u64_of_uint by lia. reflexivity.
Qed.

(** A ratio of one gives the floor and all the energy above the floors:
    both operations are exact. *)
Lemma whole_share (idle above : Z) :
  0 <= idle < 2 ^ 48 -> 0 <= above < 2 ^ 48 ->
  mi250_share idle B64.one above = Done (idle + above).
Proof.
  intros Hidle Habove.
  destruct (Z.eq_dec above 0) as [-> | Hanz].
  { rewrite Z.add_0_r. unfold mi250_share, to_uint64_t.
    change (B64.mul B64.one (B64.of_uint 0)) with (S754_zero false).
    destruct (Z.eq_dec idle 0) as [-> | Hnz]; [reflexivity |].
    destruct (of_uint_exact idle ltac:(lia)) as [(m & e & Hx & _) _].
    assert (Hadd : B64.add (B64.of_uint idle) (S754_zero false) = B64.of_uint idle)
      by (rewrite Hx; reflexivity).
    rewrite Hadd, to_u64_of_uint by lia. reflexivity. }
  unfold mi250_share, to_uint64_t.
  destruct (of_uint_exact 1 ltac:(lia)) as [Hone HoneR]. fold B64.one in Hone, HoneR.
  destruct (of_uint_exact above ltac:(lia)) as [Hafin Hav].
  pose proof (mul_rounds _ _ _ _ _ _ Hone Hafin ltac:(lia) ltac:(lia))
    as (Hxfin & _ & Hxlow & Hxhigh).
  rewrite HoneR, Hav in Hxlow, Hxhigh.
  set (x := B64.mul B64.one (B64.of_uint above)) in *.
  assert (Hx : B64.B2R x = IZR above).
  { apply Rle_antisym; [apply Hxhigh | apply Hxlow]; try lia; lra. }
  destruct (Z.eq_dec idle 0) as [-> | Hinz].
  - assert (Hadd : B64.add (B64.of_uint 0) x = x).
    { destruct Hxfin as (m & e & Hxe & _). rewrite Hxe. reflexivity. }
    rewrite Hadd, Z.add_0_l.
    rewrite (to_u64_floor x _ _ above Hxfin); [reflexivity | lra | lia].
  - destruct (of_uint_exact idle ltac:(lia)) as [Hifin Hiv].
    pose proof (add_rounds _ _ _ _ _ _ Hifin Hxfin ltac:(lia) ltac:(lia))
      as (Hsfin & _ & Hslow & Hshigh).
    rewrite Hiv, Hx in Hslow, Hshigh.
    set (s := B64.add (B64.of_uint idle) x) in *.
    assert (Hs : B64.B2R s = IZR (idle + above)).
    { apply Rle_antisym; [apply Hshigh | apply Hslow]; try lia; rewrite plus_IZR; lra. }
    rewrite (to_u64_floor s _ _ (idle + above) Hsfin); [reflexivity | lra | lia].
Qed.

(** X22. At the full swing, one die at 100 % and the other at 0 %, the
    ratio is 1 (or 0) exactly: the busy die gets its idle floor and all the
    energy above the floors, the other one its idle floor, and nothing is
    lost in the split. *)
Theorem full_swing_gives_all_to_busy_die :
  forall (smi : rocm_smi) (dev p : Unit) (energy elapsed_s : Z),
    let r := rsmi_dev_energy_count_get smi (id dev) in
    let busy := u32 (bp_percent (rsmi_dev_busy_percent_get smi (id dev))) in
    let busy_peer := u32 (bp_percent (rsmi_dev_busy_percent_get smi (id p))) in
    let energy_idle := gcd_idle_power * elapsed_s in
    let energy_above_idle := Z.max (energy - 2 * energy_idle) 0 in
    bp_success (rsmi_dev_busy_percent_get smi (id dev)) = true ->
    bp_success (rsmi_dev_busy_percent_get smi (id p)) = true ->
    ec_success r = true ->
    energy_raw dev <> 0 -> energy_raw dev <= u64 (ec_power r) ->
    mi250_energy (ec_counter_resolution r) (energy_raw dev) (u64 (ec_power r))
    = Done energy ->
    mi250_elapsed_s (timestamp dev) (u64 (ec_timestamp r)) = Done elapsed_s ->
    energy < 2 ^ 48 -> energy_idle < 2 ^ 48 ->
    (busy = 100 /\ busy_peer = 0) \/ (busy = 0 /\ busy_peer = 100) ->
    exists dev' p',
      _amd_device_fetch_energy_mi250 smi dev (Some p) = Done (dev', Some p') /\
      energy_interval dev' = energy_idle + (if busy =? 100 then energy_above_idle else 0) /\
      energy_interval p' = energy_idle + (if busy =? 100 then 0 else energy_above_idle) /\
      energy_interval dev' + energy_interval p' = 2 * energy_idle + energy_above_idle.
Proof.
  intros smi dev p energy elapsed_s r busy busy_peer energy_idle energy_above_idle
         Hb1 Hb2 Hok Hlast Hle Henergy Helapsed HE Hidle Hswing.
  pose proof (to_uint64_t_range _ _ Henergy) as HE0.
  pose proof (to_uint64_t_range _ _ Helapsed) as Hel0.
  assert (Hidle0 : 0 <= energy_idle < 2 ^ 48)
    by (unfold energy_idle, gcd_idle_power in *; lia).
  assert (Hidle_eq : mi250_energy_idle elapsed_s = energy_idle).
  { unfold mi250_energy_idle. apply u64_small. fold energy_idle. lia. }
  assert (Hmin : mi250_energy_min_idle energy energy_idle = energy_above_idle).
  { rewrite mi250_energy_min_idle_max by lia. reflexivity. }
  assert (Habove : 0 <= energy_above_idle < 2 ^ 48) by (unfold energy_above_idle; lia).
  destruct full_swing_ratios as (R1 & R2 & R3 & R4).
  pose proof (whole_share energy_idle energy_above_idle Hidle0 Habove) as Hwhole.
  pose proof (no_share energy_idle energy_above_idle Hidle0 Habove) as Hnone.
  destruct Hswing as [[Ha Hb] | [Ha Hb]].
  - destruct (mi250_fetch_shares smi dev p energy elapsed_s
                (energy_idle + energy_above_idle) energy_idle)
      as (dev' & p' & Hrun & HiA & HiB & _); trivial;
      try (fold busy busy_peer; rewrite Hidle_eq, Hmin, Ha, Hb, R1, ?R2; assumption).
    exists dev', p'. split; [exact Hrun |]. rewrite HiA, HiB, Ha. cbn [Z.eqb Pos.eqb].
    repeat split; lia.
  - destruct (mi250_fetch_shares smi dev p energy elapsed_s
                energy_idle (energy_idle + energy_above_idle))
      as (dev' & p' & Hrun & HiA & HiB & _); trivial;
      try (fold busy busy_peer; rewrite Hidle_eq, Hmin, Ha, Hb, R3, ?R4; assumption).
    exists dev', p'. split; [exact Hrun |]. rewrite HiA, HiB, Ha. cbn [Z.eqb].
    repeat split; lia.
Qed.

(** 1001 J over 10 s, the first die at 100 % and the second at 0 %: 601 J
    and 400 J. *)
Lemma full_swing_gives_all_to_busy_die_witness :
  exists dev' p',
    _amd_device_fetch_energy_mi250 (pair_smi 1001 100 0) pair_holder (Some pair_peer)
    = Done (dev', Some p') /\
    energy_interval dev' = 601 /\ energy_interval p' = 400.
Proof.
  destruct (full_swing_gives_all_to_busy_die (pair_smi 1001 100 0) pair_holder pair_peer
              1001 10) as (dev' & p' & Hrun & HA & HB & _);
    try (vm_compute; intuition congruence).
  exists dev', p'. split; [exact Hrun |]. split; [exact HA | exact HB].
Defined.

(** ** dram.c: [dram_init] *)

Fixpoint dram_init_from (to_core : Z -> Z) (hw : msr_device) (v : vendor)
    (dest_opens : Z -> bool) (n i : nat) (sibs : list Unit) : outcome (list Unit) :=
  match n with
  | O => Done sibs
  | S n' =>
      '(package, _) <- dram_init_package to_core hw (Z.of_nat i) v
                                         (dest_opens (Z.of_nat i)) ;;
      dram_init_from to_core hw v dest_opens n' (S i) (store i package sibs)
  end.

(** [dram_init], with the table [_dram_package_to_core] it filled. *)
Definition dram_init (vendor_id : vendor) (topology : list Z) (hw : msr_device)
    (dest_opens : Z -> bool) (is_verbose is_disabled : bool)
    : outcome (Component * list Z) :=
  let zeroed := repeat Unit_zero (Z.to_nat N_SIBLINGS_MAX) in
  let no_cores := repeat 0 (Z.to_nat N_SIBLINGS_MAX) in
  let untouched := Done (mkComponent zeroed DRAM vendor_id 0 is_verbose, no_cores) in
  match vendor_id with
  | INTEL =>
      if is_disabled then untouched
      else
        '(n_siblings, to_core) <- scan_topology topology 0 0 no_cores ;;
        _ <- assert (n_siblings <? N_SIBLINGS_MAX) ;;
        sibs <- dram_init_from (table to_core) hw vendor_id dest_opens
                               (Z.to_nat n_siblings) 0 zeroed ;;
        Done (mkComponent sibs DRAM vendor_id n_siblings is_verbose, to_core)
  | _ => untouched
  end.

(** DRAM package [i] after its first fetch. *)
Definition first_dram_fetch (to_core : Z -> Z) (hw : msr_device) (i : nat) : Unit :=
  set_energy_resolution
    (B64.pow_half (Z.land (Z.shiftr (reading hw (to_core (Z.of_nat i)) MSR_INTEL_POWER_UNIT) 8)
                          MSR_ENERGY_UNIT_MASK))
    (set_energy_raw (reading hw (to_core (Z.of_nat i)) MSR_INTEL_DRAM_PACKAGE_ENERGY)
                    (set_id (Z.of_nat i) Unit_zero)).

Lemma dram_init_package_readable (to_core : Z -> Z) (hw : msr_device) (i : nat) :
  (forall core reg, hw core reg <> None) ->
  dram_init_package to_core hw (Z.of_nat i) INTEL true
  = Done (first_dram_fetch to_core hw i,
          [MSR_INTEL_DRAM_PACKAGE_ENERGY; MSR_INTEL_POWER_UNIT]).
Proof.
  intros Hhw.
  unfold dram_init_package, _dram_package_fetch_energy, read_msr, first_dram_fetch, reading.
  cbn [id set_id Unit_zero bind].
  destruct (hw (to_core (Z.of_nat i)) MSR_INTEL_DRAM_PACKAGE_ENERGY) as [raw |] eqn:Hraw;
    [| contradiction (Hhw _ _ Hraw)].
  cbn [bind energy_resolution set_energy_raw set_id].
  change (B64.gt (S754_zero false) B64.zero) with false. cbv iota.
  destruct (hw (to_core (Z.of_nat i)) MSR_INTEL_POWER_UNIT) as [msr_unit |] eqn:Hunit;
    [| contradiction (Hhw _ _ Hunit)].
  reflexivity.
Qed.

Lemma dram_init_from_spec (to_core : Z -> Z) (hw : msr_device)
    (dest_opens : Z -> bool) (post : list Unit) :
  (forall core reg, hw core reg <> None) ->
  (forall i, dest_opens i = true) ->
  forall (n : nat) (pre mid : list Unit),
    length mid = n ->
    dram_init_from to_core hw INTEL dest_opens n (length pre) (pre ++ mid ++ post)
    = Done (pre ++ map (first_dram_fetch to_core hw) (seq (length pre) n) ++ post).
Proof.
  intros Hhw Hopen.
  induction n as [| n IH]; intros pre mid Hmid.
  - destruct mid; [| discriminate]. reflexivity.
  - destruct mid as [| old mid]; [discriminate |].
    cbn [dram_init_from seq map app]. rewrite Hopen.
    rewrite (dram_init_package_readable _ _ _ Hhw). cbn [bind]. rewrite store_app.
    specialize (IH (pre ++ [first_dram_fetch to_core hw (length pre)]) mid).
    rewrite length_app in IH. cbn [length] in IH.
    replace (length pre + 1)%nat with (S (length pre)) in IH by lia.
    rewrite <- !app_assoc in IH. cbn [app] in IH.
    rewrite IH by (cbn [length] in Hmid; lia). reflexivity.
Qed.

(** X23. [dram_init] looks at the machine on Intel only: on AMD, on an
    unknown vendor, or disabled, it opens and reads nothing and leaves no
    unit, so that [dram_update] does nothing. On Intel, with package
    identifiers below 15 (15 itself stops it on the assertion), registers
    that can be read and files that open, it leaves one unit per package
    number, nothing accumulated yet, the raw value read through the core
    kept for that number, the resolution decoded. *)
Theorem dram_init_outcome :
  forall (vendor_id : vendor) (topology : list Z) (hw : msr_device)
         (dest_opens : Z -> bool) (is_verbose : bool),
    (forall is_disabled,
       is_disabled = true \/ vendor_id <> INTEL ->
       exists drams to_core,
         dram_init vendor_id topology hw dest_opens is_verbose is_disabled
         = Done (drams, to_core) /\
         n_siblings drams = 0 /\
         forall hw', dram_update to_core hw' drams = Done drams) /\
    (vendor_id = INTEL ->
     Z.of_nat (length topology) < 2 ^ 32 ->
     Forall (fun p => 0 <= p < N_SIBLINGS_MAX) topology ->
     (In 15 topology ->
      dram_init vendor_id topology hw dest_opens is_verbose false = Assert_failure) /\
     (~ In 15 topology ->
      (forall core reg, hw core reg <> None) -> (forall i, dest_opens i = true) ->
      exists drams to_core,
        dram_init vendor_id topology hw dest_opens is_verbose false
        = Done (drams, to_core) /\
        scan_topology topology 0 0 (repeat 0 16%nat) = Done (n_siblings drams, to_core) /\
        n_siblings drams < N_SIBLINGS_MAX /\
        forall i : nat,
          Z.of_nat i < n_siblings drams ->
          exists package,
            nth_error (siblings drams) i = Some package /\
            id package = Z.of_nat i /\
            energy_acc package = 0 /\ energy_interval package = 0 /\
            energy_raw package
            = reading hw (table to_core (Z.of_nat i)) MSR_INTEL_DRAM_PACKAGE_ENERGY /\
            known_resolution package)).
Proof.
  intros vendor_id topology hw dest_opens is_verbose. split.
  - intros is_disabled Hoff.
    assert (Hinit : dram_init vendor_id topology hw dest_opens is_verbose is_disabled
                    = Done (mkComponent (repeat Unit_zero 16) DRAM vendor_id 0 is_verbose,
                            repeat 0 16%nat)).
    { unfold dram_init. destruct Hoff as [-> | Hv].
      - destruct vendor_id; reflexivity.
      - destruct vendor_id; try reflexivity. contradiction Hv. reflexivity. }
    rewrite Hinit. eexists. eexists. split; [reflexivity |].
    split; [reflexivity |]. intros hw'. reflexivity.
  - intros -> Hlen Hall.
    destruct (scan_topology_spec topology 0 0 (repeat 0 16%nat) Hall eq_refl
                ltac:(lia) ltac:(lia) ltac:(unfold N_SIBLINGS_MAX; lia))
      as (n & tc & Hscan & Htc & Hn & Hlt & Hmax & _ & _).
    unfold N_SIBLINGS_MAX in *.
    assert (Hinit : dram_init INTEL topology hw dest_opens is_verbose false
                    = (_ <- assert (n <? 16) ;;
                       sibs <- dram_init_from (table tc) hw INTEL dest_opens
                                              (Z.to_nat n) 0 (repeat Unit_zero 16) ;;
                       Done (mkComponent sibs DRAM INTEL n is_verbose, tc))).
    { unfold dram_init. change (Z.to_nat N_SIBLINGS_MAX) with 16%nat.
      rewrite Hscan. reflexivity. }
    rewrite Hinit. split.
    + intros H15. specialize (Hlt 15 H15).
      destruct (Z.ltb_spec n 16); [lia |]. reflexivity.
    + intros H15 Hhw Hopen.
      assert (Hn16 : n < 16).
      { destruct Hmax as [-> | Hin]; [lia |].
        destruct (Z.eq_dec n 16) as [-> | ]; [contradiction | lia]. }
      destruct (Z.ltb_spec n 16); [| lia]. cbn [assert bind].
      pose proof (dram_init_from_spec (table tc) hw dest_opens
                    (repeat Unit_zero (16 - Z.to_nat n)) Hhw Hopen (Z.to_nat n) []
                    (repeat Unit_zero (Z.to_nat n)) (repeat_length _ _)) as Hloop.
      cbn [length app] in Hloop. rewrite <- repeat_app in Hloop.
      replace (Z.to_nat n + (16 - Z.to_nat n))%nat with 16%nat in Hloop by lia.
      rewrite Hloop. cbn [bind].
      eexists. eexists. split; [reflexivity |]. cbn [n_siblings siblings].
      split; [exact Hscan |]. split; [exact Hn16 |].
      intros i Hi. rewrite nth_error_map_seq by lia.
      eexists. split; [reflexivity |]. unfold first_dram_fetch.
      cbn [id energy_acc energy_interval energy_raw set_energy_resolution set_energy_raw
           set_id Unit_zero].
      repeat split; try reflexivity.
      eexists. split; [apply energy_unit_field | reflexivity].
Qed.

(** An AMD machine: no DRAM unit, whatever the registers hold. *)
Lemma dram_init_outcome_witness :
  exists drams to_core,
    dram_init AMD [0; 0; 1; 1] two_sockets (fun _ => true) false false
    = Done (drams, to_core) /\
    n_siblings drams = 0 /\
    dram_update to_core (fun _ _ => None) drams = Done drams.
Proof.
  destruct (dram_init_outcome AMD [0; 0; 1; 1] two_sockets (fun _ => true) false)
    as [Hoff _].
  destruct (Hoff false) as (drams & to_core & Hrun & Hn & Hup);
    [right; discriminate |].
  exists drams, to_core. split; [exact Hrun |]. split; [exact Hn | apply Hup].
Defined.
